(** * ChatFlow: room registry, message ledger and relationship manager

    A shallow embedding of the two service classes of the application,
    [ChatService] (chat.service.ts) and [UserService] (user.service.ts),
    over an explicit model of the document store they talk to.

    Conventions of the embedding.
    - A collection is a finite map from document ids to documents
      ([gmap string _]); a sub-collection is a map of maps.
    - A JavaScript object used as a dictionary ([readBy], [unreadCount],
      [activeUsers]) is a [gmap]; an array is a [list].
    - Every [async] method becomes a function from the store to a [result]
      carrying the new store; a thrown [Error] is [Err] and leaves the
      store as it was when it was thrown.
    - The clock ([Timestamp.now()], [serverTimestamp()], [new Date()]) and
      the auto-generated document id ([addDoc], [doc(collection(..))]) are
      inputs of the operation that uses them.
    - Strings are sequences of code units below 256; user ids are opaque
      keys (they contain no "." so a field path such as
      [unreadCount.<uid>] addresses exactly one key). *)

From Stdlib Require Import ZArith List Ascii String Lia.
From stdpp Require Import base strings gmap list pretty.

Local Open Scope Z_scope.

(** ** Results of fallible operations *)

Inductive result (E A : Type) : Type :=
  | Ok (a : A)
  | Err (e : E).
Arguments Ok {E A} a.
Arguments Err {E A} e.

#[global] Instance result_ret {E} : MRet (result E) := fun _ a => Ok a.
#[global] Instance result_bind {E} : MBind (result E) := fun _ _ k m =>
  match m with
  | Ok a => k a
  | Err e => Err e
  end.

Definition is_ok {E A} (r : result E A) : bool :=
  match r with Ok _ => true | Err _ => false end.

Definition is_err {E A} (r : result E A) : bool := negb (is_ok r).

(** ** The fragment of JavaScript the services rely on *)

Module Js.

(** Values that occur in the conditions of the services. *)
Inductive value : Type :=
  | Bool (b : bool)
  | Str (s : string)
  | Undefined.

(** [ToBoolean]: the empty string and [undefined] are falsy. *)
Definition truthy (v : value) : bool :=
  match v with
  | Bool b => b
  | Str s => negb (bool_decide (s = ""))
  | Undefined => false
  end.

(** The prefix operator [!]: always a boolean. *)
Definition not (v : value) : value := Bool (negb (truthy v)).

(** Strict equality [===]: values of different types are never equal. *)
Definition strict_eq (a b : value) : bool :=
  match a, b with
  | Bool x, Bool y => bool_decide (x = y)
  | Str x, Str y => bool_decide (x = y)
  | Undefined, Undefined => true
  | _, _ => false
  end.

(** An optional string field read from an object. *)
Definition of_opt (o : option string) : value :=
  match o with Some s => Str s | None => Undefined end.

(** White space and line terminators removed by [String.prototype.trim],
    restricted to code units below 256: TAB, LF, VT, FF, CR, SP, NBSP. *)
Definition is_white (a : ascii) : bool :=
  match a with
  | "009" | "010" | "011" | "012" | "013" | " " | "160" => true
  | _ => false
  end%char.

Fixpoint trimStart (s : string) : string :=
  match s with
  | EmptyString => EmptyString
  | String a s' => if is_white a then trimStart s' else s
  end.

Definition trim (s : string) : string :=
  String.rev (trimStart (String.rev (trimStart s))).

(** [s.split(sep)[0]] for a one-character separator: the text before the
    first occurrence of [sep], the whole string when there is none. *)
Fixpoint split_head (sep : ascii) (s : string) : string :=
  match s with
  | EmptyString => EmptyString
  | String a s' =>
      if bool_decide (a = sep) then EmptyString
      else String a (split_head sep s')
  end.

(** [arr.includes(x)] *)
Definition includes (x : string) (arr : list string) : bool :=
  bool_decide (x ∈ arr).

(** [String.prototype.toLowerCase] on code units below 256: the letters
    A-Z and the accented capitals U+00C0-U+00DE (but the sign U+00D7) move
    up by 32; every other code unit is kept. *)
Definition lowerUnit (a : ascii) : ascii :=
  let n := N_of_ascii a in
  if ((65 <=? n) && (n <=? 90))%N
     || ((192 <=? n) && (n <=? 222) && negb (n =? 215))%N
  then ascii_of_N (n + 32)
  else a.

Fixpoint toLowerCase (s : string) : string :=
  match s with
  | EmptyString => EmptyString
  | String a s' => String (lowerUnit a) (toLowerCase s')
  end.

End Js.

(** ** Field transforms of the document store *)

Module Firestore.

(** [arrayUnion(x)]: append unless already present. *)
Definition arrayUnion (x : string) (arr : list string) : list string :=
  if bool_decide (x ∈ arr) then arr else arr ++ [x].

(** [arrayRemove(x)]: drop every occurrence. *)
Definition arrayRemove (x : string) (arr : list string) : list string :=
  List.filter (fun y => negb (bool_decide (y = x))) arr.

(** What an update writes to one numeric field: the sentinel
    [increment(n)] or a plain number. *)
Inductive numWrite : Type :=
  | Increment (n : Z)
  | SetNum (n : Z).

(** Applying one write to the current content of the field; [increment]
    on a missing field starts from zero. *)
Definition writeNum (w : numWrite) (cur : option Z) : Z :=
  match w with
  | Increment n => default 0 cur + n
  | SetNum n => n
  end.

(** Applying the writes collected for the keys of a numeric map field;
    keys that are not written keep their content. *)
Definition applyNumWrites (ws : gmap string numWrite) (m : gmap string Z)
  : gmap string Z :=
  merge (fun w cur =>
           match w with
           | Some w => Some (writeNum w cur)
           | None => cur
           end) ws m.

End Firestore.

(** ** Chat rooms and messages *)

Module ChatService.
Import Firestore.

Inductive RoomType : Type := Private | Group.

#[global] Instance RoomType_eq_dec : EqDecision RoomType.
Proof. solve_decision. Defined.

(** The string stored in the [type] field. *)
Definition type_string (t : RoomType) : string :=
  match t with Private => "private" | Group => "group" end.

(** [lastMessage]: a nested object.  Its scalar fields are optional
    because an update of the path [lastMessage.readBy.<uid>] on a room
    without [lastMessage] creates the object with that path only. *)
Record LastMessage : Type := mkLastMessage {
  lm_text : option string;
  lm_timestamp : option Z;
  lm_senderId : option string;
  lm_readBy : gmap string bool;
}.

Record ChatRoom : Type := mkChatRoom {
  type : RoomType;
  name : option string;
  participants : list string;
  lastMessage : option LastMessage;
  createdAt : Z;
  groupAdmin : option string;
  unreadCount : gmap string Z;
  activeUsers : gmap string bool;
  displayNames : gmap string string;
  description : option string;
  photoURL : option string;
  updatedAt : option Z;
}.

(** A document of the [messages] sub-collection (the id is the key). *)
Record Message : Type := mkMessage {
  text : string;
  senderId : string;
  timestamp : Z;
  readBy : gmap string bool;
}.

(** [chatRooms] and, per room id, [chatRooms/<id>/messages]. *)
Record Store : Type := mkStore {
  rooms : gmap string ChatRoom;
  messages : gmap string (gmap string Message);
}.

Definition empty : Store := mkStore ∅ ∅.

Inductive Error : Type :=
  | ChatRoomNotFound          (* 'Chat room not found' *)
  | OnlyGroupAdmin            (* 'Only group admin can add members' *)
  | AlreadyInGroup            (* 'User is already in the group' *)
  | NonGroupChat              (* 'Cannot remove participant from non-group chat' *)
  | FieldsRequired            (* 'Chat ID, sender ID, and message text are required' *)
  | GroupNameRequired         (* 'Group name is required' *)
  | IdsRequired               (* 'Room ID and User ID are required' *)
  | NotPrivateChat            (* 'Display name can only be set for private chats' *)
  | NotParticipant            (* 'User is not a participant of this chat' *)
  | NoDocument                (* the store rejects an update of a missing document *)
  | ReferenceError (name : string). (* '<name> is not defined' *)

#[global] Instance Error_eq_dec : EqDecision Error.
Proof. solve_decision. Defined.

(** *** Field setters *)

Definition set_participants (f : list string → list string) (r : ChatRoom) :=
  mkChatRoom (type r) (name r) (f (participants r)) (lastMessage r)
    (createdAt r) (groupAdmin r) (unreadCount r) (activeUsers r)
    (displayNames r) (description r) (photoURL r) (updatedAt r).

Definition set_lastMessage (f : option LastMessage → option LastMessage)
  (r : ChatRoom) :=
  mkChatRoom (type r) (name r) (participants r) (f (lastMessage r))
    (createdAt r) (groupAdmin r) (unreadCount r) (activeUsers r)
    (displayNames r) (description r) (photoURL r) (updatedAt r).

Definition set_unreadCount (f : gmap string Z → gmap string Z) (r : ChatRoom) :=
  mkChatRoom (type r) (name r) (participants r) (lastMessage r)
    (createdAt r) (groupAdmin r) (f (unreadCount r)) (activeUsers r)
    (displayNames r) (description r) (photoURL r) (updatedAt r).

Definition set_activeUsers (f : gmap string bool → gmap string bool)
  (r : ChatRoom) :=
  mkChatRoom (type r) (name r) (participants r) (lastMessage r)
    (createdAt r) (groupAdmin r) (unreadCount r) (f (activeUsers r))
    (displayNames r) (description r) (photoURL r) (updatedAt r).

Definition set_displayNames (f : gmap string string → gmap string string)
  (r : ChatRoom) :=
  mkChatRoom (type r) (name r) (participants r) (lastMessage r)
    (createdAt r) (groupAdmin r) (unreadCount r) (activeUsers r)
    (f (displayNames r)) (description r) (photoURL r) (updatedAt r).

Definition set_details (n d p : option string) (now : Z) (r : ChatRoom) :=
  mkChatRoom (type r) (from_option Some (name r) n) (participants r)
    (lastMessage r) (createdAt r) (groupAdmin r) (unreadCount r)
    (activeUsers r) (displayNames r)
    (from_option Some (description r) d)
    (from_option Some (photoURL r) p) (Some now).

(** The path [lastMessage.readBy.<uid>] set to [true]. *)
Definition markLastRead (userId : string) (lm : option LastMessage)
  : option LastMessage :=
  match lm with
  | Some l => Some (mkLastMessage (lm_text l) (lm_timestamp l) (lm_senderId l)
                      (<[userId := true]> (lm_readBy l)))
  | None => Some (mkLastMessage None None None {[userId := true]})
  end.

(** [updateDoc(doc(db, 'chatRooms', id), ..)] on a room that exists. *)
Definition updateRoom (id : string) (f : ChatRoom → ChatRoom) (st : Store) : Store :=
  mkStore (alter f id (rooms st)) (messages st).

(** The message documents of a room (none when nothing was ever sent). *)
Definition roomMessages (st : Store) (roomId : string) : gmap string Message :=
  default ∅ (messages st !! roomId).

(** *** Room registry *)

(** [findExistingPrivateChat]: the query selects the private rooms that
    list [user1Id]; [find] keeps the first of them, in the order the
    store returns them, that also lists [user2Id]. *)
Definition findExistingPrivateChat (st : Store) (user1Id user2Id : string)
  : option (string * ChatRoom) :=
  let snapshot :=
    List.filter (fun d => bool_decide (type d.2 = Private)
                          && Js.includes user1Id (participants d.2))
                (map_to_list (rooms st)) in
  List.find (fun d => Js.includes user2Id (participants d.2)) snapshot.

(** The document [createPrivateChat] hands to [addDoc]. *)
Definition newPrivateRoom (now : Z) (user1Id user2Id : string) : ChatRoom :=
  mkChatRoom Private None [user1Id; user2Id]
    (Some (mkLastMessage (Some "Chat created") (Some now) (Some user1Id)
             (<[user2Id := false]> (<[user1Id := true]> ∅))))
    now None
    (<[user2Id := 1]> (<[user1Id := 0]> ∅))
    ∅ ∅ None None None.

(** [createPrivateChat]; [newId] is the id [addDoc] generates. *)
Definition createPrivateChat (now : Z) (newId : string) (st : Store)
  (user1Id user2Id : string) : (string * ChatRoom) * Store :=
  match findExistingPrivateChat st user1Id user2Id with
  | Some existingChat => (existingChat, st)
  | None =>
      let chatRoom := newPrivateRoom now user1Id user2Id in
      ((newId, chatRoom),
       mkStore (<[newId := chatRoom]> (rooms st)) (messages st))
  end.

(** [getOrCreateDirectChat] *)
Definition getOrCreateDirectChat (now : Z) (newId : string) (st : Store)
  (user1Id user2Id : string) : (string * ChatRoom) * Store :=
  match findExistingPrivateChat st user1Id user2Id with
  | Some existingChat => (existingChat, st)
  | None => createPrivateChat now newId st user1Id user2Id
  end.

(** [[...new Set(xs)]]: first occurrences, in order. *)
Fixpoint dedup_first (seen xs : list string) : list string :=
  match xs with
  | [] => []
  | x :: xs' =>
      if bool_decide (x ∈ seen) then dedup_first seen xs'
      else x :: dedup_first (x :: seen) xs'
  end.

(** [createGroupChat] *)
Definition createGroupChat (now : Z) (newId : string) (st : Store)
  (groupName adminId : string) (participantIds : list string)
  : result Error ((string * ChatRoom) * Store) :=
  if negb (Js.truthy (Js.Str groupName))
     || bool_decide (String.length (Js.trim groupName) = 0%nat)
  then Err GroupNameRequired
  else
    let chatRoom :=
      mkChatRoom Group (Some (Js.trim groupName))
        (dedup_first [] (adminId :: participantIds))
        (Some (mkLastMessage (Some "Group created") (Some now) (Some adminId)
                 {[adminId := true]}))
        now (Some adminId) ∅ ∅ ∅ None None None in
    Ok ((newId, chatRoom),
        mkStore (<[newId := chatRoom]> (rooms st)) (messages st)).

(** [addUserToGroup] *)
Definition addUserToGroup (st : Store) (chatId adminId userId : string)
  : result Error Store :=
  match rooms st !! chatId with
  | None => Err ChatRoomNotFound
  | Some chatData =>
      if negb (Js.strict_eq (Js.of_opt (groupAdmin chatData)) (Js.Str adminId))
      then Err OnlyGroupAdmin
      else if Js.includes userId (participants chatData)
      then Err AlreadyInGroup
      else Ok (updateRoom chatId (set_participants (arrayUnion userId)) st)
  end.

(** The condition of the type guard of [removeParticipant], as written:
    [!room.type === 'group']. *)
Definition nonGroupGuard (room : ChatRoom) : bool :=
  Js.strict_eq (Js.not (Js.Str (type_string (type room)))) (Js.Str "group").

(** [removeParticipant] of the first copy of the file (lines 384-407),
    whose import list (lines 1-20) binds [arrayRemove]. *)
Definition removeParticipant (st : Store) (roomId participantId : string)
  : result Error Store :=
  match rooms st !! roomId with
  | None => Err ChatRoomNotFound
  | Some room =>
      if nonGroupGuard room then Err NonGroupChat
      else Ok (updateRoom roomId (set_participants (arrayRemove participantId)) st)
  end.

(** [updateGroupDetails]: the given fields and an [updatedAt] stamp. *)
Definition updateGroupDetails (now : Z) (st : Store) (roomId : string)
  (n d p : option string) : result Error Store :=
  match rooms st !! roomId with
  | None => Err NoDocument
  | Some _ => Ok (updateRoom roomId (set_details n d p now) st)
  end.

(** [updateRoomDisplayName] *)
Definition updateRoomDisplayName (st : Store) (roomId userId displayName : string)
  : result Error Store :=
  if negb (Js.truthy (Js.Str roomId)) || negb (Js.truthy (Js.Str userId))
  then Err IdsRequired
  else
    match rooms st !! roomId with
    | None => Err ChatRoomNotFound
    | Some room =>
        if negb (bool_decide (type room = Private)) then Err NotPrivateChat
        else if negb (Js.includes userId (participants room))
        then Err NotParticipant
        else Ok (updateRoom roomId
                   (set_displayNames (insert userId displayName)) st)
    end.

(** [updateUserPresence]: the single path [activeUsers.<uid>]. *)
Definition updateUserPresence (st : Store) (chatId userId : string)
  (isActive : bool) : result Error Store :=
  match rooms st !! chatId with
  | None => Err NoDocument
  | Some _ => Ok (updateRoom chatId (set_activeUsers (insert userId isActive)) st)
  end.

(** [getUnreadCount]: [chatData.unreadCount?.[userId] || 0]. *)
Definition getUnreadCount (st : Store) (chatId userId : string) : Z :=
  match rooms st !! chatId with
  | None => 0
  | Some chatData => default 0 (unreadCount chatData !! userId)
  end.

(** Writing one message document ([batch.set] on a message reference). *)
Definition setMessage (roomId msgId : string) (m : Message) (st : Store) : Store :=
  mkStore (rooms st)
          (<[roomId := <[msgId := m]> (roomMessages st roomId)]> (messages st)).

(** The [lastMessage] object both variants of [sendMessage] write. *)
Definition snapshot (m : Message) : LastMessage :=
  mkLastMessage (Some (text m)) (Some (timestamp m)) (Some (senderId m)) (readBy m).

(** Setting [readBy.<uid>] to [true] on the messages a query selected. *)
Definition markRead (selected : Message → bool) (userId : string) (m : Message)
  : Message :=
  if selected m
  then mkMessage (text m) (senderId m) (timestamp m) (<[userId := true]> (readBy m))
  else m.

(** The room part of the batch of [markMessagesAsRead]:
    [unreadCount.<uid>] to 0 and [lastMessage.readBy.<uid>] to [true]. *)
Definition resetUnread (userId : string) (r : ChatRoom) : ChatRoom :=
  set_lastMessage (markLastRead userId) (set_unreadCount (insert userId 0) r).

(** *** Message ledger without presence (the first [sendMessage]) *)

Module Simple.

(** [readBy[participantId] = participantId === senderId], for each
    participant in order. *)
Definition computeReadBy (senderId : string) (ps : list string) : gmap string bool :=
  foldl (fun acc participantId =>
           <[participantId := bool_decide (participantId = senderId)]> acc) ∅ ps.

(** [updateData['unreadCount.' + participantId] = increment(1)] for each
    participant other than the sender. *)
Definition unreadWrites (senderId : string) (ps : list string) : gmap string numWrite :=
  foldl (fun acc participantId =>
           if negb (bool_decide (participantId = senderId))
           then <[participantId := Increment 1]> acc
           else acc) ∅ ps.

(** [sendMessage]; [now] is the server time of the commit and [newId] the
    id of the fresh message reference. *)
Definition sendMessage (now : Z) (newId : string) (st : Store)
  (roomId senderId text : string) : result Error (string * Store) :=
  match rooms st !! roomId with
  | None => Err ChatRoomNotFound
  | Some room =>
      let message :=
        mkMessage text senderId now (computeReadBy senderId (participants room)) in
      let updateData := unreadWrites senderId (participants room) in
      Ok (newId,
          updateRoom roomId
            (fun r => set_unreadCount (applyNumWrites updateData)
                        (set_lastMessage (fun _ => Some (snapshot message)) r))
            (setMessage roomId newId message st))
  end.

(** The query [where('readBy.' + userId, '==', false)]. *)
Definition unreadQuery (userId : string) (m : Message) : bool :=
  bool_decide (readBy m !! userId = Some false).

(** [markMessagesAsRead]: one batch; it is rejected as a whole when the
    room document it updates does not exist. *)
Definition markMessagesAsRead (st : Store) (roomId userId : string)
  : result Error Store :=
  match rooms st !! roomId with
  | None => Err NoDocument
  | Some _ =>
      Ok (mkStore (alter (resetUnread userId) roomId (rooms st))
                  (alter (fmap (markRead (unreadQuery userId) userId)) roomId
                         (messages st)))
  end.

End Simple.

(** *** Presence-aware message ledger (the second [sendMessage]) *)

Module Presence.

(** One round of the [forEach] over the participants: the read flag of the
    participant and the write to its unread counter. *)
Definition visit (active : gmap string bool) (senderId : string)
  (acc : gmap string bool * gmap string numWrite) (participantId : string)
  : gmap string bool * gmap string numWrite :=
  let read := bool_decide (active !! participantId = Some true)
              || bool_decide (participantId = senderId) in
  (<[participantId := read]> acc.1,
   <[participantId := if negb read then Increment 1 else SetNum 0]> acc.2).

Definition computeReadBy (active : gmap string bool) (senderId : string)
  (ps : list string) : gmap string bool * gmap string numWrite :=
  foldl (visit active senderId) (∅, ∅) ps.

(** [sendMessage]; [now] is [Timestamp.now()] and [newId] the id of the
    fresh message reference. *)
Definition sendMessage (now : Z) (newId : string) (st : Store)
  (chatId senderId text : string) : result Error ((string * Message) * Store) :=
  if negb (Js.truthy (Js.Str chatId)) || negb (Js.truthy (Js.Str senderId))
     || negb (Js.truthy (Js.Str (Js.trim text)))
  then Err FieldsRequired
  else
    match rooms st !! chatId with
    | None => Err ChatRoomNotFound
    | Some chatData =>
        let '(readBy, unreadCountUpdate) :=
          computeReadBy (activeUsers chatData) senderId (participants chatData) in
        let message := mkMessage (Js.trim text) senderId now readBy in
        Ok ((newId, message),
            updateRoom chatId
              (fun r => set_unreadCount (applyNumWrites unreadCountUpdate)
                          (set_lastMessage (fun _ => Some (snapshot message)) r))
              (setMessage chatId newId message st))
    end.

(** The query [where('readBy.' + userId, '!=', true)].  A not-equal filter
    of the store only matches documents in which the field exists. *)
Definition unreadQuery (userId : string) (m : Message) : bool :=
  match readBy m !! userId with
  | Some b => negb (bool_decide (b = true))
  | None => false
  end.

(** [markMessagesAsRead]: as above, and [activeUsers.<uid>] to [true]. *)
Definition markMessagesAsRead (st : Store) (chatId userId : string)
  : result Error Store :=
  match rooms st !! chatId with
  | None => Err NoDocument
  | Some _ =>
      Ok (mkStore (alter (fun r => set_activeUsers (insert userId true)
                                     (resetUnread userId r))
                         chatId (rooms st))
                  (alter (fmap (markRead (unreadQuery userId) userId)) chatId
                         (messages st)))
  end.

(** The names the second copy of the file imports from
    'firebase/firestore' (lines 447-465).  The first copy imports the same
    names and [arrayRemove]. *)
Definition imports : list string :=
  ["collection"; "query"; "where"; "orderBy"; "addDoc"; "getDocs"; "getDoc";
   "doc"; "updateDoc"; "arrayUnion"; "Timestamp"; "onSnapshot"; "writeBatch";
   "increment"; "setDoc"; "deleteField"; "serverTimestamp"].

(** Evaluating an identifier of the module scope: a name that is not
    bound throws a [ReferenceError]. *)
Definition resolve {A} (name : string) (v : A) : result Error A :=
  if Js.includes name imports then Ok v else Err (ReferenceError name).

(** [removeParticipant] of the second copy (lines 843-866): the text of
    the first, in a file that does not bind [arrayRemove].  The argument of
    [updateDoc] is evaluated before the call, so the error is thrown
    before anything is written; the [catch] logs it and throws it again. *)
Definition removeParticipant (st : Store) (roomId participantId : string)
  : result Error Store :=
  match rooms st !! roomId with
  | None => Err ChatRoomNotFound
  | Some room =>
      if nonGroupGuard room then Err NonGroupChat
      else
        arrayRemove ← resolve "arrayRemove" Firestore.arrayRemove;
        Ok (updateRoom roomId (set_participants (arrayRemove participantId)) st)
  end.

End Presence.

(** The store once a call has returned.  A call that throws has written
    nothing: in every method each [throw] comes before the first write. *)
Definition storeAfter {A} (st : Store) (r : result Error (A * Store)) : Store :=
  match r with
  | Ok (_, st') => st'
  | Err _ => st
  end.

(** *** Stores that sequential calls of the service produce *)

Inductive reachable : Store → Prop :=
  | reach_empty : reachable empty
  | reach_createPrivateChat st now newId u1 u2 :
      reachable st → rooms st !! newId = None →
      reachable (createPrivateChat now newId st u1 u2).2
  | reach_getOrCreateDirectChat st now newId u1 u2 :
      reachable st → rooms st !! newId = None →
      reachable (getOrCreateDirectChat now newId st u1 u2).2
  | reach_createGroupChat st now newId n adminId ps d st' :
      reachable st → rooms st !! newId = None →
      createGroupChat now newId st n adminId ps = Ok (d, st') → reachable st'
  | reach_addUserToGroup st chatId adminId userId st' :
      reachable st → addUserToGroup st chatId adminId userId = Ok st' →
      reachable st'
  | reach_removeParticipant st roomId p st' :
      reachable st → removeParticipant st roomId p = Ok st' → reachable st'
  | reach_updateGroupDetails st now roomId n d p st' :
      reachable st → updateGroupDetails now st roomId n d p = Ok st' →
      reachable st'
  | reach_updateRoomDisplayName st roomId userId dn st' :
      reachable st → updateRoomDisplayName st roomId userId dn = Ok st' →
      reachable st'
  | reach_updateUserPresence st chatId userId b st' :
      reachable st → updateUserPresence st chatId userId b = Ok st' →
      reachable st'
  | reach_sendMessage_simple st now newId roomId s t i st' :
      reachable st → Simple.sendMessage now newId st roomId s t = Ok (i, st') →
      reachable st'
  | reach_sendMessage_presence st now newId roomId s t m st' :
      reachable st → Presence.sendMessage now newId st roomId s t = Ok (m, st') →
      reachable st'
  | reach_markMessagesAsRead_simple st roomId u st' :
      reachable st → Simple.markMessagesAsRead st roomId u = Ok st' →
      reachable st'
  | reach_markMessagesAsRead_presence st roomId u st' :
      reachable st → Presence.markMessagesAsRead st roomId u = Ok st' →
      reachable st'.

(** The private rooms that list both [a] and [b]. *)
Definition isPrivateChatOf (a b : string) (r : ChatRoom) : Prop :=
  type r = Private ∧ a ∈ participants r ∧ b ∈ participants r.

(** At most one private room for the pair. *)
Definition atMostOnePrivate (st : Store) (a b : string) : Prop :=
  ∀ i j ri rj,
    rooms st !! i = Some ri → rooms st !! j = Some rj →
    isPrivateChatOf a b ri → isPrivateChatOf a b rj → i = j.

(** [getDirectChats]: the private rooms that list [userId], in the order
    of the store. *)
Definition getDirectChats (st : Store) (userId : string)
  : list (string * ChatRoom) :=
  List.filter (fun d => bool_decide (type d.2 = Private)
                        && Js.includes userId (participants d.2))
              (map_to_list (rooms st)).

End ChatService.

(** ** Profiles and friend requests *)

Module UserService.
Import Firestore.

(** [friendRequests]; a missing object or list reads as the empty list at
    every use in the service ([|| []], [?.]). *)
Record FriendRequests : Type := mkFriendRequests {
  sent : list string;
  received : list string;
}.

(** A document of the [users] collection.  Documents are only created by
    [upsertProfile], which always writes [id], [qrCode] and [lastSeen]. *)
Record UserProfile : Type := mkUserProfile {
  profileId : string;
  email : option string;
  username : option string;
  displayName : option string;
  photoURL : option string;
  status : option string;
  qrCode : string;
  lastSeen : Z;
  friends : list string;
  friendRequests : FriendRequests;
}.

(** The fields of [Partial<UserProfile>] that [upsertProfile] reads. *)
Record ProfileData : Type := mkProfileData {
  data_email : option string;
  data_username : option string;
  data_displayName : option string;
  data_photoURL : option string;
  data_status : option string;
}.

(** [userData] once its undefined entries are deleted: what is written. *)
Record UserData : Type := mkUserData {
  w_id : string;
  w_email : option string;
  w_username : option string;
  w_qrCode : string;
  w_lastSeen : Z;
  w_displayName : option string;
  w_photoURL : option string;
  w_status : option string;
}.

Inductive Error : Type :=
  | UserNotFound              (* "User not found" *)
  | AlreadyFriends            (* "Already friends" *)
  | RequestAlreadySent        (* "Friend request already sent" *)
  | RequestNotFound           (* "Friend request not found" *)
  | NoDocument.               (* the store rejects an update of a missing document *)

#[global] Instance Error_eq_dec : EqDecision Error.
Proof. solve_decision. Defined.

(** *** Profile directory *)

(** [isUsernameTaken]: the query [where("username", "==", username)] is
    not empty. *)
Definition isUsernameTaken (users : gmap string UserProfile) (u : string) : bool :=
  let snapshot :=
    List.filter (fun d => bool_decide (username d.2 = Some u)) (map_to_list users) in
  match snapshot with
  | [] => false
  | _ :: _ => true
  end.

(** The [while] loop of [upsertProfile], entered with [counter] and
    [tempUsername]; [fuel] bounds the number of tests of the condition and
    [None] means the bound was reached. *)
Fixpoint probe (users : gmap string UserProfile) (base : string) (fuel : nat)
  (counter : nat) (tempUsername : string) : option string :=
  match fuel with
  | O => None
  | S fuel' =>
      if isUsernameTaken users tempUsername
      then let counter := S counter in
           probe users base fuel' counter (base +:+ pretty counter)
      else Some tempUsername
  end.

(** The value of [tempUsername] when [counter] is [k]. *)
Definition candidate (base : string) (k : nat) : string :=
  match k with
  | O => base
  | S _ => base +:+ pretty k
  end.

(** [...(v && { k: v })]: the key is written only for a truthy value. *)
Definition whenTruthy (v : option string) : option string :=
  if Js.truthy (Js.of_opt v) then v else None.

(** [setDoc(userRef, userData, { merge: true })] on one document. *)
Definition mergeDoc (w : UserData) (old : option UserProfile) : UserProfile :=
  match old with
  | Some p =>
      mkUserProfile (w_id w)
        (from_option Some (email p) (w_email w))
        (from_option Some (username p) (w_username w))
        (from_option Some (displayName p) (w_displayName w))
        (from_option Some (photoURL p) (w_photoURL w))
        (from_option Some (status p) (w_status w))
        (w_qrCode w) (w_lastSeen w) (friends p) (friendRequests p)
  | None =>
      mkUserProfile (w_id w) (w_email w) (w_username w) (w_displayName w)
        (w_photoURL w) (w_status w) (w_qrCode w) (w_lastSeen w)
        [] (mkFriendRequests [] [])
  end.

(** The username [upsertProfile] settles on. *)
Definition deriveUsername (fuel : nat) (users : gmap string UserProfile)
  (data : ProfileData) : option (option string) :=
  match data_email data with
  | Some e =>
      if negb (Js.truthy (Js.of_opt (data_username data))) && Js.truthy (Js.Str e)
      then let base := Js.split_head "@" e in
           Some <$> probe users base fuel 0%nat base
      else Some (data_username data)
  | None => Some (data_username data)
  end.

(** [upsertProfile]; [toDataURL] is the QR encoder, [now] is [new Date()].
    [None]: the loop did not finish within [fuel] tests. *)
Definition upsertProfile (toDataURL : string → string) (now : Z) (fuel : nat)
  (users : gmap string UserProfile) (userId : string) (data : ProfileData)
  : option (UserData * gmap string UserProfile) :=
  let qrCode := toDataURL userId in
  u ← deriveUsername fuel users data;
  let userData :=
    mkUserData userId (data_email data) u qrCode now
      (whenTruthy (data_displayName data)) (whenTruthy (data_photoURL data))
      (whenTruthy (data_status data)) in
  Some (userData, <[userId := mergeDoc userData (users !! userId)]> users).

(** *** Relationship manager *)

(** [updateDoc(doc(db, "users", id), ..)] *)
Definition updateDoc (id : string) (f : UserProfile → UserProfile)
  (users : gmap string UserProfile) : result Error (gmap string UserProfile) :=
  match users !! id with
  | Some _ => Ok (alter f id users)
  | None => Err NoDocument
  end.

Definition set_sent (f : list string → list string) (p : UserProfile) :=
  mkUserProfile (profileId p) (email p) (username p) (displayName p) (photoURL p)
    (status p) (qrCode p) (lastSeen p) (friends p)
    (mkFriendRequests (f (sent (friendRequests p))) (received (friendRequests p))).

Definition set_received (f : list string → list string) (p : UserProfile) :=
  mkUserProfile (profileId p) (email p) (username p) (displayName p) (photoURL p)
    (status p) (qrCode p) (lastSeen p) (friends p)
    (mkFriendRequests (sent (friendRequests p)) (f (received (friendRequests p)))).

(** An update that writes the whole [friendRequests] object and [friends]. *)
Definition set_relations (fr : FriendRequests) (fs : list string) (p : UserProfile) :=
  mkUserProfile (profileId p) (email p) (username p) (displayName p) (photoURL p)
    (status p) (qrCode p) (lastSeen p) fs fr.

(** [ids.filter((id) => id !== x)] *)
Definition without (x : string) (ids : list string) : list string :=
  List.filter (fun id => negb (bool_decide (id = x))) ids.
#[global] Arguments without : simpl never.

(** [sendFriendRequest] *)
Definition sendFriendRequest (users : gmap string UserProfile)
  (senderId receiverId : string) : result Error (gmap string UserProfile) :=
  match users !! senderId, users !! receiverId with
  | Some senderData, Some receiverData =>
      if Js.includes receiverId (friends senderData)
         || Js.includes senderId (friends receiverData)
      then Err AlreadyFriends
      else if Js.includes receiverId (sent (friendRequests senderData))
              || Js.includes senderId (received (friendRequests receiverData))
      then Err RequestAlreadySent
      else
        users1 ← updateDoc senderId (set_sent (arrayUnion receiverId)) users;
        updateDoc receiverId (set_received (arrayUnion senderId)) users1
  | _, _ => Err UserNotFound
  end.

(** [acceptFriendRequest]: both documents are read first; each update is
    computed from what was read. *)
Definition acceptFriendRequest (users : gmap string UserProfile)
  (userId friendId : string) : result Error (gmap string UserProfile) :=
  match users !! userId, users !! friendId with
  | Some userData, Some friendData =>
      if negb (Js.includes friendId (received (friendRequests userData)))
      then Err RequestNotFound
      else
        users1 ← updateDoc userId
          (set_relations
             (mkFriendRequests (sent (friendRequests userData))
                (without friendId (received (friendRequests userData))))
             (friends userData ++ [friendId])) users;
        updateDoc friendId
          (set_relations
             (mkFriendRequests (without userId (sent (friendRequests friendData)))
                (received (friendRequests friendData)))
             (friends friendData ++ [userId])) users1
  | _, _ => Err UserNotFound
  end.

(** No id is at once a friend and a pending request of the profile. *)
Definition friendsDisjoint (p : UserProfile) : Prop :=
  ∀ u, u ∈ friends p →
       ¬ u ∈ sent (friendRequests p) ∧ ¬ u ∈ received (friendRequests p).

(** *** Lookups and searches *)

(** [getUserProfile] *)
Definition getUserProfile (users : gmap string UserProfile) (userId : string)
  : result Error UserProfile :=
  match users !! userId with
  | Some p => Ok p
  | None => Err UserNotFound
  end.

(** [getUserByQRCode] of the second service: the scanned text is the
    document id; the result carries that id as [uid]. *)
Definition getUserByQRCode (users : gmap string UserProfile)
  (scannedUserId : string) : option (string * UserProfile) :=
  match users !! scannedUserId with
  | Some p => Some (scannedUserId, p)
  | None => None
  end.

(** The documents a query [where(field, "==", q)] returns. *)
Definition whereEq (field : UserProfile → option string) (q : string)
  (users : gmap string UserProfile) : list (string * UserProfile) :=
  List.filter (fun d => bool_decide (field d.2 = Some q)) (map_to_list users).

(** [results.find((u) => u.uid === id)] is not [undefined]. *)
Definition found (id : string) (results : list (string * UserProfile)) : bool :=
  existsb (fun u => bool_decide (u.1 = id)) results.

(** [searchUsers] of the second service: exact match on the email, then
    exact match on the username, skipping ids already in [results]. *)
Definition searchUsers (users : gmap string UserProfile) (searchQuery : string)
  : list (string * UserProfile) :=
  let searchQuery := Js.toLowerCase (Js.trim searchQuery) in
  if negb (Js.truthy (Js.Str searchQuery)) then []
  else
    let results := whereEq email searchQuery users in
    foldl (fun results d => if negb (found d.1 results) then results ++ [d]
                            else results)
          results (whereEq username searchQuery users).

(** [searchUserByEmail] and [searchUserByUsername]: the first match. *)
Definition searchUserByEmail (users : gmap string UserProfile) (e : string)
  : option (string * UserProfile) :=
  head (whereEq email e users).

Definition searchUserByUsername (users : gmap string UserProfile) (u : string)
  : option (string * UserProfile) :=
  head (whereEq username u users).

(** *** Friends and requests as shown to the user *)

(** The summary [getFriends] and [getFriendRequests] build for one id. *)
Record FriendRequest : Type := mkFriendRequest {
  fr_id : string;
  fr_displayName : option string;
  fr_email : option string;
  fr_photoURL : option string;
}.

(** One round of the fan-out: [null] when the id has no document. *)
Definition summary (users : gmap string UserProfile) (id : string)
  : option FriendRequest :=
  match users !! id with
  | Some d => Some (mkFriendRequest id (displayName d) (email d) (photoURL d))
  | None => None
  end.

(** [getFriends]: the summaries of the friend ids that resolve. *)
Definition getFriends (users : gmap string UserProfile) (userId : string)
  : list FriendRequest :=
  match users !! userId with
  | None => []
  | Some userData => omap (summary users) (friends userData)
  end.

(** [getFriendRequests]: [(received, sent)]. *)
Definition getFriendRequests (users : gmap string UserProfile) (userId : string)
  : list FriendRequest * list FriendRequest :=
  match users !! userId with
  | None => ([], [])
  | Some userData =>
      (omap (summary users) (received (friendRequests userData)),
       omap (summary users) (sent (friendRequests userData)))
  end.

(** *** Withdrawing requests and friendships *)

(** The [type] argument of [removeFriendRequest]. *)
Inductive Direction : Type := DirSent | DirReceived.

(** An update that writes the whole [friendRequests] object. *)
Definition set_friendRequests (fr : FriendRequests) (p : UserProfile) :=
  mkUserProfile (profileId p) (email p) (username p) (displayName p) (photoURL p)
    (status p) (qrCode p) (lastSeen p) (friends p) fr.

Definition set_friends (f : list string → list string) (p : UserProfile) :=
  mkUserProfile (profileId p) (email p) (username p) (displayName p) (photoURL p)
    (status p) (qrCode p) (lastSeen p) (f (friends p)) (friendRequests p).

(** [removeFriendRequest]: both documents are read first; each update is
    computed from what was read. *)
Definition removeFriendRequest (users : gmap string UserProfile)
  (userId friendId : string) (type : Direction)
  : result Error (gmap string UserProfile) :=
  match users !! userId, users !! friendId with
  | Some userData, Some friendData =>
      match type with
      | DirSent =>
          users1 ← updateDoc userId
            (set_friendRequests
               (mkFriendRequests
                  (without friendId (sent (friendRequests userData)))
                  (received (friendRequests userData)))) users;
          updateDoc friendId
            (set_friendRequests
               (mkFriendRequests
                  (sent (friendRequests friendData))
                  (without userId (received (friendRequests friendData)))))
            users1
      | DirReceived =>
          users1 ← updateDoc userId
            (set_friendRequests
               (mkFriendRequests
                  (sent (friendRequests userData))
                  (without friendId (received (friendRequests userData)))))
            users;
          updateDoc friendId
            (set_friendRequests
               (mkFriendRequests
                  (without userId (sent (friendRequests friendData)))
                  (received (friendRequests friendData))))
            users1
      end
  | _, _ => Err UserNotFound
  end.

(** [removeFriend]: one batch of two updates; the store rejects it as a
    whole when one of the two documents does not exist. *)
Definition removeFriend (users : gmap string UserProfile)
  (userId friendId : string) : result Error (gmap string UserProfile) :=
  match users !! userId, users !! friendId with
  | Some _, Some _ =>
      Ok (alter (set_friends (arrayRemove userId)) friendId
            (alter (set_friends (arrayRemove friendId)) userId users))
  | _, _ => Err NoDocument
  end.

End UserService.

(** ** Vocabulary of the statements and sample stores *)

Import ChatService.
Import UserService.

(** A private chat between "alice" and "bob", stored under "r1". *)
Definition privateRoom : ChatRoom := newPrivateRoom 100 "alice" "bob".

Definition onePrivate : Store := mkStore {[ "r1" := privateRoom ]} ∅.

(** The group of the scenario: admin "g" with member "m1", stored under "g1". *)
Definition groupRoom : ChatRoom :=
  mkChatRoom Group (Some "team") ["g"; "m1"]
    (Some (mkLastMessage (Some "Group created") (Some 5) (Some "g") {[ "g" := true ]}))
    5 (Some "g") ∅ ∅ ∅ None None None.

Definition oneGroup : Store := mkStore {[ "g1" := groupRoom ]} ∅.

(** The pending edge seen from both of its ends. *)
Definition requested (senderData receiverData : UserProfile)
  (senderId receiverId : string) : Prop :=
  receiverId ∈ sent (friendRequests senderData)
  ∨ senderId ∈ received (friendRequests receiverData).

Definition befriended (senderData receiverData : UserProfile)
  (senderId receiverId : string) : Prop :=
  receiverId ∈ friends senderData ∨ senderId ∈ friends receiverData.

(** A profile without friends or requests, and two of them. *)
Definition blank (uid : string) : UserProfile :=
  mkUserProfile uid (Some (uid +:+ "@x.com")) (Some uid) None None None uid 0
    [] (mkFriendRequests [] []).

Definition strangers : gmap string UserProfile :=
  <[ "bob" := blank "bob" ]> {[ "alice" := blank "alice" ]}.

(** "bob" has already sent a request to "alice". *)
Definition pendingFromBob : gmap string UserProfile :=
  match sendFriendRequest strangers "bob" "alice" with
  | Ok users => users
  | Err _ => strangers
  end.

(** The read flag the presence-aware variant gives a participant. *)
Definition presentOrSender (active : gmap string bool) (S P : string) : bool :=
  bool_decide (active !! P = Some true) || bool_decide (P = S).

(** What the batch of a send leaves in the store: one more message
    document under the fresh id, the room's [lastMessage] equal to the
    snapshot of that message, one more unread message for every
    participant whose read flag is false, and nothing else touched in
    other rooms. *)
Definition committed (st st' : Store) (R newId : string)
  (room room' : ChatRoom) (m : Message) : Prop :=
  roomMessages st' R = <[newId := m]> (roomMessages st R) ∧
  (∀ j, j ≠ R → messages st' !! j = messages st !! j) ∧
  (∀ j, j ≠ R → rooms st' !! j = rooms st !! j) ∧
  rooms st' !! R = Some room' ∧
  lastMessage room' = Some (snapshot m) ∧
  participants room' = participants room ∧
  (∀ P, readBy m !! P = Some false →
        unreadCount room' !! P = Some (default 0 (unreadCount room !! P) + 1)) ∧
  (∀ P, readBy m !! P = None → unreadCount room' !! P = unreadCount room !! P).

(** "alice" opens a chat with "bob"; "bob" writes twice. *)
Definition aliceAndBob : Store := (createPrivateChat 1 "r1" empty "alice" "bob").2.

Definition twoFromBob : Store :=
  let st1 := storeAfter aliceAndBob
               (Simple.sendMessage 2 "m1" aliceAndBob "r1" "bob" "hello") in
  storeAfter st1 (Simple.sendMessage 3 "m2" st1 "r1" "bob" "are you there").

(** A message once [readBy.<X>] is set on it if its entry for [X] is
    [false]; a message without an entry for [X] is not touched. *)
Definition markedRead (X : string) (m : Message) : Message :=
  markRead (Simple.unreadQuery X) X m.

(** What [markMessagesAsRead] achieves, for either variant [mark]. *)
Definition marksAsRead (mark : Store → string → string → result ChatService.Error Store)
  (st : Store) (R X : string) : Prop :=
  ∃ st' room' lm,
    mark st R X = Ok st' ∧
    (∀ i, roomMessages st' R !! i = markedRead X <$> roomMessages st R !! i) ∧
    (∀ i m, roomMessages st R !! i = Some m → readBy m !! X = Some false →
       ∃ m', roomMessages st' R !! i = Some m' ∧ readBy m' !! X = Some true) ∧
    (∀ i m, roomMessages st R !! i = Some m → readBy m !! X ≠ Some false →
       roomMessages st' R !! i = Some m) ∧
    rooms st' !! R = Some room' ∧
    unreadCount room' !! X = Some 0 ∧
    lastMessage room' = Some lm ∧ lm_readBy lm !! X = Some true ∧
    mark st' R X = Ok st'.

(** The admin "g" writes to the group, then adds "m2". *)
Definition lateJoiner : Store :=
  let st1 := storeAfter oneGroup (Simple.sendMessage 6 "m1" oneGroup "g1" "g" "hello") in
  match addUserToGroup st1 "g1" "g" "m2" with
  | Ok st2 => st2
  | Err _ => st1
  end.

(** "alice" opens a chat with herself in an empty store. *)
Definition selfChat : Store := (getOrCreateDirectChat 1 "r1" empty "alice" "alice").2.

(** The invariant of the [chatRooms] collection: a private room has no
    admin, and two private rooms never share two distinct participants. *)
Definition wellFormed (rs : gmap string ChatRoom) : Prop :=
  (∀ i r, rs !! i = Some r → type r = Private → groupAdmin r = None) ∧
  (∀ a b i j ri rj, a ≠ b →
     rs !! i = Some ri → rs !! j = Some rj →
     isPrivateChatOf a b ri → isPrivateChatOf a b rj → i = j).

(** [r'] is [r] with the same type and admin and, if private, no new
    participant. *)
Definition narrows (r r' : ChatRoom) : Prop :=
  type r' = type r ∧ groupAdmin r' = groupAdmin r ∧
  (type r = Private → ∀ x, x ∈ participants r' → x ∈ participants r).

(** The usernames in use. *)
Definition usernamesOf (users : gmap string UserProfile) : list string :=
  omap (fun d : string * UserProfile => username d.2) (map_to_list users).

(** The username one call settles on and stores. *)
Definition derives (toDataURL : string → string) (now : Z) (fuel : nat)
  (users : gmap string UserProfile) (userId : string) (data : ProfileData)
  (base : string) (k : nat) (users' : gmap string UserProfile) : Prop :=
  ∃ w p,
    upsertProfile toDataURL now fuel users userId data = Some (w, users') ∧
    w_username w = Some (candidate base k) ∧
    users' !! userId = Some p ∧ username p = Some (candidate base k) ∧
    (∀ j, j ≠ userId → users' !! j = users !! j).


(** A directory in which "ann" is already in use. *)
Definition annTaken : gmap string UserProfile := {[ "u0" := blank "ann" ]}.

Definition annData : ProfileData :=
  mkProfileData (Some "ann@x.com") None None None None.

Definition qr (uid : string) : string := "qr:" +:+ uid.

(** The room [createGroupChat] stores. *)
Definition newGroupRoom (now : Z) (groupName adminId : string)
  (participantIds : list string) : ChatRoom :=
  mkChatRoom Group (Some (Js.trim groupName))
    (dedup_first [] (adminId :: participantIds))
    (Some (mkLastMessage (Some "Group created") (Some now) (Some adminId)
             {[adminId := true]}))
    now (Some adminId) ∅ ∅ ∅ None None None.

(** What the first [sendMessage] writes to the room document. *)
Definition simpleSendUpdate (now : Z) (S txt : string) (r : ChatRoom) : ChatRoom :=
  set_unreadCount
    (Firestore.applyNumWrites (Simple.unreadWrites S (participants r)))
    (set_lastMessage
       (fun _ => Some (snapshot (mkMessage txt S now
                                   (Simple.computeReadBy S (participants r))))) r).

(** What the presence-aware [sendMessage] writes to the room document. *)
Definition presenceSendUpdate (now : Z) (S txt : string) (r : ChatRoom) : ChatRoom :=
  let rw := Presence.computeReadBy (activeUsers r) S (participants r) in
  set_unreadCount (Firestore.applyNumWrites rw.2)
    (set_lastMessage
       (fun _ => Some (snapshot (mkMessage (Js.trim txt) S now rw.1))) r).

(** One successful call as seen from the room document it updates. *)
Inductive roomStep : ChatRoom → ChatRoom → Prop :=
  | step_add r adminId userId :
      groupAdmin r = Some adminId → userId ∉ participants r →
      roomStep r (set_participants (Firestore.arrayUnion userId) r)
  | step_remove r participantId :
      roomStep r (set_participants (Firestore.arrayRemove participantId) r)
  | step_details r n d p now :
      roomStep r (set_details n d p now r)
  | step_displayName r userId dn :
      type r = Private → userId ∈ participants r →
      roomStep r (set_displayNames (insert userId dn) r)
  | step_presence r userId b :
      roomStep r (set_activeUsers (insert userId b) r)
  | step_send_simple r now S txt :
      roomStep r (simpleSendUpdate now S txt r)
  | step_send_presence r now S txt :
      roomStep r (presenceSendUpdate now S txt r)
  | step_mark_simple r userId :
      roomStep r (resetUnread userId r)
  | step_mark_presence r userId :
      roomStep r (set_activeUsers (insert userId true) (resetUnread userId r)).

(** The room documents that sequential calls produce. *)
Inductive roomReachable : ChatRoom → Prop :=
  | room_private now a b : roomReachable (newPrivateRoom now a b)
  | room_group now groupName adminId participantIds :
      Js.trim groupName ≠ "" →
      roomReachable (newGroupRoom now groupName adminId participantIds)
  | room_step r r' : roomReachable r → roomStep r r' → roomReachable r'.

(** No two profiles carry the same username. *)
Definition usernamesUnique (users : gmap string UserProfile) : Prop :=
  ∀ i j p q u,
    users !! i = Some p → users !! j = Some q →
    username p = Some u → username q = Some u → i = j.

(** A string that [toLowerCase] leaves as it is. *)
Definition isLower (s : string) : Prop := Js.toLowerCase s = s.

(** "alice" has sent a request to "bob". *)
Definition pendingFromAlice : gmap string UserProfile :=
  match sendFriendRequest strangers "alice" "bob" with
  | Ok users => users
  | Err _ => strangers
  end.

(** "alice" and "bob" after a request from "alice" that "bob" accepted. *)
Definition friendsNow : gmap string UserProfile :=
  match sendFriendRequest strangers "alice" "bob" with
  | Ok users1 =>
      match acceptFriendRequest users1 "bob" "alice" with
      | Ok users2 => users2
      | Err _ => users1
      end
  | Err _ => strangers
  end.

(** "alice" has "bob" and the deleted "carol" among her friends. *)
Definition danglingFriend : gmap string UserProfile :=
  <[ "alice" := set_friends (fun _ => ["carol"; "bob"]) (blank "alice") ]> strangers.

(** A directory with a stored username in capitals. *)
Definition mixedCase : gmap string UserProfile :=
  <[ "u9" := mkUserProfile "u9" (Some "Bob@X.com") (Some "Bob") None None None
               "qr:u9" 0 [] (mkFriendRequests [] []) ]> strangers.

(** The loop of [searchUsers] over the username matches. *)
Definition mergeMatches (results l : list (string * UserProfile))
  : list (string * UserProfile) :=
  foldl (fun results d => if negb (found d.1 results) then results ++ [d]
                          else results) results l.

(** The store after [createGroupChat] for "team" in an empty store. *)
Definition teamCreated : Store :=
  match createGroupChat 5 "g1" ChatService.empty " team " "g" ["m1"; "g"; "m1"] with
  | Ok (_, st) => st
  | Err _ => ChatService.empty
  end.

(** ** Properties of the room registry *)

(** Membership after [arrayRemove] and [arrayUnion]. *)
Lemma elem_of_arrayRemove (x y : string) (l : list string) :
  y ∈ Firestore.arrayRemove x l ↔ y ∈ l ∧ y ≠ x.
Proof.
  unfold Firestore.arrayRemove.
  rewrite !list_elem_of_In, filter_In, negb_true_iff, bool_decide_eq_false.
  reflexivity.
Qed.

Lemma elem_of_arrayUnion (x y : string) (l : list string) :
  y ∈ Firestore.arrayUnion x l ↔ y ∈ l ∨ y = x.
Proof.
  unfold Firestore.arrayUnion. case_bool_decide as Hx.
  - split; [auto | intros [?| ->]; done].
  - rewrite elem_of_app, list_elem_of_singleton. reflexivity.
Qed.

Lemma arrayUnion_fresh (x : string) (l : list string) :
  x ∉ l → Firestore.arrayUnion x l = l ++ [x].
Proof. intros Hx. unfold Firestore.arrayUnion. by rewrite bool_decide_eq_false_2. Qed.

(** The condition [!room.type === 'group'] compares a boolean with a
    string: it is false whatever the room. *)
Lemma nonGroupGuard_false (room : ChatRoom) : nonGroupGuard room = false.
Proof. reflexivity. Qed.

(** A room document after an update of an existing room. *)
Lemma updateRoom_lookup (st : Store) (id : string) f (room : ChatRoom) :
  rooms st !! id = Some room →
  rooms (updateRoom id f st) !! id = Some (f room).
Proof. intros H. cbn. by rewrite lookup_alter_eq, H. Qed.

Lemma updateRoom_lookup_ne (st : Store) (id j : string) f :
  id ≠ j → rooms (updateRoom id f st) !! j = rooms st !! j.
Proof. intros H. cbn. by rewrite lookup_alter_ne. Qed.

(** X29. For every existing room, whatever its type, [removeParticipant]
    of the first copy never fails with the non-group error: the negated
    type is a boolean, which is never strictly equal to the string 'group',
    so every room passes the type guard.  The call succeeds and removes the
    participant from the room's [participants]; the type and the other
    rooms and all messages are untouched. *)
Theorem removeParticipant_any_type (st : Store) (roomId participantId : string)
  (room : ChatRoom) :
  rooms st !! roomId = Some room →
  nonGroupGuard room = false ∧
  removeParticipant st roomId participantId ≠ Err NonGroupChat ∧
  ∃ st' room',
    removeParticipant st roomId participantId = Ok st' ∧
    rooms st' !! roomId = Some room' ∧
    participants room' = Firestore.arrayRemove participantId (participants room) ∧
    (participantId ∉ participants room') ∧
    (∀ q, q ≠ participantId → q ∈ participants room' ↔ q ∈ participants room) ∧
    type room' = type room ∧
    (∀ j, j ≠ roomId → rooms st' !! j = rooms st !! j) ∧
    messages st' = messages st.
Proof.
  intros Hroom. unfold removeParticipant. rewrite Hroom, nonGroupGuard_false.
  split; [done|]. split; [done|].
  eexists _, _. split; [done|].
  split; [by apply updateRoom_lookup|]. cbn.
  split; [done|]. split.
  { rewrite elem_of_arrayRemove. tauto. }
  split.
  { intros q Hq. rewrite elem_of_arrayRemove. tauto. }
  split; [done|]. split; [|done].
  intros j Hj. by rewrite lookup_alter_ne.
Qed.

Lemma removeParticipant_any_type_witness :
  type privateRoom = Private ∧
  removeParticipant onePrivate "r1" "bob" ≠ Err NonGroupChat.
Proof.
  split; [reflexivity|].
  apply (removeParticipant_any_type onePrivate "r1" "bob" privateRoom).
  reflexivity.
Defined.

(** In the second copy every room passes the type guard as well, and the
    call then stops at the unbound [arrayRemove]: it never succeeds. *)
Lemma presence_removeParticipant_fails (st : Store) (roomId participantId : string) :
  Presence.removeParticipant st roomId participantId =
    match rooms st !! roomId with
    | None => Err ChatRoomNotFound
    | Some _ => Err (ReferenceError "arrayRemove")
    end.
Proof.
  unfold Presence.removeParticipant.
  destruct (rooms st !! roomId) as [room|]; [|done].
  by rewrite nonGroupGuard_false.
Qed.

(** C7, at the private room of "alice" and "bob".  In both copies the room
    passes the type guard, so the non-group error is not raised.  The
    first copy then removes "bob".  The second copy, whose file does not
    import [arrayRemove], fails with a reference error instead and "bob"
    stays a participant. *)
Theorem presence_removeParticipant_unbound :
  rooms onePrivate !! "r1" = Some privateRoom ∧
  type privateRoom = Private ∧
  participants privateRoom = ["alice"; "bob"] ∧
  Js.includes "arrayRemove" Presence.imports = false ∧
  Presence.removeParticipant onePrivate "r1" "bob" ≠ Err NonGroupChat ∧
  Presence.removeParticipant onePrivate "r1" "bob"
    = Err (ReferenceError "arrayRemove") ∧
  (∃ st' room',
     removeParticipant onePrivate "r1" "bob" = Ok st' ∧
     rooms st' !! "r1" = Some room' ∧ participants room' = ["alice"]).
Proof.
  split; [reflexivity|]. split; [reflexivity|]. split; [reflexivity|].
  split; [by vm_compute|].
  rewrite presence_removeParticipant_fails.
  split; [by vm_compute|]. split; [by vm_compute|].
  eexists _, _. split; [reflexivity|]. split; [by vm_compute|]. by vm_compute.
Qed.

(** C8. [addUserToGroup] fails with the not-found error when the room does
    not exist, with the admin-only error when the acting user is not the
    stored [groupAdmin], and with the already-member error when the user
    is already a participant (the checks are made in this order); only
    when none of these holds does it succeed, and then the user is added
    to [participants] and every other field of the room, every other room
    and every message is unchanged. *)
Theorem addUserToGroup_spec (st : Store) (chatId adminId userId : string) :
  (rooms st !! chatId = None →
     addUserToGroup st chatId adminId userId = Err ChatRoomNotFound) ∧
  (∀ room, rooms st !! chatId = Some room → groupAdmin room ≠ Some adminId →
     addUserToGroup st chatId adminId userId = Err OnlyGroupAdmin) ∧
  (∀ room, rooms st !! chatId = Some room → groupAdmin room = Some adminId →
     userId ∈ participants room →
     addUserToGroup st chatId adminId userId = Err AlreadyInGroup) ∧
  (∀ room, rooms st !! chatId = Some room → groupAdmin room = Some adminId →
     userId ∉ participants room →
     addUserToGroup st chatId adminId userId =
       Ok (mkStore
             (<[chatId := set_participants (fun ps => ps ++ [userId]) room]> (rooms st))
             (messages st)) ∧
     ∃ st' room',
       addUserToGroup st chatId adminId userId = Ok st' ∧
       rooms st' !! chatId = Some room' ∧
       userId ∈ participants room' ∧
       participants room' = participants room ++ [userId] ∧
       (∀ q, q ∈ participants room → q ∈ participants room') ∧
       type room' = type room ∧ name room' = name room ∧
       lastMessage room' = lastMessage room ∧
       createdAt room' = createdAt room ∧
       groupAdmin room' = groupAdmin room ∧
       unreadCount room' = unreadCount room ∧
       activeUsers room' = activeUsers room ∧
       displayNames room' = displayNames room ∧
       description room' = description room ∧
       ChatService.photoURL room' = ChatService.photoURL room ∧
       updatedAt room' = updatedAt room ∧
       (∀ j, j ≠ chatId → rooms st' !! j = rooms st !! j) ∧
       messages st' = messages st) ∧
  (is_ok (addUserToGroup st chatId adminId userId) = true ↔
     ∃ room, rooms st !! chatId = Some room ∧ groupAdmin room = Some adminId ∧
             userId ∉ participants room).
Proof.
  assert (Hadm : ∀ room, Js.strict_eq (Js.of_opt (groupAdmin room)) (Js.Str adminId)
                         = bool_decide (groupAdmin room = Some adminId)).
  { intros room. destruct (groupAdmin room) as [g|]; cbn; [|done].
    apply bool_decide_ext. split; congruence. }
  unfold addUserToGroup, Js.includes.
  split; [by intros ->|]. split.
  { intros room -> Hne. by rewrite Hadm, bool_decide_eq_false_2. }
  split.
  { intros room -> He Hin.
    by rewrite Hadm, bool_decide_eq_true_2, bool_decide_eq_true_2. }
  split.
  { intros room Hr He Hnin. rewrite Hr.
    rewrite Hadm, bool_decide_eq_true_2, bool_decide_eq_false_2 by done. cbn.
    split.
    { f_equal. unfold updateRoom. f_equal. apply map_eq. intros j.
      destruct (decide (chatId = j)) as [<-|Hj].
      - rewrite lookup_alter_eq, lookup_insert_eq, Hr. cbn.
        unfold set_participants. cbn. by rewrite arrayUnion_fresh.
      - by rewrite lookup_alter_ne, lookup_insert_ne. }
    eexists _, _. split; [done|].
    split; [by apply updateRoom_lookup|]. cbn.
    rewrite arrayUnion_fresh by done.
    split; [apply elem_of_app; right; apply list_elem_of_singleton; done|].
    split; [done|].
    split; [intros q Hq; apply elem_of_app; by left|].
    do 11 (split; [done|]).
    split; [|done]. intros j Hj. by rewrite lookup_alter_ne. }
  destruct (rooms st !! chatId) as [room|] eqn:Hr; cbn.
  2: { split; [done|]. intros (? & ? & _); done. }
  rewrite Hadm.
  destruct (decide (groupAdmin room = Some adminId)) as [He|He].
  2: { rewrite bool_decide_eq_false_2 by done. cbn. split; [done|].
       intros (r & Hr' & He' & _). congruence. }
  rewrite bool_decide_eq_true_2 by done. cbn.
  destruct (decide (userId ∈ participants room)) as [Hin|Hin].
  - rewrite bool_decide_eq_true_2 by done. cbn. split; [done|].
    intros (r & Hr' & _ & Hn). by simplify_eq.
  - rewrite bool_decide_eq_false_2 by done. cbn. split; [|done].
    intros _. by exists room.
Qed.

Lemma addUserToGroup_spec_witness :
  (∃ st' room',
     addUserToGroup oneGroup "g1" "g" "m2" = Ok st' ∧
     rooms st' !! "g1" = Some room' ∧
     participants room' = ["g"; "m1"; "m2"] ∧
     groupAdmin room' = Some "g" ∧ type room' = Group) ∧
  addUserToGroup oneGroup "g1" "m1" "m2" = Err OnlyGroupAdmin ∧
  addUserToGroup oneGroup "g1" "g" "m1" = Err AlreadyInGroup ∧
  addUserToGroup oneGroup "g2" "g" "m2" = Err ChatRoomNotFound.
Proof.
  destruct (addUserToGroup_spec oneGroup "g1" "g" "m2") as (_ & _ & _ & Hok & _).
  destruct (addUserToGroup_spec oneGroup "g1" "m1" "m2") as (_ & Hadm & _).
  destruct (addUserToGroup_spec oneGroup "g1" "g" "m1") as (_ & _ & Hmem & _).
  destruct (addUserToGroup_spec oneGroup "g2" "g" "m2") as (Hnf & _).
  split; [|split; [|split]].
  - destruct (Hok groupRoom) as
      (_ & st' & room' & Hop & Hroom & _ & Hps & _ & Hty & _ & _ & _ & Hga & _);
      [reflexivity | reflexivity | |].
    + intros Hin. apply list_elem_of_In in Hin. cbn in Hin.
      repeat destruct Hin as [Hin|Hin]; discriminate || done.
    + exists st', room'. split; [exact Hop|]. split; [exact Hroom|].
      split; [exact Hps|]. split; [exact Hga | exact Hty].
  - apply (Hadm groupRoom); [reflexivity | discriminate].
  - apply (Hmem groupRoom); [reflexivity | reflexivity |].
    apply list_elem_of_In. cbn. auto.
  - apply Hnf. reflexivity.
Defined.

(** ** Properties of the relationship manager *)

Lemma without_spec (x y : string) (l : list string) :
  y ∈ without x l ↔ y ∈ l ∧ y ≠ x.
Proof.
  unfold without.
  rewrite !list_elem_of_In, filter_In, negb_true_iff, bool_decide_eq_false.
  reflexivity.
Qed.

Lemma without_absent (x : string) (l : list string) : x ∉ l → without x l = l.
Proof.
  unfold without. induction l as [|y l IH]; intros Hx; [done|]. cbn.
  apply not_elem_of_cons in Hx as [Hxy Hl].
  rewrite bool_decide_eq_false_2 by done. cbn. by rewrite IH.
Qed.

(** Removing an id that was appended to a list it was not in. *)
Lemma without_snoc (x : string) (l : list string) :
  x ∉ l → without x (l ++ [x]) = l.
Proof.
  intros Hx. unfold without. rewrite List.filter_app. cbn.
  rewrite bool_decide_eq_true_2 by done. cbn.
  rewrite app_nil_r. by apply without_absent.
Qed.

(** [updateDoc] on a document that exists. *)
Lemma updateDoc_Some (users : gmap string UserProfile) id f p :
  users !! id = Some p → updateDoc id f users = Ok (alter f id users).
Proof. intros H. unfold updateDoc. by rewrite H. Qed.

(** A request between two existing profiles that are neither friends
    nor already linked by this request is written at both ends. *)
Lemma sendFriendRequest_fresh (users : gmap string UserProfile)
  (senderId receiverId : string) (senderData receiverData : UserProfile) :
  users !! senderId = Some senderData →
  users !! receiverId = Some receiverData →
  ¬ befriended senderData receiverData senderId receiverId →
  ¬ requested senderData receiverData senderId receiverId →
  sendFriendRequest users senderId receiverId =
    Ok (alter (set_received (fun l => l ++ [senderId])) receiverId
          (alter (set_sent (fun l => l ++ [receiverId])) senderId users)).
Proof.
  intros Hs Hr Hf Hq. unfold befriended, requested in *.
  unfold sendFriendRequest, Js.includes. rewrite Hs, Hr.
  rewrite <- !bool_decide_or.
  rewrite !bool_decide_eq_false_2 by done.
  rewrite (updateDoc_Some _ _ _ _ Hs). cbn.
  assert (Hr1 : ∃ p, alter (set_sent (Firestore.arrayUnion receiverId)) senderId
                       users !! receiverId = Some p
                     ∧ received (friendRequests p) = received (friendRequests receiverData)).
  { destruct (decide (senderId = receiverId)) as [->|Hne].
    - rewrite lookup_alter_eq, Hr. eexists; split; [done|]. done.
    - rewrite lookup_alter_ne by done. eauto. }
  destruct Hr1 as (p & Hp & Hrec).
  rewrite (updateDoc_Some _ _ _ _ Hp). f_equal.
  rewrite (alter_ext (set_received (Firestore.arrayUnion senderId))
                     (set_received (fun l => l ++ [senderId]))).
  2: { intros p' Hp'. rewrite Hp in Hp'. injection Hp' as <-.
       unfold set_received. rewrite arrayUnion_fresh; [done|].
       rewrite Hrec. tauto. }
  f_equal. apply alter_ext. intros p' Hp'. rewrite Hs in Hp'. injection Hp' as <-.
  unfold set_sent. rewrite arrayUnion_fresh; [done|]. tauto.
Qed.

(** C5, as the code has it.  For two existing profiles,
    [sendFriendRequest] fails with the already-friends error if either
    profile's [friends] contains the other; otherwise it fails with the
    already-requested error if the request from the sender to the receiver
    is recorded at either end (the receiver in the sender's [sent] or the
    sender in the receiver's [received]); a pending request in the
    opposite direction is not looked at.  Only otherwise does it append
    the receiver to the sender's [sent] and then the sender to the
    receiver's [received]. *)
Theorem sendFriendRequest_spec (users : gmap string UserProfile)
  (senderId receiverId : string) (senderData receiverData : UserProfile) :
  users !! senderId = Some senderData →
  users !! receiverId = Some receiverData →
  (befriended senderData receiverData senderId receiverId →
     sendFriendRequest users senderId receiverId = Err AlreadyFriends) ∧
  (¬ befriended senderData receiverData senderId receiverId →
   requested senderData receiverData senderId receiverId →
     sendFriendRequest users senderId receiverId = Err RequestAlreadySent) ∧
  (¬ befriended senderData receiverData senderId receiverId →
   ¬ requested senderData receiverData senderId receiverId →
     sendFriendRequest users senderId receiverId =
       Ok (alter (set_received (fun l => l ++ [senderId])) receiverId
             (alter (set_sent (fun l => l ++ [receiverId])) senderId users)) ∧
     ∃ users' s' r',
       sendFriendRequest users senderId receiverId = Ok users' ∧
       users' !! senderId = Some s' ∧ users' !! receiverId = Some r' ∧
       receiverId ∈ sent (friendRequests s') ∧
       senderId ∈ received (friendRequests r') ∧
       sent (friendRequests s') = sent (friendRequests senderData) ++ [receiverId] ∧
       received (friendRequests r')
         = received (friendRequests receiverData) ++ [senderId] ∧
       (senderId ≠ receiverId →
          received (friendRequests s') = received (friendRequests senderData) ∧
          sent (friendRequests r') = sent (friendRequests receiverData)) ∧
       friends s' = friends senderData ∧ friends r' = friends receiverData ∧
       (∀ j, j ≠ senderId → j ≠ receiverId → users' !! j = users !! j)).
Proof.
  intros Hs Hr. split; [|split].
  - unfold befriended, sendFriendRequest, Js.includes. rewrite Hs, Hr.
    intros Hf. rewrite <- bool_decide_or, bool_decide_eq_true_2; done.
  - unfold befriended, requested, sendFriendRequest, Js.includes. rewrite Hs, Hr.
    intros Hf Hq. rewrite <- !bool_decide_or.
    rewrite bool_decide_eq_false_2, bool_decide_eq_true_2; done.
  - intros Hf Hq.
    pose proof (sendFriendRequest_fresh users _ _ senderData receiverData
                  Hs Hr Hf Hq) as Hop.
    split; [exact Hop|]. rewrite Hop.
    assert (Hlast : ∀ (x : string) l, x ∈ l ++ [x]).
    { intros x l. apply elem_of_app. right. by apply list_elem_of_singleton. }
    destruct (decide (senderId = receiverId)) as [->|Hne].
    + assert (receiverData = senderData) as -> by congruence.
      eexists _, _, _. split; [done|].
      rewrite lookup_alter_eq, lookup_alter_eq, Hs. cbn.
      split; [done|]. split; [done|].
      split; [apply Hlast|]. split; [apply Hlast|].
      split; [done|]. split; [done|]. split; [done|].
      split; [done|]. split; [done|].
      intros j Hj _. by rewrite !lookup_alter_ne.
    + eexists _, _, _. split; [done|].
      split.
      { rewrite lookup_alter_ne, lookup_alter_eq, Hs by done. done. }
      split.
      { rewrite lookup_alter_eq, lookup_alter_ne, Hr by done. done. }
      cbn.
      split; [apply Hlast|]. split; [apply Hlast|].
      split; [done|]. split; [done|]. split; [done|].
      split; [done|]. split; [done|].
      intros j Hj1 Hj2. by rewrite !lookup_alter_ne.
Qed.

Lemma sendFriendRequest_spec_witness :
  ∃ users' s' r',
    sendFriendRequest strangers "alice" "bob" = Ok users' ∧
    users' !! "alice" = Some s' ∧ users' !! "bob" = Some r' ∧
    sent (friendRequests s') = ["bob"] ∧ received (friendRequests r') = ["alice"] ∧
    received (friendRequests s') = [] ∧ sent (friendRequests r') = [].
Proof.
  destruct (sendFriendRequest_spec strangers "alice" "bob" (blank "alice")
              (blank "bob")) as (_ & _ & Hok); [reflexivity | reflexivity |].
  destruct Hok as (_ & users' & s' & r' & Hop & Hs & Hr & _ & _ & Hsent & Hrec
                   & Hother & _).
  - intros [H|H]; apply list_elem_of_In in H; destruct H.
  - intros [H|H]; apply list_elem_of_In in H; destruct H.
  - destruct Hother as [Hrs Hsr]; [discriminate|].
    exists users', s', r'. split; [exact Hop|]. split; [exact Hs|].
    split; [exact Hr|]. split; [exact Hsent|]. split; [exact Hrec|].
    split; [exact Hrs | exact Hsr].
Defined.

(** C5 as stated fails: with a pending request from the receiver to the
    sender, the call does not fail with the already-requested error; it
    succeeds and records a second request in the other direction. *)
Lemma sendFriendRequest_reverse_edge_accepted :
  (∃ pb pa, pendingFromBob !! "bob" = Some pb ∧ pendingFromBob !! "alice" = Some pa
            ∧ "alice" ∈ sent (friendRequests pb)
            ∧ "bob" ∈ received (friendRequests pa))
  ∧ sendFriendRequest pendingFromBob "alice" "bob" ≠ Err RequestAlreadySent
  ∧ is_ok (sendFriendRequest pendingFromBob "alice" "bob") = true.
Proof.
  split; [|split].
  - eexists _, _. split; [vm_compute; reflexivity|].
    split; [vm_compute; reflexivity|].
    split; apply list_elem_of_In; cbn; auto.
  - vm_compute. discriminate.
  - vm_compute. reflexivity.
Qed.

(** C6. Two distinct existing profiles without any edge between them:
    [sendFriendRequest A B] followed by [acceptFriendRequest B A] both
    succeed; afterwards each profile has the other as its last friend, the
    edge is in none of the four request lists (each list is what it was
    before the request), no other profile changed, and a profile whose
    friends were disjoint from its pending requests still has them so. *)
Theorem friend_lifecycle (users : gmap string UserProfile) (A B : string)
  (pa pb : UserProfile) :
  A ≠ B →
  users !! A = Some pa → users !! B = Some pb →
  B ∉ friends pa → A ∉ friends pb →
  B ∉ sent (friendRequests pa) → B ∉ received (friendRequests pa) →
  A ∉ sent (friendRequests pb) → A ∉ received (friendRequests pb) →
  ∃ users1 users2 pa' pb',
    sendFriendRequest users A B = Ok users1 ∧
    acceptFriendRequest users1 B A = Ok users2 ∧
    users2 !! A = Some pa' ∧ users2 !! B = Some pb' ∧
    B ∈ friends pa' ∧ A ∈ friends pb' ∧
    friends pa' = friends pa ++ [B] ∧ friends pb' = friends pb ++ [A] ∧
    (B ∉ sent (friendRequests pa')) ∧ (B ∉ received (friendRequests pa')) ∧
    (A ∉ sent (friendRequests pb')) ∧ (A ∉ received (friendRequests pb')) ∧
    friendRequests pa' = friendRequests pa ∧
    friendRequests pb' = friendRequests pb ∧
    (friendsDisjoint pa → friendsDisjoint pa') ∧
    (friendsDisjoint pb → friendsDisjoint pb') ∧
    (∀ j, j ≠ A → j ≠ B → users2 !! j = users !! j).
Proof.
  intros Hne Ha Hb HfA HfB HsA HrA HsB HrB.
  set (users1 := alter (set_received (fun l => l ++ [A])) B
                   (alter (set_sent (fun l => l ++ [B])) A users)).
  assert (Hsend : sendFriendRequest users A B = Ok users1).
  { apply (sendFriendRequest_fresh users A B pa pb Ha Hb);
      unfold befriended, requested; tauto. }
  assert (H1A : users1 !! A = Some (set_sent (fun l => l ++ [B]) pa)).
  { unfold users1. rewrite lookup_alter_ne, lookup_alter_eq, Ha by done. done. }
  assert (H1B : users1 !! B = Some (set_received (fun l => l ++ [A]) pb)).
  { unfold users1. rewrite lookup_alter_eq, lookup_alter_ne, Hb by done. done. }
  set (users2 :=
         alter (set_relations (friendRequests pa) (friends pa ++ [B])) A
           (alter (set_relations (friendRequests pb) (friends pb ++ [A])) B users1)).
  assert (Hacc : acceptFriendRequest users1 B A = Ok users2).
  { unfold acceptFriendRequest, Js.includes. rewrite H1A, H1B. cbn.
    rewrite bool_decide_eq_true_2
      by (rewrite elem_of_app, list_elem_of_singleton; auto).
    cbn. rewrite (updateDoc_Some _ _ _ _ H1B). cbn.
    rewrite (updateDoc_Some _ _ _ (set_sent (fun l => l ++ [B]) pa))
      by (by rewrite lookup_alter_ne).
    rewrite !without_snoc by done.
    unfold users2. by destruct pa as [? ? ? ? ? ? ? ? ? []], pb as [? ? ? ? ? ? ? ? ? []]. }
  exists users1, users2,
    (set_relations (friendRequests pa) (friends pa ++ [B])
       (set_sent (fun l => l ++ [B]) pa)),
    (set_relations (friendRequests pb) (friends pb ++ [A])
       (set_received (fun l => l ++ [A]) pb)).
  split; [done|]. split; [done|].
  split. { unfold users2. by rewrite lookup_alter_eq, lookup_alter_ne, H1A. }
  split. { unfold users2. by rewrite lookup_alter_ne, lookup_alter_eq, H1B. }
  cbn.
  assert (Hdisj : ∀ p x, x ∉ sent (friendRequests p) → x ∉ received (friendRequests p) →
            friendsDisjoint p →
            ∀ q, friendRequests q = friendRequests p → friends q = friends p ++ [x] →
                 friendsDisjoint q).
  { intros p x Hxs Hxr Hp q Hq Hfq u. rewrite Hq, Hfq.
    intros [Hu| ->%list_elem_of_singleton]%elem_of_app; [by apply Hp | done]. }
  split. { rewrite elem_of_app, list_elem_of_singleton; auto. }
  split. { rewrite elem_of_app, list_elem_of_singleton; auto. }
  do 8 (split; [done|]).
  split. { intros Hp. by apply (Hdisj pa B). }
  split. { intros Hp. by apply (Hdisj pb A). }
  intros j HjA HjB. unfold users2, users1. by rewrite !lookup_alter_ne.
Qed.

Lemma friend_lifecycle_witness :
  ∃ users1 users2 pa' pb',
    sendFriendRequest strangers "alice" "bob" = Ok users1 ∧
    acceptFriendRequest users1 "bob" "alice" = Ok users2 ∧
    users2 !! "alice" = Some pa' ∧ users2 !! "bob" = Some pb' ∧
    "bob" ∈ friends pa' ∧ "alice" ∈ friends pb' ∧
    friends pa' = friends (blank "alice") ++ ["bob"] ∧
    friends pb' = friends (blank "bob") ++ ["alice"] ∧
    ("bob" ∉ sent (friendRequests pa')) ∧ ("bob" ∉ received (friendRequests pa')) ∧
    ("alice" ∉ sent (friendRequests pb')) ∧ ("alice" ∉ received (friendRequests pb')) ∧
    friendRequests pa' = friendRequests (blank "alice") ∧
    friendRequests pb' = friendRequests (blank "bob") ∧
    (friendsDisjoint (blank "alice") → friendsDisjoint pa') ∧
    (friendsDisjoint (blank "bob") → friendsDisjoint pb') ∧
    (∀ j, j ≠ "alice" → j ≠ "bob" → users2 !! j = strangers !! j).
Proof.
  apply (friend_lifecycle strangers "alice" "bob" (blank "alice") (blank "bob"));
    first [ discriminate | reflexivity | apply not_elem_of_nil ].
Defined.

(** Without the caller's check that the two ids differ, a request to
    oneself followed by its acceptance leaves the id in [received]: the
    second update is computed from the document as read before the first. *)
Lemma self_request_leaves_edge :
  ∃ users1 users2 p,
    sendFriendRequest strangers "alice" "alice" = Ok users1 ∧
    acceptFriendRequest users1 "alice" "alice" = Ok users2 ∧
    users2 !! "alice" = Some p ∧
    friends p = ["alice"] ∧ received (friendRequests p) = ["alice"].
Proof. eexists _, _, _. repeat split; vm_compute; reflexivity. Qed.

(** ** Properties of the message ledger *)

(** The read flags and counter writes computed by the loops over the
    participants, key by key. *)
Lemma simple_readBy_fold (S P : string) (ps : list string) (acc : gmap string bool) :
  foldl (fun acc p => <[p := bool_decide (p = S)]> acc) acc ps !! P =
  if bool_decide (P ∈ ps) then Some (bool_decide (P = S)) else acc !! P.
Proof.
  revert acc. induction ps as [|a ps IH]; intros acc; cbn; [done|].
  rewrite IH. destruct (decide (P ∈ ps)) as [Hin|Hin].
  - rewrite (bool_decide_eq_true_2 (P ∈ ps)) by done.
    by rewrite (bool_decide_eq_true_2 (P ∈ a :: ps)) by (by right).
  - rewrite (bool_decide_eq_false_2 (P ∈ ps)) by done.
    destruct (decide (P = a)) as [->|Hne].
    + rewrite lookup_insert_eq.
      by rewrite (bool_decide_eq_true_2 (a ∈ a :: ps)) by (by left).
    + rewrite lookup_insert_ne by done.
      by rewrite (bool_decide_eq_false_2 (P ∈ a :: ps))
        by (rewrite elem_of_cons; tauto).
Qed.

Lemma simple_readBy_lookup (S P : string) (ps : list string) :
  Simple.computeReadBy S ps !! P =
  if bool_decide (P ∈ ps) then Some (bool_decide (P = S)) else None.
Proof. unfold Simple.computeReadBy. by rewrite simple_readBy_fold, lookup_empty. Qed.

Lemma simple_writes_fold (S P : string) (ps : list string)
  (acc : gmap string Firestore.numWrite) :
  foldl (fun acc p => if negb (bool_decide (p = S))
                      then <[p := Firestore.Increment 1]> acc else acc) acc ps !! P =
  if bool_decide (P ∈ ps) && negb (bool_decide (P = S))
  then Some (Firestore.Increment 1) else acc !! P.
Proof.
  revert acc. induction ps as [|a ps IH]; intros acc; cbn; [done|].
  rewrite IH. destruct (decide (P = S)) as [->|HPS].
  - rewrite (bool_decide_eq_true_2 (S = S)) by done. rewrite !andb_false_r.
    destruct (decide (a = S)) as [->|HaS].
    + by rewrite bool_decide_eq_true_2.
    + rewrite (bool_decide_eq_false_2 (a = S)) by done. cbn.
      by rewrite lookup_insert_ne.
  - rewrite (bool_decide_eq_false_2 (P = S)) by done. rewrite !andb_true_r.
    destruct (decide (P ∈ ps)) as [Hin|Hin].
    + rewrite (bool_decide_eq_true_2 (P ∈ ps)) by done.
      by rewrite (bool_decide_eq_true_2 (P ∈ a :: ps)) by (by right).
    + rewrite (bool_decide_eq_false_2 (P ∈ ps)) by done.
      destruct (decide (P = a)) as [->|Hne].
      * rewrite (bool_decide_eq_false_2 (a = S)) by done. cbn.
        rewrite lookup_insert_eq.
        by rewrite (bool_decide_eq_true_2 (a ∈ a :: ps)) by (by left).
      * rewrite (bool_decide_eq_false_2 (P ∈ a :: ps))
          by (rewrite elem_of_cons; tauto).
        destruct (negb (bool_decide (a = S))); [by rewrite lookup_insert_ne | done].
Qed.

Lemma simple_writes_lookup (S P : string) (ps : list string) :
  Simple.unreadWrites S ps !! P =
  if bool_decide (P ∈ ps) && negb (bool_decide (P = S))
  then Some (Firestore.Increment 1) else None.
Proof. unfold Simple.unreadWrites. by rewrite simple_writes_fold, lookup_empty. Qed.

Lemma presence_fold (active : gmap string bool) (S P : string) (ps : list string)
  (acc : gmap string bool * gmap string Firestore.numWrite) :
  (foldl (Presence.visit active S) acc ps).1 !! P =
    (if bool_decide (P ∈ ps) then Some (presentOrSender active S P) else acc.1 !! P)
  ∧ (foldl (Presence.visit active S) acc ps).2 !! P =
    (if bool_decide (P ∈ ps)
     then Some (if negb (presentOrSender active S P)
                then Firestore.Increment 1 else Firestore.SetNum 0)
     else acc.2 !! P).
Proof.
  revert acc. induction ps as [|a ps IH]; intros acc; cbn; [done|].
  destruct (IH (Presence.visit active S acc a)) as [-> ->].
  destruct (decide (P ∈ ps)) as [Hin|Hin].
  - rewrite (bool_decide_eq_true_2 (P ∈ ps)) by done.
    by rewrite (bool_decide_eq_true_2 (P ∈ a :: ps)) by (by right).
  - rewrite (bool_decide_eq_false_2 (P ∈ ps)) by done.
    destruct (decide (P = a)) as [->|Hne].
    + rewrite (bool_decide_eq_true_2 (a ∈ a :: ps)) by (by left).
      unfold Presence.visit; cbn. by rewrite !lookup_insert_eq.
    + rewrite (bool_decide_eq_false_2 (P ∈ a :: ps))
        by (rewrite elem_of_cons; tauto).
      unfold Presence.visit; cbn. by rewrite !lookup_insert_ne.
Qed.

Lemma applyNumWrites_lookup (ws : gmap string Firestore.numWrite)
  (m : gmap string Z) (k : string) :
  Firestore.applyNumWrites ws m !! k =
  match ws !! k with
  | Some w => Some (Firestore.writeNum w (m !! k))
  | None => m !! k
  end.
Proof.
  unfold Firestore.applyNumWrites. rewrite lookup_merge.
  by destruct (ws !! k), (m !! k).
Qed.

(** Reading the messages of a room after one message was written. *)
Lemma roomMessages_setMessage (st : Store) (R i : string) (m : Message) :
  roomMessages (setMessage R i m st) R = <[i := m]> (roomMessages st R).
Proof. unfold roomMessages, setMessage. cbn. by rewrite lookup_insert_eq. Qed.

Lemma roomMessages_updateRoom (st : Store) (id R : string) f :
  roomMessages (updateRoom id f st) R = roomMessages st R.
Proof. reflexivity. Qed.

Lemma committed_intro (st : Store) (R newId : string) (room : ChatRoom)
  (m : Message) (ws : gmap string Firestore.numWrite) :
  rooms st !! R = Some room →
  (∀ P, readBy m !! P = Some false → ws !! P = Some (Firestore.Increment 1)) →
  (∀ P, readBy m !! P = None → ws !! P = None) →
  committed st
    (updateRoom R
       (fun r => set_unreadCount (Firestore.applyNumWrites ws)
                   (set_lastMessage (fun _ => Some (snapshot m)) r))
       (setMessage R newId m st))
    R newId room
    (set_unreadCount (Firestore.applyNumWrites ws)
       (set_lastMessage (fun _ => Some (snapshot m)) room)) m.
Proof.
  intros Hroom Hinc Hnone. unfold committed.
  split. { apply roomMessages_setMessage. }
  split. { intros j Hj. cbn. by rewrite lookup_insert_ne. }
  split. { intros j Hj. cbn. by rewrite lookup_alter_ne. }
  split. { cbn. by rewrite lookup_alter_eq, Hroom. }
  split; [done|]. split; [done|]. cbn. split.
  - intros P HP. by rewrite applyNumWrites_lookup, (Hinc P HP).
  - intros P HP. by rewrite applyNumWrites_lookup, (Hnone P HP).
Qed.

(** C1, as the code has it.  In an existing room, for a sender that is a
    participant and a fresh message id, a successful [sendMessage] adds
    exactly one message document; its [readBy] has an entry for the participants
    only, [true] for the sender and, for any other participant, [false]
    (first variant) or [true] exactly when the participant is flagged
    active in the room's [activeUsers] (presence-aware variant).  The
    same batch sets [lastMessage] to the snapshot of the message and adds
    exactly 1 to [unreadCount] of every participant whose read flag is
    false.  For a participant whose read flag is true, the sender among
    them, the presence-aware variant writes 0 to [unreadCount] and the
    first variant leaves [unreadCount] as it was. *)
Theorem sendMessage_commit (now : Z) (newId : string) (st : Store)
  (R S txt : string) (room : ChatRoom) :
  rooms st !! R = Some room →
  S ∈ participants room →
  roomMessages st R !! newId = None →
  (∀ i st', Simple.sendMessage now newId st R S txt = Ok (i, st') →
     i = newId ∧
     ∃ m room',
       text m = txt ∧ senderId m = S ∧ timestamp m = now ∧
       readBy m !! S = Some true ∧
       (∀ P, P ∈ participants room → P ≠ S → readBy m !! P = Some false) ∧
       (∀ P, P ∉ participants room → readBy m !! P = None) ∧
       committed st st' R newId room room' m ∧
       size (roomMessages st' R) = (size (roomMessages st R) + 1)%nat ∧
       (∀ P, readBy m !! P = Some true →
             unreadCount room' !! P = unreadCount room !! P))
  ∧
  (∀ i m st', Presence.sendMessage now newId st R S txt = Ok ((i, m), st') →
     i = newId ∧
     text m = Js.trim txt ∧ senderId m = S ∧ timestamp m = now ∧
     readBy m !! S = Some true ∧
     (∀ P, P ∈ participants room → P ≠ S →
           readBy m !! P = Some (bool_decide (activeUsers room !! P = Some true))) ∧
     (∀ P, P ∉ participants room → readBy m !! P = None) ∧
     ∃ room',
       committed st st' R newId room room' m ∧
       size (roomMessages st' R) = (size (roomMessages st R) + 1)%nat ∧
       (∀ P, readBy m !! P = Some true → unreadCount room' !! P = Some 0) ∧
       unreadCount room' !! S = Some 0).
Proof.
  intros Hroom HS Hfresh. split.
  - intros i st'. unfold Simple.sendMessage. rewrite Hroom.
    intros [= <- <-]. split; [done|].
    eexists (mkMessage txt S now (Simple.computeReadBy S (participants room))), _.
    cbn.
    assert (HrS : Simple.computeReadBy S (participants room) !! S = Some true).
    { by rewrite simple_readBy_lookup, !bool_decide_eq_true_2. }
    assert (Hrother : ∀ P, P ∈ participants room → P ≠ S →
              Simple.computeReadBy S (participants room) !! P = Some false).
    { intros P HP HPS.
      by rewrite simple_readBy_lookup, bool_decide_eq_true_2, bool_decide_eq_false_2. }
    assert (Hrnone : ∀ P, P ∉ participants room →
              Simple.computeReadBy S (participants room) !! P = None).
    { intros P HP. by rewrite simple_readBy_lookup, bool_decide_eq_false_2. }
    do 6 (split; [done|]). split; [|split].
    + apply committed_intro; [done | |]; cbn; intros P;
        rewrite simple_readBy_lookup, simple_writes_lookup;
        repeat case_bool_decide; cbn; congruence.
    + rewrite roomMessages_updateRoom, roomMessages_setMessage.
      rewrite map_size_insert_None by done. lia.
    + cbn. intros P. rewrite applyNumWrites_lookup.
      rewrite simple_readBy_lookup, simple_writes_lookup.
      repeat case_bool_decide; cbn; congruence.
  - intros i m st'. unfold Presence.sendMessage.
    destruct (_ || _ || _); [done|]. rewrite Hroom.
    unfold Presence.computeReadBy.
    pose proof (fun P => presence_fold (activeUsers room) S P (participants room) (∅, ∅))
      as Hfold.
    destruct (foldl _ _ _) as [rb ws]. cbn in Hfold.
    intros [= <- <- <-]. split; [done|]. cbn.
    assert (Hrb : ∀ P, rb !! P =
              if bool_decide (P ∈ participants room)
              then Some (presentOrSender (activeUsers room) S P) else None).
    { intros P. destruct (Hfold P) as [-> _]. by rewrite lookup_empty. }
    assert (Hws : ∀ P, ws !! P =
              if bool_decide (P ∈ participants room)
              then Some (if negb (presentOrSender (activeUsers room) S P)
                         then Firestore.Increment 1 else Firestore.SetNum 0)
              else None).
    { intros P. destruct (Hfold P) as [_ ->]. by rewrite lookup_empty. }
    do 3 (split; [done|]).
    split.
    { rewrite Hrb, bool_decide_eq_true_2 by done. unfold presentOrSender.
      by rewrite (bool_decide_eq_true_2 (S = S)), orb_true_r. }
    split.
    { intros P HP HPS. rewrite Hrb, bool_decide_eq_true_2 by done.
      unfold presentOrSender.
      by rewrite (bool_decide_eq_false_2 (P = S)), orb_false_r. }
    split.
    { intros P HP. by rewrite Hrb, bool_decide_eq_false_2. }
    eexists. split; [|split; [|split]].
    + apply committed_intro; [done | |]; cbn; intros P; rewrite Hrb, Hws;
        case_bool_decide; [|done| |done];
        destruct (presentOrSender _ _ _); cbn; congruence.
    + rewrite roomMessages_updateRoom, roomMessages_setMessage.
      rewrite map_size_insert_None by done. lia.
    + cbn. intros P. rewrite applyNumWrites_lookup, Hrb, Hws.
      case_bool_decide; [|done].
      destruct (presentOrSender _ _ _); cbn; congruence.
    + cbn. rewrite applyNumWrites_lookup, Hws, bool_decide_eq_true_2 by done.
      unfold presentOrSender.
      by rewrite (bool_decide_eq_true_2 (S = S)), orb_true_r.
Qed.

(** The first variant writes no counter but those it increments: the
    sender's [unreadCount] is what it was. *)
Lemma simple_sendMessage_sender_count (now : Z) (newId : string) (st : Store)
  (R S txt : string) (room : ChatRoom) (i : string) (st' : Store) :
  rooms st !! R = Some room →
  Simple.sendMessage now newId st R S txt = Ok (i, st') →
  ∃ room', rooms st' !! R = Some room' ∧
           unreadCount room' !! S = unreadCount room !! S.
Proof.
  intros Hroom. unfold Simple.sendMessage. rewrite Hroom. intros [= <- <-].
  eexists. split. { cbn. by rewrite lookup_alter_eq, Hroom. }
  cbn. rewrite applyNumWrites_lookup, simple_writes_lookup.
  by rewrite (bool_decide_eq_true_2 (S = S)), andb_false_r.
Qed.

Lemma sendMessage_commit_witness :
  ∃ st' m,
    Presence.sendMessage 200 "m1" onePrivate "r1" "alice" " hi " = Ok (("m1", m), st')
    ∧ text m = "hi"
    ∧ readBy m !! "alice" = Some true
    ∧ readBy m !! "bob" = Some false
    ∧ getUnreadCount st' "r1" "alice" = 0
    ∧ getUnreadCount st' "r1" "bob" = 2.
Proof.
  destruct (sendMessage_commit 200 "m1" onePrivate "r1" "alice" " hi " privateRoom)
    as [_ H].
  - reflexivity.
  - apply list_elem_of_In; cbn; tauto.
  - reflexivity.
  - eexists _, _. split; [reflexivity|].
    edestruct H as (_ & Ht & _ & _ & HS & Hother & _); [reflexivity|].
    split; [exact Ht|]. split; [exact HS|].
    split; [|split; reflexivity].
    apply Hother; [apply list_elem_of_In; cbn; tauto | discriminate].
Defined.

(** C1 as stated fails for the first variant: "alice" has two unread
    messages, sends one herself, and her counter is still 2, not 0. *)
Lemma simple_sendMessage_no_reset :
  ∃ room i st' room',
    rooms twoFromBob !! "r1" = Some room
    ∧ "alice" ∈ participants room
    ∧ roomMessages twoFromBob "r1" !! "m3" = None
    ∧ Simple.sendMessage 4 "m3" twoFromBob "r1" "alice" "yes" = Ok (i, st')
    ∧ rooms st' !! "r1" = Some room'
    ∧ unreadCount room' !! "alice" = Some 2
    ∧ unreadCount room' !! "alice" ≠ Some 0.
Proof.
  eexists _, _, _, _.
  split; [vm_compute; reflexivity|].
  split; [apply list_elem_of_In; cbn; tauto|].
  split; [vm_compute; reflexivity|].
  split; [reflexivity|].
  split; [vm_compute; reflexivity|].
  split; [vm_compute; reflexivity|].
  vm_compute. discriminate.
Qed.

(** The empty string is the only falsy string. *)
Lemma truthy_Str (s : string) : Js.truthy (Js.Str s) = negb (bool_decide (s = "")).
Proof. reflexivity. Qed.

(** C4, as the code has it.  The presence-aware [sendMessage] fails
    exactly when the chat id or the sender id is empty, the text is empty
    after trimming, or the room does not exist.  The first variant fails
    when the room does not exist and succeeds whenever the room exists and
    the text is not empty after trimming.  A failed call of either leaves
    the store as it was: no message is added and the room is unchanged. *)
Theorem sendMessage_failure (now : Z) (newId : string) (st : Store)
  (R S txt : string) :
  (is_err (Presence.sendMessage now newId st R S txt) = true ↔
     R = "" ∨ S = "" ∨ Js.trim txt = "" ∨ rooms st !! R = None) ∧
  (rooms st !! R = None →
     Simple.sendMessage now newId st R S txt = Err ChatRoomNotFound) ∧
  (is_Some (rooms st !! R) → Js.trim txt ≠ "" →
     is_ok (Simple.sendMessage now newId st R S txt) = true) ∧
  (is_err (Presence.sendMessage now newId st R S txt) = true →
     storeAfter st (Presence.sendMessage now newId st R S txt) = st) ∧
  (is_err (Simple.sendMessage now newId st R S txt) = true →
     storeAfter st (Simple.sendMessage now newId st R S txt) = st).
Proof.
  split; [|split; [|split; [|split]]].
  - unfold Presence.sendMessage. rewrite !truthy_Str, !negb_involutive.
    destruct (decide (R = "")) as [HR|HR];
      [rewrite (bool_decide_eq_true_2 _ HR); cbn; tauto|].
    destruct (decide (S = "")) as [HS|HS];
      [rewrite (bool_decide_eq_true_2 _ HS), orb_true_r; cbn; tauto|].
    destruct (decide (Js.trim txt = "")) as [HT|HT];
      [rewrite (bool_decide_eq_true_2 _ HT), orb_true_r; cbn; tauto|].
    rewrite !bool_decide_eq_false_2 by done. cbn.
    destruct (rooms st !! R) as [room|]; [|cbn; tauto].
    destruct (Presence.computeReadBy _ _ _). cbn.
    split; [done|]. intros [?|[?|[?|?]]]; done.
  - unfold Simple.sendMessage. by intros ->.
  - unfold Simple.sendMessage. by intros [room ->] _.
  - destruct (Presence.sendMessage _ _ _ _ _ _) as [[? ?]|]; [done|]. done.
  - destruct (Simple.sendMessage _ _ _ _ _ _) as [[? ?]|]; [done|]. done.
Qed.

Lemma sendMessage_failure_witness :
  is_err (Presence.sendMessage 200 "m1" onePrivate "r1" "alice" "   ") = true ∧
  is_err (Presence.sendMessage 200 "m1" onePrivate "r2" "alice" "hi") = true ∧
  is_ok (Presence.sendMessage 200 "m1" onePrivate "r1" "alice" " hi ") = true ∧
  is_ok (Simple.sendMessage 200 "m1" onePrivate "r1" "alice" "hi") = true.
Proof.
  destruct (sendMessage_failure 200 "m1" onePrivate "r1" "alice" "   ") as ([_ H1] & _).
  destruct (sendMessage_failure 200 "m1" onePrivate "r2" "alice" "hi") as ([_ H2] & _).
  destruct (sendMessage_failure 200 "m1" onePrivate "r1" "alice" "hi") as (_ & _ & H4 & _).
  split; [|split; [|split]].
  - apply H1. right; right; left. reflexivity.
  - apply H2. right; right; right. reflexivity.
  - reflexivity.
  - apply H4; [by eexists | discriminate].
Defined.

(** C4 as stated fails for the presence-aware variant: the room exists and
    the text is not empty after trimming, yet a call with an empty sender
    id is rejected by the guard on the required fields. *)
Lemma presence_sendMessage_rejects_empty_sender :
  is_Some (rooms onePrivate !! "r1")
  ∧ Js.trim "hi" ≠ ""
  ∧ Presence.sendMessage 200 "m1" onePrivate "r1" "" "hi" = Err FieldsRequired.
Proof. split; [by eexists|]. split; [discriminate | reflexivity]. Qed.

(** The first variant has no check of the text at all. *)
Lemma simple_sendMessage_fails_iff (now : Z) (newId : string) (st : Store)
  (R S txt : string) :
  is_err (Simple.sendMessage now newId st R S txt) = true ↔ rooms st !! R = None.
Proof. unfold Simple.sendMessage. by destruct (rooms st !! R). Qed.

(** On boolean entries the two queries select the same messages. *)
Lemma unreadQuery_agree (X : string) (m : Message) :
  Presence.unreadQuery X m = Simple.unreadQuery X m.
Proof.
  unfold Presence.unreadQuery, Simple.unreadQuery.
  destruct (readBy m !! X) as [[]|]; reflexivity.
Qed.

Lemma markedRead_entry (X : string) (m : Message) :
  readBy (markedRead X m) !! X ≠ Some false.
Proof.
  unfold markedRead, markRead, Simple.unreadQuery. case_bool_decide as H; cbn.
  - by rewrite lookup_insert_eq.
  - done.
Qed.

Lemma markedRead_idemp (X : string) (m : Message) :
  markedRead X (markedRead X m) = markedRead X m.
Proof.
  pose proof (markedRead_entry X m) as H.
  unfold markedRead at 1. unfold markRead, Simple.unreadQuery.
  by rewrite bool_decide_eq_false_2.
Qed.

Lemma markLastRead_idemp (X : string) (lm : option LastMessage) :
  markLastRead X (markLastRead X lm) = markLastRead X lm.
Proof.
  destruct lm as [l|]; cbn.
  - by rewrite insert_insert_eq.
  - by rewrite insert_singleton_eq.
Qed.

Lemma resetUnread_idemp (X : string) (r : ChatRoom) :
  resetUnread X (resetUnread X r) = resetUnread X r.
Proof.
  unfold resetUnread, set_lastMessage, set_unreadCount. cbn.
  by rewrite markLastRead_idemp, insert_insert_eq.
Qed.

Lemma alter_idemp {A} (f : A → A) (k : string) (m : gmap string A) :
  (∀ x, f (f x) = f x) → alter f k (alter f k m) = alter f k m.
Proof.
  intros Hf. rewrite alter_alter_eq. apply alter_ext. intros x _. apply Hf.
Qed.

Lemma roomMessages_alter (rs : gmap string ChatRoom)
  (ms : gmap string (gmap string Message)) (R : string) f :
  roomMessages (mkStore rs (alter (fmap f) R ms)) R = f <$> roomMessages (mkStore rs ms) R.
Proof.
  unfold roomMessages. cbn. rewrite lookup_alter_eq.
  destruct (ms !! R); cbn; [done|]. by rewrite fmap_empty.
Qed.

Lemma markedRead_cases (X : string) (m : Message) :
  (readBy m !! X = Some false →
     readBy (markedRead X m) !! X = Some true) ∧
  (readBy m !! X ≠ Some false → markedRead X m = m).
Proof.
  unfold markedRead, markRead, Simple.unreadQuery. split; intros H.
  - rewrite bool_decide_eq_true_2 by done. cbn. by rewrite lookup_insert_eq.
  - by rewrite bool_decide_eq_false_2.
Qed.

Lemma markLastRead_entry (X : string) (lm : option LastMessage) :
  ∃ l, markLastRead X lm = Some l ∧ lm_readBy l !! X = Some true.
Proof.
  destruct lm as [l|]; cbn; eexists; (split; [done|]); cbn.
  - by rewrite lookup_insert_eq.
  - by rewrite lookup_singleton_eq.
Qed.

(** C2, as the code has it.  In an existing room, [markMessagesAsRead]
    (either variant) succeeds; it sets [readBy.<X>] to [true] on every
    message of the room whose entry for [X] is [false] and leaves every
    other message as it is, those without an entry for [X] included; the
    same batch sets [unreadCount.<X>] to 0 and [lastMessage.readBy.<X>] to
    [true]; and a second call right after the first changes nothing. *)
Theorem markMessagesAsRead_spec (st : Store) (R X : string) (room : ChatRoom) :
  rooms st !! R = Some room →
  marksAsRead Simple.markMessagesAsRead st R X ∧
  marksAsRead Presence.markMessagesAsRead st R X.
Proof.
  intros Hroom.
  assert (Hmsgs : ∀ rs i,
    roomMessages (mkStore rs (alter (fmap (markedRead X)) R (messages st))) R !! i
    = markedRead X <$> roomMessages st R !! i).
  { intros rs i. rewrite roomMessages_alter, lookup_fmap. by destruct st. }
  assert (Hstep : ∀ mark (f : ChatRoom → ChatRoom),
    (∀ st0, mark st0 R X =
        match rooms st0 !! R with
        | None => Err ChatService.NoDocument
        | Some _ => Ok (mkStore (alter f R (rooms st0))
                          (alter (fmap (markedRead X)) R (messages st0)))
        end) →
    (∀ r, f (f r) = f r) →
    (∀ r, unreadCount (f r) !! X = Some 0) →
    (∀ r, lastMessage (f r) = markLastRead X (lastMessage r)) →
    marksAsRead mark st R X).
  { intros mark f Hmark Hidem Hcount Hlast.
    destruct (markLastRead_entry X (lastMessage room)) as (l & Hl & HlX).
    exists (mkStore (alter f R (rooms st))
              (alter (fmap (markedRead X)) R (messages st))), (f room), l.
    split. { by rewrite Hmark, Hroom. }
    split. { apply Hmsgs. }
    split. { intros i m Hi Hm. rewrite Hmsgs, Hi. cbn. eexists. split; [done|].
             by apply markedRead_cases. }
    split. { intros i m Hi Hm. rewrite Hmsgs, Hi. cbn. f_equal.
             by apply markedRead_cases. }
    split. { cbn. by rewrite lookup_alter_eq, Hroom. }
    split. { apply Hcount. }
    split. { by rewrite Hlast. }
    split. { done. }
    rewrite Hmark. cbn. rewrite lookup_alter_eq, Hroom. cbn. f_equal. f_equal.
    - by apply alter_idemp.
    - apply alter_idemp. intros ms. rewrite <- map_fmap_compose.
      apply map_fmap_ext. intros i m _. apply markedRead_idemp. }
  split.
  - apply (Hstep _ (resetUnread X)).
    + done.
    + apply resetUnread_idemp.
    + intros r. cbn. by rewrite lookup_insert_eq.
    + done.
  - apply (Hstep _ (fun r => set_activeUsers (insert X true) (resetUnread X r))).
    + intros st0. unfold Presence.markMessagesAsRead, markedRead, markRead.
      destruct (rooms st0 !! R); [|done]. do 2 f_equal. apply alter_ext.
      intros ms _. apply map_fmap_ext. intros i m _.
      by rewrite unreadQuery_agree.
    + intros r. unfold set_activeUsers, resetUnread, set_lastMessage, set_unreadCount.
      cbn. by rewrite markLastRead_idemp, !insert_insert_eq.
    + intros r. cbn. by rewrite lookup_insert_eq.
    + done.
Qed.

Lemma markMessagesAsRead_spec_witness :
  marksAsRead Simple.markMessagesAsRead twoFromBob "r1" "alice" ∧
  marksAsRead Presence.markMessagesAsRead twoFromBob "r1" "alice".
Proof.
  eapply (markMessagesAsRead_spec twoFromBob "r1" "alice").
  vm_compute. reflexivity.
Defined.

(** C2 as stated fails on a message in which the user has no entry: "m2"
    joined after the message was sent, the query on [readBy.m2 == false]
    does not select it, and it still has no entry afterwards. *)
Lemma simple_mark_skips_missing_entry :
  ∃ room m st' m',
    rooms lateJoiner !! "g1" = Some room
    ∧ "m2" ∈ participants room
    ∧ roomMessages lateJoiner "g1" !! "m1" = Some m
    ∧ readBy m !! "m2" ≠ Some true
    ∧ Simple.markMessagesAsRead lateJoiner "g1" "m2" = Ok st'
    ∧ roomMessages st' "g1" !! "m1" = Some m'
    ∧ readBy m' !! "m2" = None
    ∧ readBy m' !! "m2" ≠ Some true.
Proof.
  eexists _, _, _, _.
  split; [vm_compute; reflexivity|].
  split; [apply list_elem_of_In; cbn; tauto|].
  split; [vm_compute; reflexivity|].
  split; [vm_compute; discriminate|].
  split; [reflexivity|].
  split; [vm_compute; reflexivity|].
  split; [vm_compute; reflexivity|].
  vm_compute. discriminate.
Qed.

(** ** Direct chats: lookup before creation *)

Lemma isPrivateChatOf_test (a b : string) (r : ChatRoom) :
  isPrivateChatOf a b r ↔
  bool_decide (type r = Private) && Js.includes a (participants r) = true
  ∧ Js.includes b (participants r) = true.
Proof.
  unfold isPrivateChatOf, Js.includes.
  rewrite andb_true_iff, !bool_decide_eq_true. tauto.
Qed.

(** A chat that is found is a stored private room that lists both users. *)
Lemma findExistingPrivateChat_Some (st : Store) (a b i : string) (r : ChatRoom) :
  findExistingPrivateChat st a b = Some (i, r) →
  rooms st !! i = Some r ∧ isPrivateChatOf a b r.
Proof.
  unfold findExistingPrivateChat. intros H.
  apply find_some in H as [Hin Hb]. apply filter_In in Hin as [Hin Ha].
  apply list_elem_of_In, elem_of_map_to_list in Hin. cbn in *.
  split; [done|]. by apply isPrivateChatOf_test.
Qed.

(** Nothing is found only when no stored private room lists both users. *)
Lemma findExistingPrivateChat_None (st : Store) (a b : string) :
  findExistingPrivateChat st a b = None →
  ∀ i r, rooms st !! i = Some r → ¬ isPrivateChatOf a b r.
Proof.
  unfold findExistingPrivateChat. intros H i r Hi Hr.
  apply isPrivateChatOf_test in Hr as [Ha Hb].
  assert (Hn : Js.includes b (participants (i, r).2) = false).
  { apply (find_none _ _ H (i, r)). apply filter_In. split; [|exact Ha].
    apply list_elem_of_In, elem_of_map_to_list. exact Hi. }
  cbn in Hn. congruence.
Qed.

Lemma findExistingPrivateChat_is_Some (st : Store) (a b i : string) (r : ChatRoom) :
  rooms st !! i = Some r → isPrivateChatOf a b r →
  ∃ j rj, findExistingPrivateChat st a b = Some (j, rj).
Proof.
  intros Hi Hr. destruct (findExistingPrivateChat st a b) as [[j rj]|] eqn:Hf.
  - eauto.
  - exfalso. by eapply findExistingPrivateChat_None.
Qed.

(** C10, as the code has it.  If [A] participates in some private room,
    [findExistingPrivateChat A A] returns a stored private room in which
    [A] participates, because the membership test for the second user is
    met by [A] itself; [getOrCreateDirectChat A A] then returns that room
    and creates nothing.  The room is a chat between [A] and another user
    whenever its two participants differ. *)
Theorem findExistingPrivateChat_self (st : Store) (A i : string) (r : ChatRoom) :
  rooms st !! i = Some r → type r = Private → A ∈ participants r →
  ∃ j rj,
    findExistingPrivateChat st A A = Some (j, rj) ∧
    rooms st !! j = Some rj ∧ type rj = Private ∧ A ∈ participants rj ∧
    (∀ now newId, getOrCreateDirectChat now newId st A A = ((j, rj), st)) ∧
    (∀ x y, participants rj = [x; y] → x ≠ y → ∃ B, B ≠ A ∧ B ∈ participants rj).
Proof.
  intros Hi Ht HA.
  destruct (findExistingPrivateChat_is_Some st A A i r Hi) as (j & rj & Hf);
    [done|].
  exists j, rj. split; [done|].
  destruct (findExistingPrivateChat_Some _ _ _ _ _ Hf) as (Hj & Htj & HAj & _).
  do 3 (split; [done|]). split.
  - intros now newId. unfold getOrCreateDirectChat. by rewrite Hf.
  - intros x y Hxy Hne. rewrite Hxy in HAj.
    apply elem_of_cons in HAj as [->|HAj].
    + exists y. split; [congruence|]. rewrite Hxy. apply list_elem_of_In; cbn; tauto.
    + apply list_elem_of_singleton in HAj as ->.
      exists x. split; [done|]. rewrite Hxy. apply list_elem_of_In; cbn; tauto.
Qed.

Lemma findExistingPrivateChat_self_witness :
  ∃ j rj,
    findExistingPrivateChat onePrivate "alice" "alice" = Some (j, rj) ∧
    rooms onePrivate !! j = Some rj ∧ type rj = Private ∧ "alice" ∈ participants rj ∧
    (∀ now newId,
       getOrCreateDirectChat now newId onePrivate "alice" "alice" = ((j, rj), onePrivate)) ∧
    (∀ x y, participants rj = [x; y] → x ≠ y →
            ∃ B, B ≠ "alice" ∧ B ∈ participants rj).
Proof.
  apply (findExistingPrivateChat_self onePrivate "alice" "r1" privateRoom).
  - reflexivity.
  - reflexivity.
  - apply list_elem_of_In; cbn; tauto.
Defined.

(** C10 as stated fails when the room that is found is a self-chat made
    by an earlier call: "alice" participates in a private room, and the
    room [getOrCreateDirectChat] returns has no participant but her. *)
Lemma getOrCreateDirectChat_returns_self_chat :
  ∃ j rj,
    rooms selfChat !! j = Some rj ∧ type rj = Private ∧ "alice" ∈ participants rj
    ∧ getOrCreateDirectChat 2 "r2" selfChat "alice" "alice" = ((j, rj), selfChat)
    ∧ ∀ B, B ∈ participants rj → B = "alice".
Proof.
  exists "r1", (newPrivateRoom 1 "alice" "alice").
  split; [vm_compute; reflexivity|].
  split; [reflexivity|].
  split; [apply list_elem_of_In; cbn; tauto|].
  split; [vm_compute; reflexivity|].
  intros B HB. apply list_elem_of_In in HB. cbn in HB. intuition congruence.
Qed.

(** ** One private room per pair, along sequential calls *)

Lemma narrows_refl (r : ChatRoom) : narrows r r.
Proof. by repeat split. Qed.

Lemma wellFormed_narrow (rs rs' : gmap string ChatRoom) :
  wellFormed rs →
  (∀ j r', rs' !! j = Some r' → ∃ r, rs !! j = Some r ∧ narrows r r') →
  wellFormed rs'.
Proof.
  intros [Hadm Huniq] Hsub. split.
  - intros i r' Hi Ht. destruct (Hsub i r' Hi) as (r & Hr & Ht' & Hg & _).
    rewrite Hg. apply (Hadm i r Hr). congruence.
  - intros a b i j ri' rj' Hab Hi Hj (Hti & Hai & Hbi) (Htj & Haj & Hbj).
    destruct (Hsub i ri' Hi) as (ri & Hri & Hti' & _ & Hpi).
    destruct (Hsub j rj' Hj) as (rj & Hrj & Htj' & _ & Hpj).
    apply (Huniq a b i j ri rj Hab Hri Hrj).
    + split; [congruence|]. split; apply Hpi; congruence.
    + split; [congruence|]. split; apply Hpj; congruence.
Qed.

Lemma wellFormed_alter (rs : gmap string ChatRoom) (id : string) f :
  wellFormed rs →
  (∀ r, rs !! id = Some r → narrows r (f r)) →
  wellFormed (alter f id rs).
Proof.
  intros Hwf Hf. apply (wellFormed_narrow rs); [done|].
  intros j r' Hj. apply lookup_alter_Some in Hj as [(-> & r & Hr & ->)|[Hne Hj]].
  - exists r. split; [done|]. by apply Hf.
  - exists r'. split; [done|]. apply narrows_refl.
Qed.

Lemma wellFormed_insert_group (rs : gmap string ChatRoom) (id : string) (r : ChatRoom) :
  wellFormed rs → rs !! id = None → type r = Group →
  wellFormed (<[id := r]> rs).
Proof.
  intros [Hadm Huniq] Hfresh Hg. split.
  - intros i ri [[-> ->]|[Hne Hi]]%lookup_insert_Some Ht; [congruence|].
    by apply (Hadm i).
  - intros a b i j ri rj Hab Hi Hj Hpi Hpj.
    apply lookup_insert_Some in Hi as [[-> ->]|[Hni Hi]];
      [destruct Hpi; congruence|].
    apply lookup_insert_Some in Hj as [[-> ->]|[Hnj Hj]];
      [destruct Hpj; congruence|].
    by apply (Huniq a b i j ri rj).
Qed.

(** Two distinct members of a two-element list are its two elements. *)
Lemma pair_members (a b x y : string) :
  x ≠ y → x ∈ [a; b] → y ∈ [a; b] → (x = a ∧ y = b) ∨ (x = b ∧ y = a).
Proof.
  intros Hxy Hx Hy. apply list_elem_of_In in Hx, Hy. cbn in Hx, Hy.
  intuition congruence.
Qed.

Lemma wellFormed_insert_private (st : Store) (now : Z) (id a b : string) :
  wellFormed (rooms st) → rooms st !! id = None →
  findExistingPrivateChat st a b = None →
  wellFormed (<[id := newPrivateRoom now a b]> (rooms st)).
Proof.
  intros [Hadm Huniq] Hfresh Hnone.
  pose proof (findExistingPrivateChat_None st a b Hnone) as Hno.
  assert (Hclash : ∀ x y j rj, x ≠ y →
            isPrivateChatOf x y (newPrivateRoom now a b) →
            rooms st !! j = Some rj → isPrivateChatOf x y rj → False).
  { intros x y j rj Hxy (_ & Hx & Hy) Hj (Ht & Hxj & Hyj).
    apply (Hno j rj Hj).
    destruct (pair_members a b x y Hxy Hx Hy) as [[-> ->]|[-> ->]];
      by repeat split. }
  split.
  - intros i ri [[-> <-]|[Hne Hi]]%lookup_insert_Some Ht; [done|].
    by apply (Hadm i).
  - intros x y i j ri rj Hxy Hi Hj Hpi Hpj.
    apply lookup_insert_Some in Hi as [[-> <-]|[Hni Hi]];
      apply lookup_insert_Some in Hj as [[-> <-]|[Hnj Hj]].
    + done.
    + exfalso. by apply (Hclash x y j rj).
    + exfalso. by apply (Hclash x y i ri).
    + by apply (Huniq x y i j ri rj).
Qed.

Lemma createPrivateChat_wellFormed (st : Store) (now : Z) (id a b : string) :
  wellFormed (rooms st) → rooms st !! id = None →
  wellFormed (rooms (createPrivateChat now id st a b).2).
Proof.
  intros Hwf Hfresh. unfold createPrivateChat.
  destruct (findExistingPrivateChat st a b) eqn:Hf; cbn; [done|].
  by apply wellFormed_insert_private.
Qed.

(** [getOrCreateDirectChat] looks up twice and then does what
    [createPrivateChat] does. *)
Lemma getOrCreateDirectChat_createPrivateChat (st : Store) (now : Z) (id a b : string) :
  getOrCreateDirectChat now id st a b = createPrivateChat now id st a b.
Proof.
  unfold getOrCreateDirectChat, createPrivateChat.
  by destruct (findExistingPrivateChat st a b).
Qed.

(** Every store produced by sequential calls satisfies the invariant. *)
Lemma reachable_wellFormed (st : Store) : reachable st → wellFormed (rooms st).
Proof.
  induction 1 as
    [ | st now newId u1 u2 _ IH Hfresh
      | st now newId u1 u2 _ IH Hfresh
      | st now newId n adminId ps d st' _ IH Hfresh Hop
      | st chatId adminId userId st' _ IH Hop
      | st roomId p st' _ IH Hop
      | st now roomId n d p st' _ IH Hop
      | st roomId userId dn st' _ IH Hop
      | st chatId userId b st' _ IH Hop
      | st now newId roomId s t i st' _ IH Hop
      | st now newId roomId s t m st' _ IH Hop
      | st roomId u st' _ IH Hop
      | st roomId u st' _ IH Hop ].
  - split; intros *; cbn; by rewrite ?lookup_empty.
  - by apply createPrivateChat_wellFormed.
  - rewrite getOrCreateDirectChat_createPrivateChat.
    by apply createPrivateChat_wellFormed.
  - unfold createGroupChat in Hop. destruct (_ || _); [done|].
    injection Hop as _ <-. cbn. by apply wellFormed_insert_group.
  - unfold addUserToGroup in Hop.
    destruct (rooms st !! chatId) as [room|] eqn:Hroom; [|done].
    destruct (Js.strict_eq _ _) eqn:Hadm; [|done]. cbn in Hop.
    destruct (Js.includes _ _); [done|]. injection Hop as <-. cbn.
    apply wellFormed_alter; [done|]. intros r Hr.
    assert (r = room) as -> by congruence.
    split; [done|]. split; [done|]. intros Ht.
    destruct IH as [IHadm _]. rewrite (IHadm chatId room Hroom Ht) in Hadm.
    done.
  - unfold removeParticipant in Hop.
    destruct (rooms st !! roomId) as [room|] eqn:Hroom; [|done].
    rewrite nonGroupGuard_false in Hop. injection Hop as <-. cbn.
    apply wellFormed_alter; [done|]. intros r _.
    split; [done|]. split; [done|]. intros _ x. cbn.
    rewrite elem_of_arrayRemove. tauto.
  - unfold updateGroupDetails in Hop.
    destruct (rooms st !! roomId); [|done]. injection Hop as <-. cbn.
    apply wellFormed_alter; [done|]. intros r _. by repeat split.
  - unfold updateRoomDisplayName in Hop. destruct (_ || _); [done|].
    destruct (rooms st !! roomId); [|done].
    destruct (negb _); [done|]. destruct (negb _); [done|].
    injection Hop as <-. cbn.
    apply wellFormed_alter; [done|]. intros r _. by repeat split.
  - unfold updateUserPresence in Hop.
    destruct (rooms st !! chatId); [|done]. injection Hop as <-. cbn.
    apply wellFormed_alter; [done|]. intros r _. by repeat split.
  - unfold Simple.sendMessage in Hop.
    destruct (rooms st !! roomId); [|done]. injection Hop as _ <-. cbn.
    apply wellFormed_alter; [done|]. intros r _. by repeat split.
  - unfold Presence.sendMessage in Hop. destruct (_ || _ || _); [done|].
    destruct (rooms st !! roomId); [|done].
    destruct (Presence.computeReadBy _ _ _). injection Hop as _ <-. cbn.
    apply wellFormed_alter; [done|]. intros r _. by repeat split.
  - unfold Simple.markMessagesAsRead in Hop.
    destruct (rooms st !! roomId); [|done]. injection Hop as <-. cbn.
    apply wellFormed_alter; [done|]. intros r _. by repeat split.
  - unfold Presence.markMessagesAsRead in Hop.
    destruct (rooms st !! roomId); [|done]. injection Hop as <-. cbn.
    apply wellFormed_alter; [done|]. intros r _. by repeat split.
Qed.

Lemma wellFormed_atMostOne (st : Store) (a b : string) :
  wellFormed (rooms st) → a ≠ b → atMostOnePrivate st a b.
Proof. intros [_ Huniq] Hab i j ri rj. by apply Huniq. Qed.

(** The room [createPrivateChat] returns is stored under the id it
    returns and is a private room of the two users. *)
Lemma createPrivateChat_stored (st : Store) (now : Z) (id a b : string) :
  let first := createPrivateChat now id st a b in
  rooms first.2 !! first.1.1 = Some first.1.2 ∧ isPrivateChatOf a b first.1.2.
Proof.
  unfold createPrivateChat.
  destruct (findExistingPrivateChat st a b) as [[i r]|] eqn:Hf; cbn.
  - by apply findExistingPrivateChat_Some.
  - split; [by rewrite lookup_insert_eq|].
    split; [done|]. split; apply list_elem_of_In; cbn; tauto.
Qed.

(** In a store that satisfies the invariant, a lookup for a pair of
    distinct users returns the one stored private room of the pair. *)
Lemma findExistingPrivateChat_unique (st : Store) (a b x y i : string) (r : ChatRoom) :
  wellFormed (rooms st) → a ≠ b →
  rooms st !! i = Some r → isPrivateChatOf a b r →
  (x = a ∧ y = b) ∨ (x = b ∧ y = a) →
  findExistingPrivateChat st x y = Some (i, r).
Proof.
  intros [_ Huniq] Hab Hi (Ht & Ha & Hb) Hxy.
  assert (Hr : isPrivateChatOf x y r).
  { destruct Hxy as [[-> ->]|[-> ->]]; by repeat split. }
  destruct (findExistingPrivateChat_is_Some st x y i r Hi Hr) as (j & rj & Hf).
  rewrite Hf. destruct (findExistingPrivateChat_Some _ _ _ _ _ Hf) as [Hj (Htj & Hxj & Hyj)].
  assert (j = i) as ->.
  { apply (Huniq a b j i rj r Hab Hj Hi); [|by repeat split].
    destruct Hxy as [[-> ->]|[-> ->]]; by repeat split. }
  congruence.
Qed.

(** C3. In a store produced by sequential calls, for two distinct users
    and a fresh document id, two calls of [createPrivateChat] in a row
    return the same room under the same id, the second call leaves the
    store as the first left it, the room returned is a stored private
    room of the two users, and before, between and after the calls the
    store holds at most one private room for the pair. *)
Theorem createPrivateChat_twice (st : Store) (A B : string)
  (now1 now2 : Z) (id1 id2 : string) :
  reachable st → A ≠ B → rooms st !! id1 = None →
  let first := createPrivateChat now1 id1 st A B in
  let second := createPrivateChat now2 id2 first.2 A B in
  second.1.1 = first.1.1 ∧
  second.1 = first.1 ∧
  second.2 = first.2 ∧
  rooms first.2 !! first.1.1 = Some first.1.2 ∧
  isPrivateChatOf A B first.1.2 ∧
  atMostOnePrivate st A B ∧
  atMostOnePrivate first.2 A B ∧
  atMostOnePrivate second.2 A B.
Proof.
  intros Hreach HAB Hfresh first second.
  pose proof (reachable_wellFormed st Hreach) as Hwf.
  pose proof (createPrivateChat_wellFormed st now1 id1 A B Hwf Hfresh) as Hwf1.
  fold first in Hwf1.
  destruct (createPrivateChat_stored st now1 id1 A B) as [Hstored Hchat].
  fold first in Hstored, Hchat.
  assert (Hsecond : second = (first.1, first.2)).
  { unfold second, createPrivateChat at 1.
    rewrite (findExistingPrivateChat_unique first.2 A B A B _ _ Hwf1 HAB Hstored Hchat)
      by tauto.
    by destruct first.1. }
  rewrite Hsecond. cbn.
  do 3 (split; [done|]). do 2 (split; [done|]).
  split; [by apply wellFormed_atMostOne|].
  split; by apply wellFormed_atMostOne.
Qed.

Lemma createPrivateChat_twice_witness :
  let first := createPrivateChat 1 "r1" ChatService.empty "alice" "bob" in
  let second := createPrivateChat 2 "r2" first.2 "alice" "bob" in
  second.1.1 = first.1.1 ∧
  second.1 = first.1 ∧
  second.2 = first.2 ∧
  rooms first.2 !! first.1.1 = Some first.1.2 ∧
  isPrivateChatOf "alice" "bob" first.1.2 ∧
  atMostOnePrivate ChatService.empty "alice" "bob" ∧
  atMostOnePrivate first.2 "alice" "bob" ∧
  atMostOnePrivate second.2 "alice" "bob".
Proof.
  apply (createPrivateChat_twice ChatService.empty "alice" "bob" 1 2 "r1" "r2").
  - apply reach_empty.
  - discriminate.
  - reflexivity.
Defined.

(** The same room is returned when the users are swapped. *)
Lemma createPrivateChat_swapped (st : Store) (A B : string)
  (now1 now2 : Z) (id1 id2 : string) :
  reachable st → A ≠ B → rooms st !! id1 = None →
  let first := createPrivateChat now1 id1 st A B in
  createPrivateChat now2 id2 first.2 B A = (first.1, first.2).
Proof.
  intros Hreach HAB Hfresh first.
  pose proof (reachable_wellFormed st Hreach) as Hwf.
  pose proof (createPrivateChat_wellFormed st now1 id1 A B Hwf Hfresh) as Hwf1.
  destruct (createPrivateChat_stored st now1 id1 A B) as [Hstored Hchat].
  fold first in Hwf1, Hstored, Hchat.
  unfold createPrivateChat at 1.
  rewrite (findExistingPrivateChat_unique first.2 A B B A _ _ Hwf1 HAB Hstored Hchat)
    by tauto.
  by destruct first.1.
Qed.

(** ** Derived usernames *)

Lemma isUsernameTaken_spec (users : gmap string UserProfile) (u : string) :
  isUsernameTaken users u = true ↔ u ∈ usernamesOf users.
Proof.
  unfold isUsernameTaken, usernamesOf.
  induction (map_to_list users) as [|d l IH]; cbn.
  - split; [done | by intros ?%elem_of_nil].
  - case_bool_decide as Hd.
    + rewrite Hd. split; [intros _; by left | done].
    + rewrite IH. destruct (username d.2) as [x|]; [|done].
      rewrite elem_of_cons. split; [by right|]. intros [->|?]; done.
Qed.

Lemma isUsernameTaken_lookup (users : gmap string UserProfile) (u : string) :
  isUsernameTaken users u = true ↔ ∃ i p, users !! i = Some p ∧ username p = Some u.
Proof.
  rewrite isUsernameTaken_spec. unfold usernamesOf. rewrite list_elem_of_omap.
  split.
  - intros ([i p] & Hin & Hu). apply elem_of_map_to_list in Hin. eauto.
  - intros (i & p & Hi & Hu). exists (i, p). by rewrite elem_of_map_to_list.
Qed.

Lemma usernamesOf_length (users : gmap string UserProfile) :
  (length (usernamesOf users) ≤ size users)%nat.
Proof.
  unfold usernamesOf. rewrite <- length_map_to_list.
  induction (map_to_list users) as [|d l IH]; cbn; [done|].
  destruct (username d.2); cbn; lia.
Qed.

(** The suffixed candidates are pairwise distinct. *)
Lemma candidate_suffix_inj (base : string) (j k : nat) :
  base +:+ pretty j = base +:+ pretty k → j = k.
Proof. intros H. by apply (inj pretty), (inj (String.app base)). Qed.

(** Among the first [n + 1] suffixed candidates one is free when at most
    [n] usernames are in use. *)
Lemma some_candidate_free (users : gmap string UserProfile) (base : string) :
  ∃ k, (k ≤ S (size users))%nat ∧ isUsernameTaken users (candidate base k) = false.
Proof.
  set (n := size users).
  set (L := (fun k : nat => base +:+ pretty k) <$> seq 1 (S n)).
  destruct (decide (Forall (fun x => x ∈ usernamesOf users) L)) as [Hall|Hex].
  - exfalso.
    assert (HL : NoDup L).
    { apply NoDup_fmap_2_strong; [|apply NoDup_seq].
      intros x y _ _. apply candidate_suffix_inj. }
    assert (Hsub : L ⊆+ usernamesOf users).
    { apply NoDup_submseteq; [done|]. by apply Forall_forall. }
    apply submseteq_length in Hsub.
    unfold L in Hsub. rewrite length_fmap, length_seq in Hsub.
    pose proof (usernamesOf_length users). lia.
  - apply not_Forall_Exists in Hex; [|apply _].
    apply Exists_exists in Hex as (x & Hx & Hfree).
    apply list_elem_of_fmap in Hx as (k & -> & Hk).
    apply elem_of_seq in Hk. exists k. split; [lia|].
    destruct k as [|k]; [lia|]. cbn.
    apply not_true_is_false. by rewrite isUsernameTaken_spec.
Qed.

(** The least free candidate. *)
Lemma least_candidate_free (users : gmap string UserProfile) (base : string) :
  ∃ k, (k ≤ S (size users))%nat
       ∧ isUsernameTaken users (candidate base k) = false
       ∧ ∀ j, (j < k)%nat → isUsernameTaken users (candidate base j) = true.
Proof.
  destruct (some_candidate_free users base) as (k0 & Hk0 & Hfree).
  revert Hk0 Hfree. induction k0 as [k0 IH] using lt_wf_ind. intros Hk0 Hfree.
  destruct (decide (Forall (fun j => isUsernameTaken users (candidate base j) = true)
                           (seq 0 k0))) as [Hall|Hex].
  - exists k0. split; [done|]. split; [done|].
    intros j Hj. apply (proj1 (Forall_forall _ _) Hall). apply elem_of_seq. lia.
  - apply not_Forall_Exists in Hex; [|apply _].
    apply Exists_exists in Hex as (j & Hj & Hfreej).
    apply elem_of_seq in Hj. apply (IH j); [lia | lia |].
    by apply not_true_is_false.
Qed.

(** The loop returns the first free candidate at or after its counter. *)
Lemma probe_finds (users : gmap string UserProfile) (base : string)
  (fuel c k : nat) :
  (c ≤ k)%nat → (k - c < fuel)%nat →
  isUsernameTaken users (candidate base k) = false →
  (∀ j, (c ≤ j < k)%nat → isUsernameTaken users (candidate base j) = true) →
  probe users base fuel c (candidate base c) = Some (candidate base k).
Proof.
  revert c. induction fuel as [|fuel IH]; intros c Hck Hfuel Hfree Htaken; [lia|].
  cbn. destruct (decide (c = k)) as [->|Hne].
  - by rewrite Hfree.
  - rewrite Htaken by lia. apply (IH (S c)); [lia | lia | done |].
    intros j Hj. apply Htaken. lia.
Qed.

Lemma upsertProfile_derives (toDataURL : string → string) (now : Z) (fuel : nat)
  (users : gmap string UserProfile) (userId : string) (data : ProfileData)
  (e : string) :
  Js.truthy (Js.of_opt (data_username data)) = false →
  data_email data = Some e → e ≠ "" →
  (size users + 2 ≤ fuel)%nat →
  ∃ k users',
    derives toDataURL now fuel users userId data (Js.split_head "@" e) k users' ∧
    isUsernameTaken users (candidate (Js.split_head "@" e) k) = false ∧
    (∀ j, (j < k)%nat →
          isUsernameTaken users (candidate (Js.split_head "@" e) j) = true).
Proof.
  intros Hu He Hne Hfuel. set (base := Js.split_head "@" e).
  destruct (least_candidate_free users base) as (k & Hk & Hfree & Htaken).
  exists k. eexists. split; [|by split].
  unfold derives, upsertProfile, deriveUsername. rewrite He, Hu.
  rewrite truthy_Str, bool_decide_eq_false_2 by done. cbn. fold base.
  assert (Hp : probe users base fuel 0 base = Some (candidate base k)).
  { apply (probe_finds users base fuel 0 k); [lia | lia | done |].
    intros j Hj. apply Htaken. lia. }
  rewrite Hp. cbn. eexists _, _. split; [done|]. split; [done|].
  split; [by rewrite lookup_insert_eq|]. split.
  - unfold mergeDoc. by destruct (users !! userId).
  - intros j Hj. by rewrite lookup_insert_ne.
Qed.




Example upsertProfile_probe :
  (fst <$> upsertProfile qr 10 3 annTaken "u1" annData) =
    Some (mkUserData "u1" (Some "ann@x.com") (Some "ann1") "qr:u1" 10 None None None)
  ∧ (w_username ∘ fst <$> upsertProfile qr 10 3 ∅ "u1" annData) = Some (Some "ann")
  ∧ upsertProfile qr 10 1 annTaken "u1" annData = None.
Proof. repeat split; vm_compute; reflexivity. Qed.


(** ** Room documents along sequential calls *)

Lemma dedup_first_spec (seen xs : list string) (x : string) :
  x ∈ dedup_first seen xs ↔ x ∈ xs ∧ x ∉ seen.
Proof.
  revert seen. induction xs as [|y xs IH]; intros seen; cbn.
  - split; [by intros ?%elem_of_nil | by intros [?%elem_of_nil _]].
  - case_bool_decide as Hy.
    + rewrite IH, elem_of_cons. split; [tauto|].
      intros [[->|?] ?]; [done | tauto].
    + rewrite !elem_of_cons, IH, elem_of_cons. split.
      * intros [->|[? ?]]; [tauto|]. split; [tauto|]. tauto.
      * intros [[->|?] ?]; [tauto|].
        destruct (decide (x = y)); [tauto|]. right. split; [done|].
        intros [?|?]; done.
Qed.

Lemma dedup_first_NoDup (seen xs : list string) : NoDup (dedup_first seen xs).
Proof.
  revert seen. induction xs as [|y xs IH]; intros seen; cbn; [constructor|].
  case_bool_decide; [apply IH|]. constructor; [|apply IH].
  rewrite dedup_first_spec, elem_of_cons. tauto.
Qed.

Lemma arrayRemove_NoDup (x : string) (l : list string) :
  NoDup l → NoDup (Firestore.arrayRemove x l).
Proof.
  unfold Firestore.arrayRemove. rewrite !NoDup_ListNoDup. apply List.NoDup_filter.
Qed.

Lemma arrayRemove_length (x : string) (l : list string) :
  (length (Firestore.arrayRemove x l) ≤ length l)%nat.
Proof. unfold Firestore.arrayRemove. apply List.filter_length_le. Qed.

Lemma roomReachable_alter (rs : gmap string ChatRoom) (id : string) f :
  (∀ i r, rs !! i = Some r → roomReachable r) →
  (∀ r, rs !! id = Some r → roomStep r (f r)) →
  ∀ i r, alter f id rs !! i = Some r → roomReachable r.
Proof.
  intros Hrs Hf i r' [(-> & r & Hr & ->)|[Hne Hi]]%lookup_alter_Some.
  - eapply room_step; [by eapply Hrs | by apply Hf].
  - by eapply Hrs.
Qed.

Lemma roomReachable_insert (rs : gmap string ChatRoom) (id : string) (r0 : ChatRoom) :
  (∀ i r, rs !! i = Some r → roomReachable r) → roomReachable r0 →
  ∀ i r, <[id := r0]> rs !! i = Some r → roomReachable r.
Proof.
  intros Hrs H0 i r [[-> <-]|[Hne Hi]]%lookup_insert_Some; [done|].
  by eapply Hrs.
Qed.

(** Every room document of a store produced by sequential calls was
    created by one of the two constructors and then updated step by step. *)
Lemma reachable_rooms (st : Store) :
  reachable st → ∀ i r, rooms st !! i = Some r → roomReachable r.
Proof.
  induction 1 as
    [ | st now newId u1 u2 _ IH Hfresh
      | st now newId u1 u2 _ IH Hfresh
      | st now newId n adminId ps d st' _ IH Hfresh Hop
      | st chatId adminId userId st' _ IH Hop
      | st roomId p st' _ IH Hop
      | st now roomId n d p st' _ IH Hop
      | st roomId userId dn st' _ IH Hop
      | st chatId userId b st' _ IH Hop
      | st now newId roomId s t i st' _ IH Hop
      | st now newId roomId s t m st' _ IH Hop
      | st roomId u st' _ IH Hop
      | st roomId u st' _ IH Hop ].
  - intros i r. cbn. by rewrite lookup_empty.
  - unfold createPrivateChat. destruct (findExistingPrivateChat _ _ _); cbn; [done|].
    apply roomReachable_insert; [done | constructor].
  - rewrite getOrCreateDirectChat_createPrivateChat.
    unfold createPrivateChat. destruct (findExistingPrivateChat _ _ _); cbn; [done|].
    apply roomReachable_insert; [done | constructor].
  - unfold createGroupChat in Hop.
    destruct (negb _) eqn:Hn; [done|]. cbn in Hop.
    case_bool_decide as Hlen; [done|]. injection Hop as _ <-. cbn.
    apply roomReachable_insert; [done|].
    apply (room_group now n adminId ps). intros Ht. apply Hlen. by rewrite Ht.
  - unfold addUserToGroup in Hop.
    destruct (rooms st !! chatId) as [room|] eqn:Hroom; [|done].
    destruct (Js.strict_eq _ _) eqn:Hadm; [|done]. cbn in Hop.
    unfold Js.includes in Hop. case_bool_decide as Hin; [done|].
    injection Hop as <-. cbn.
    apply roomReachable_alter; [done|]. intros r Hr.
    assert (r = room) as -> by congruence.
    destruct (groupAdmin room) as [g|] eqn:Hg; [|done].
    by apply (step_add room g userId).
  - unfold removeParticipant in Hop.
    destruct (rooms st !! roomId) as [room|] eqn:Hroom; [|done].
    rewrite nonGroupGuard_false in Hop. injection Hop as <-. cbn.
    apply roomReachable_alter; [done|]. intros r _. constructor.
  - unfold updateGroupDetails in Hop.
    destruct (rooms st !! roomId); [|done]. injection Hop as <-. cbn.
    apply roomReachable_alter; [done|]. intros r _. constructor.
  - unfold updateRoomDisplayName in Hop. destruct (_ || _); [done|].
    destruct (rooms st !! roomId) as [room|] eqn:Hroom; [|done].
    case_bool_decide as Ht; [|done]. cbn in Hop.
    unfold Js.includes in Hop. case_bool_decide as Hin; [|done]. cbn in Hop.
    injection Hop as <-. cbn.
    apply roomReachable_alter; [done|]. intros r Hr.
    assert (r = room) as -> by congruence. by constructor.
  - unfold updateUserPresence in Hop.
    destruct (rooms st !! chatId); [|done]. injection Hop as <-. cbn.
    apply roomReachable_alter; [done|]. intros r _. constructor.
  - unfold Simple.sendMessage in Hop.
    destruct (rooms st !! roomId) as [room|] eqn:Hroom; [|done].
    injection Hop as _ <-. cbn.
    apply roomReachable_alter; [done|]. intros r Hr.
    assert (r = room) as -> by congruence.
    apply (step_send_simple room now s t).
  - unfold Presence.sendMessage in Hop. destruct (_ || _ || _); [done|].
    destruct (rooms st !! roomId) as [room|] eqn:Hroom; [|done].
    destruct (Presence.computeReadBy _ _ _) as [rb ws] eqn:Hrw.
    injection Hop as _ <-. cbn.
    apply roomReachable_alter; [done|]. intros r Hr.
    assert (r = room) as -> by congruence.
    pose proof (step_send_presence room now s t) as Hstep.
    unfold presenceSendUpdate in Hstep. by rewrite Hrw in Hstep.
  - unfold Simple.markMessagesAsRead in Hop.
    destruct (rooms st !! roomId); [|done]. injection Hop as <-. cbn.
    apply roomReachable_alter; [done|]. intros r _. constructor.
  - unfold Presence.markMessagesAsRead in Hop.
    destruct (rooms st !! roomId); [|done]. injection Hop as <-. cbn.
    apply roomReachable_alter; [done|]. intros r _. constructor.
Qed.

(** The counters of a reachable room are never negative. *)
Lemma roomReachable_unread (r : ChatRoom) :
  roomReachable r → ∀ u n, unreadCount r !! u = Some n → 0 ≤ n.
Proof.
  induction 1 as [now a b | now gn adminId ps Hn | r r' _ IH Hstep]; intros u n.
  - cbn. intros [[_ <-]|[_ [[_ <-]|[_ ?%lookup_empty_Some]]%lookup_insert_Some]]%lookup_insert_Some;
      done.
  - cbn. by rewrite lookup_empty.
  - destruct Hstep as [r a x Ha Hx | r x | r nn d p now | r x dn Ht Hx | r x b
                      | r now S txt | r now S txt | r x | r x]; cbn; try apply IH.
    + unfold simpleSendUpdate. cbn.
      rewrite applyNumWrites_lookup, simple_writes_lookup.
      destruct (_ && _); [|apply IH]. intros [= <-]. cbn.
      destruct (unreadCount r !! u) as [c|] eqn:Hc; cbn; [|lia].
      specialize (IH u c Hc). lia.
    + unfold presenceSendUpdate. cbn. rewrite applyNumWrites_lookup.
      destruct (presence_fold (activeUsers r) S u (participants r) (∅, ∅)) as [_ Hws].
      unfold Presence.computeReadBy. rewrite Hws. cbn.
      case_bool_decide; [|rewrite lookup_empty; apply IH].
      intros [= <-]. destruct (negb _); cbn; [|lia].
      destruct (unreadCount r !! u) as [c|] eqn:Hc; cbn; [|lia].
      specialize (IH u c Hc). lia.
    + intros [[_ <-]|[_ Hu]]%lookup_insert_Some; [lia | by eapply IH].
    + intros [[_ <-]|[_ Hu]]%lookup_insert_Some; [lia | by eapply IH].
Qed.

(** X1. In a store produced by sequential calls, [getUnreadCount] is never
    negative, whatever the room and the user. *)
Theorem getUnreadCount_nonneg (st : Store) (chatId userId : string) :
  reachable st → 0 ≤ getUnreadCount st chatId userId.
Proof.
  intros Hreach. unfold getUnreadCount.
  destruct (rooms st !! chatId) as [r|] eqn:Hr; [|lia].
  destruct (unreadCount r !! userId) as [n|] eqn:Hn; cbn; [|lia].
  eapply roomReachable_unread; [|done]. by eapply reachable_rooms.
Qed.

Lemma aliceAndBob_reachable : reachable aliceAndBob.
Proof. apply (reach_createPrivateChat ChatService.empty); [constructor | reflexivity]. Qed.

Lemma getUnreadCount_nonneg_witness : 0 ≤ getUnreadCount aliceAndBob "r1" "bob".
Proof. apply getUnreadCount_nonneg, aliceAndBob_reachable. Defined.

(** The shape of a reachable room: a private room has no admin and at most
    two participant entries; a group has an admin and lists nobody twice. *)
Lemma roomReachable_shape (r : ChatRoom) :
  roomReachable r →
  (type r = Private → groupAdmin r = None ∧ (length (participants r) ≤ 2)%nat) ∧
  (type r = Group → is_Some (groupAdmin r) ∧ NoDup (participants r)).
Proof.
  induction 1 as [now a b | now gn adminId ps Hn | r r' _ IH Hstep].
  - split; [by intros _; split; cbn; [|lia] | done].
  - split; [done|]. intros _. split; [by eexists|]. apply dedup_first_NoDup.
  - destruct IH as [IHp IHg].
    destruct Hstep as [r a x Ha Hx | r x | r nn d p now | r x dn Ht Hx | r x b
                      | r now S txt | r now S txt | r x | r x]; cbn; try done.
    + split.
      * intros Ht. destruct (IHp Ht) as [Hnone _]. congruence.
      * intros Ht. destruct (IHg Ht) as [Hadm Hnd]. split; [done|].
        rewrite arrayUnion_fresh by done. apply NoDup_app. split; [done|].
        split; [|apply NoDup_singleton].
        intros y Hy ->%list_elem_of_singleton. done.
    + split.
      * intros Ht. destruct (IHp Ht) as [Hnone Hlen]. split; [done|].
        pose proof (arrayRemove_length x (participants r)). lia.
      * intros Ht. destruct (IHg Ht) as [Hadm Hnd]. split; [done|].
        by apply arrayRemove_NoDup.
Qed.

(** X2. In a store produced by sequential calls, a group never lists a
    participant twice and always has a [groupAdmin]. *)
Theorem group_participants_NoDup (st : Store) (i : string) (r : ChatRoom) :
  reachable st → rooms st !! i = Some r → type r = Group →
  NoDup (participants r) ∧ is_Some (groupAdmin r).
Proof.
  intros Hreach Hr Ht.
  destruct (roomReachable_shape r (reachable_rooms st Hreach i r Hr)) as [_ Hg].
  destruct (Hg Ht). done.
Qed.

Lemma teamCreated_reachable : reachable teamCreated.
Proof.
  eapply (reach_createGroupChat ChatService.empty 5 "g1" " team " "g" ["m1"; "g"; "m1"]).
  - constructor.
  - reflexivity.
  - reflexivity.
Qed.

Lemma group_participants_NoDup_witness :
  ∃ r, rooms teamCreated !! "g1" = Some r ∧ participants r = ["g"; "m1"]
       ∧ NoDup (participants r) ∧ is_Some (groupAdmin r).
Proof.
  eexists. split; [reflexivity|]. split; [reflexivity|].
  eapply (group_participants_NoDup teamCreated "g1").
  - apply teamCreated_reachable.
  - reflexivity.
  - reflexivity.
Defined.

(** X3. In a store produced by sequential calls, a private room has at
    most two participant entries and no admin, and [addUserToGroup] on it
    fails with the admin-only error whoever calls it: a direct chat never
    gains a member. *)
Theorem private_room_closed (st : Store) (i : string) (r : ChatRoom) :
  reachable st → rooms st !! i = Some r → type r = Private →
  (length (participants r) ≤ 2)%nat ∧ groupAdmin r = None ∧
  ∀ adminId userId, addUserToGroup st i adminId userId = Err OnlyGroupAdmin.
Proof.
  intros Hreach Hr Ht.
  destruct (roomReachable_shape r (reachable_rooms st Hreach i r Hr)) as [Hp _].
  destruct (Hp Ht) as [Hnone Hlen]. split; [done|]. split; [done|].
  intros adminId userId. unfold addUserToGroup. by rewrite Hr, Hnone.
Qed.

Lemma private_room_closed_witness :
  addUserToGroup aliceAndBob "r1" "alice" "carol" = Err OnlyGroupAdmin.
Proof.
  eapply (private_room_closed aliceAndBob "r1").
  - apply aliceAndBob_reachable.
  - reflexivity.
  - reflexivity.
Defined.

(** ** Creating groups and changing their members *)

Lemma arrayRemove_absent (x : string) (l : list string) :
  x ∉ l → Firestore.arrayRemove x l = l.
Proof.
  unfold Firestore.arrayRemove. induction l as [|y l IH]; intros Hx; [done|]. cbn.
  apply not_elem_of_cons in Hx as [Hxy Hl].
  rewrite bool_decide_eq_false_2 by done. cbn. by rewrite IH.
Qed.

Lemma arrayRemove_idemp (x : string) (l : list string) :
  Firestore.arrayRemove x (Firestore.arrayRemove x l) = Firestore.arrayRemove x l.
Proof. apply arrayRemove_absent. rewrite elem_of_arrayRemove. tauto. Qed.

Lemma arrayRemove_arrayUnion (x : string) (l : list string) :
  x ∉ l → Firestore.arrayRemove x (Firestore.arrayUnion x l) = l.
Proof.
  intros Hx. rewrite arrayUnion_fresh by done.
  unfold Firestore.arrayRemove. rewrite List.filter_app. cbn.
  rewrite bool_decide_eq_true_2 by done. cbn. rewrite app_nil_r.
  by apply arrayRemove_absent.
Qed.

Lemma set_participants_id (f : list string → list string) (r : ChatRoom) :
  f (participants r) = participants r → set_participants f r = r.
Proof. intros H. unfold set_participants. rewrite H. by destruct r. Qed.

Lemma set_participants_twice (f g : list string → list string) (r : ChatRoom) :
  set_participants g (set_participants f r)
  = set_participants (fun l => g (f l)) r.
Proof. reflexivity. Qed.

Lemma updateRoom_id (st : Store) (id : string) f :
  (∀ r, rooms st !! id = Some r → f r = r) → updateRoom id f st = st.
Proof.
  intros H. unfold updateRoom. rewrite alter_id by done. by destruct st.
Qed.

(** The test of [createGroupChat] on the name. *)
Lemma groupName_rejected (n : string) :
  negb (Js.truthy (Js.Str n)) || bool_decide (String.length (Js.trim n) = 0%nat) = true
  ↔ Js.trim n = "".
Proof.
  rewrite orb_true_iff, truthy_Str, negb_involutive, !bool_decide_eq_true. split.
  - intros [->|H]; [reflexivity|]. by destruct (Js.trim n).
  - intros H. right. by rewrite H.
Qed.

(** X4. [createGroupChat] fails with the name-required error exactly when
    the name is empty after trimming.  Otherwise it stores, under the new
    id, a group with the trimmed name and the given admin whose
    participants are the admin followed by the given ids, each listed
    once; the messages are untouched. *)
Theorem createGroupChat_spec (now : Z) (newId : string) (st : Store)
  (groupName adminId : string) (participantIds : list string) :
  (Js.trim groupName = "" →
     createGroupChat now newId st groupName adminId participantIds
     = Err GroupNameRequired) ∧
  (Js.trim groupName ≠ "" →
     ∃ room,
       createGroupChat now newId st groupName adminId participantIds
       = Ok ((newId, room), mkStore (<[newId := room]> (rooms st)) (messages st)) ∧
       type room = Group ∧ name room = Some (Js.trim groupName) ∧
       groupAdmin room = Some adminId ∧
       head (participants room) = Some adminId ∧
       NoDup (participants room) ∧
       (∀ x, x ∈ participants room ↔ x = adminId ∨ x ∈ participantIds)).
Proof.
  split.
  - intros Ht. unfold createGroupChat.
    by rewrite (proj2 (groupName_rejected groupName) Ht).
  - intros Ht. exists (newGroupRoom now groupName adminId participantIds).
    split.
    { unfold createGroupChat.
      destruct (negb _ || _) eqn:Hg; [|done].
      by apply groupName_rejected in Hg. }
    do 3 (split; [done|]). split; [done|]. cbn.
    split; [apply (dedup_first_NoDup [] (adminId :: participantIds))|].
    intros x. rewrite (dedup_first_spec [] (adminId :: participantIds)), elem_of_cons.
    split; [tauto|]. intros H. split; [done|]. apply not_elem_of_nil.
Qed.

Lemma createGroupChat_spec_witness :
  createGroupChat 5 "g1" ChatService.empty "   " "g" ["m1"] = Err GroupNameRequired
  ∧ ∃ room,
      createGroupChat 5 "g1" ChatService.empty " team " "g" ["m1"; "g"; "m1"]
      = Ok (("g1", room),
            mkStore (<["g1" := room]> (rooms ChatService.empty))
                    (messages ChatService.empty))
      ∧ participants room = ["g"; "m1"].
Proof.
  destruct (createGroupChat_spec 5 "g1" ChatService.empty "   " "g" ["m1"]) as [H1 _].
  destruct (createGroupChat_spec 5 "g1" ChatService.empty " team " "g" ["m1"; "g"; "m1"])
    as [_ H2].
  split; [by apply H1|].
  destruct H2 as (room & Hroom & _); [discriminate|].
  exists room. split; [exact Hroom|].
  vm_compute in Hroom. injection Hroom as <-. reflexivity.
Defined.

(** X5. [removeParticipant] in an existing room: removing somebody who is
    not listed leaves the whole store as it is, and removing the same
    participant a second time changes nothing more. *)
Theorem removeParticipant_idempotent (st : Store) (roomId participantId : string)
  (room : ChatRoom) :
  rooms st !! roomId = Some room →
  (participantId ∉ participants room →
     removeParticipant st roomId participantId = Ok st) ∧
  ∃ st', removeParticipant st roomId participantId = Ok st' ∧
         removeParticipant st' roomId participantId = Ok st'.
Proof.
  intros Hroom. unfold removeParticipant. rewrite Hroom, nonGroupGuard_false. split.
  - intros Hp. f_equal. apply updateRoom_id. intros r Hr.
    assert (r = room) as -> by congruence.
    apply set_participants_id. by apply arrayRemove_absent.
  - eexists. split; [done|]. cbn. rewrite lookup_alter_eq, Hroom. cbn.
    f_equal. unfold updateRoom. cbn. f_equal.
    rewrite alter_alter_eq. apply alter_ext. intros r _. cbn.
    rewrite set_participants_twice. unfold set_participants.
    by rewrite arrayRemove_idemp.
Qed.

Lemma removeParticipant_idempotent_witness :
  removeParticipant oneGroup "g1" "carol" = Ok oneGroup
  ∧ ∃ st', removeParticipant oneGroup "g1" "m1" = Ok st'
           ∧ removeParticipant st' "g1" "m1" = Ok st'.
Proof.
  destruct (removeParticipant_idempotent oneGroup "g1" "carol" groupRoom) as [H _];
    [reflexivity|].
  destruct (removeParticipant_idempotent oneGroup "g1" "m1" groupRoom) as [_ H'];
    [reflexivity|].
  split; [|exact H']. apply H.
  intros Hin. apply list_elem_of_In in Hin. cbn in Hin. intuition discriminate.
Defined.

(** X6. A member added by the admin and then removed: the store is again
    what it was before the two calls; and adding the same user a second
    time, instead of removing, fails with the already-member error. *)
Theorem addUserToGroup_then_remove (st : Store) (chatId adminId userId : string)
  (room : ChatRoom) :
  rooms st !! chatId = Some room → groupAdmin room = Some adminId →
  userId ∉ participants room →
  ∃ st1,
    addUserToGroup st chatId adminId userId = Ok st1 ∧
    removeParticipant st1 chatId userId = Ok st ∧
    addUserToGroup st1 chatId adminId userId = Err AlreadyInGroup.
Proof.
  intros Hroom Hadm Hu.
  assert (Hadd : addUserToGroup st chatId adminId userId
                 = Ok (updateRoom chatId
                         (set_participants (Firestore.arrayUnion userId)) st)).
  { unfold addUserToGroup, Js.includes. rewrite Hroom, Hadm. cbn.
    by rewrite bool_decide_eq_true_2, bool_decide_eq_false_2. }
  eexists. split; [exact Hadd|].
  assert (H1 : rooms (updateRoom chatId
                        (set_participants (Firestore.arrayUnion userId)) st)
               !! chatId
               = Some (set_participants (Firestore.arrayUnion userId) room)).
  { by apply updateRoom_lookup. }
  split.
  - unfold removeParticipant. rewrite H1, nonGroupGuard_false. f_equal.
    unfold updateRoom. cbn. rewrite alter_alter_eq.
    rewrite alter_id; [by destruct st|].
    intros r Hr. assert (r = room) as -> by congruence. cbn.
    rewrite set_participants_twice. apply set_participants_id.
    by apply arrayRemove_arrayUnion.
  - unfold addUserToGroup, Js.includes. rewrite H1. cbn. rewrite Hadm. cbn.
    rewrite bool_decide_eq_true_2 by done. cbn.
    rewrite bool_decide_eq_true_2; [done|].
    rewrite elem_of_arrayUnion. by right.
Qed.

Lemma addUserToGroup_then_remove_witness :
  ∃ st1,
    addUserToGroup oneGroup "g1" "g" "m2" = Ok st1 ∧
    removeParticipant st1 "g1" "m2" = Ok oneGroup ∧
    addUserToGroup st1 "g1" "g" "m2" = Err AlreadyInGroup.
Proof.
  apply (addUserToGroup_then_remove oneGroup "g1" "g" "m2" groupRoom).
  - reflexivity.
  - reflexivity.
  - intros Hin. apply list_elem_of_In in Hin. cbn in Hin. intuition discriminate.
Defined.

(** X7. [updateRoomDisplayName] checks, in this order, that both ids are
    non-empty, that the room exists, that it is private and that the user
    is one of its participants.  Only then does it succeed, and it then
    writes the user's own entry of [displayNames] and nothing else: the
    name the other participant chose is kept. *)
Theorem updateRoomDisplayName_spec (st : Store) (roomId userId dn : string) :
  (roomId = "" ∨ userId = "" →
     updateRoomDisplayName st roomId userId dn = Err IdsRequired) ∧
  (roomId ≠ "" → userId ≠ "" → rooms st !! roomId = None →
     updateRoomDisplayName st roomId userId dn = Err ChatRoomNotFound) ∧
  (∀ room, roomId ≠ "" → userId ≠ "" → rooms st !! roomId = Some room →
     (type room ≠ Private →
        updateRoomDisplayName st roomId userId dn = Err NotPrivateChat) ∧
     (type room = Private → userId ∉ participants room →
        updateRoomDisplayName st roomId userId dn = Err NotParticipant) ∧
     (type room = Private → userId ∈ participants room →
        ∃ st' room',
          updateRoomDisplayName st roomId userId dn = Ok st' ∧
          rooms st' !! roomId = Some room' ∧
          room' = set_displayNames (insert userId dn) room ∧
          displayNames room' !! userId = Some dn ∧
          (∀ v, v ≠ userId → displayNames room' !! v = displayNames room !! v) ∧
          (∀ j, j ≠ roomId → rooms st' !! j = rooms st !! j) ∧
          messages st' = messages st)).
Proof.
  unfold updateRoomDisplayName, Js.includes. rewrite !truthy_Str, !negb_involutive.
  split.
  { intros [->| ->]; [done|]. by rewrite orb_true_r. }
  split.
  { intros HR HU Hnone. by rewrite !bool_decide_eq_false_2, Hnone. }
  intros room HR HU Hroom. rewrite !bool_decide_eq_false_2 by done. cbn.
  rewrite Hroom. split; [|split].
  - intros Ht. by rewrite bool_decide_eq_false_2.
  - intros Ht Hu. rewrite bool_decide_eq_true_2 by done. cbn.
    by rewrite bool_decide_eq_false_2.
  - intros Ht Hu. rewrite !bool_decide_eq_true_2 by done. cbn.
    eexists _, _. split; [done|].
    split; [by apply updateRoom_lookup|]. split; [done|]. cbn.
    split; [by rewrite lookup_insert_eq|].
    split; [intros v Hv; by rewrite lookup_insert_ne|].
    split; [|done]. intros j Hj. by rewrite lookup_alter_ne.
Qed.

Lemma updateRoomDisplayName_spec_witness :
  updateRoomDisplayName onePrivate "r1" "" "Bobby" = Err IdsRequired
  ∧ updateRoomDisplayName oneGroup "g1" "g" "Team" = Err NotPrivateChat
  ∧ updateRoomDisplayName onePrivate "r1" "carol" "Bobby" = Err NotParticipant
  ∧ is_ok (updateRoomDisplayName onePrivate "r1" "alice" "Bobby") = true.
Proof.
  destruct (updateRoomDisplayName_spec onePrivate "r1" "" "Bobby") as [H1 _].
  destruct (updateRoomDisplayName_spec oneGroup "g1" "g" "Team") as (_ & _ & H2).
  destruct (updateRoomDisplayName_spec onePrivate "r1" "carol" "Bobby") as (_ & _ & H3).
  destruct (updateRoomDisplayName_spec onePrivate "r1" "alice" "Bobby") as (_ & _ & H4).
  split; [apply H1; by right|].
  split.
  { destruct (H2 groupRoom) as [H _]; [discriminate | discriminate | reflexivity |].
    apply H. discriminate. }
  split.
  { destruct (H3 privateRoom) as (_ & H & _);
      [discriminate | discriminate | reflexivity |].
    apply H; [reflexivity|].
    intros Hin. apply list_elem_of_In in Hin. cbn in Hin. intuition discriminate. }
  destruct (H4 privateRoom) as (_ & _ & H);
    [discriminate | discriminate | reflexivity |].
  destruct H as (st' & room' & -> & _); [reflexivity | | reflexivity].
  apply list_elem_of_In. cbn. tauto.
Defined.

(** X8. The room [createPrivateChat] returns is listed by
    [getDirectChats] for both users, and [getDirectChats] only ever lists
    stored private rooms in which the user participates, each once. *)
Theorem getDirectChats_lists_created (now : Z) (newId : string) (st : Store)
  (a b : string) :
  let first := createPrivateChat now newId st a b in
  first.1 ∈ getDirectChats first.2 a ∧
  first.1 ∈ getDirectChats first.2 b ∧
  ∀ st0 u, NoDup (getDirectChats st0 u).*1 ∧
    ∀ i r, (i, r) ∈ getDirectChats st0 u ↔
           rooms st0 !! i = Some r ∧ type r = Private ∧ u ∈ participants r.
Proof.
  assert (Hchar : ∀ st0 u i r, (i, r) ∈ getDirectChats st0 u ↔
            rooms st0 !! i = Some r ∧ type r = Private ∧ u ∈ participants r).
  { intros st0 u i r. unfold getDirectChats, Js.includes.
    rewrite list_elem_of_In, filter_In, <- list_elem_of_In, elem_of_map_to_list.
    cbn. rewrite andb_true_iff, !bool_decide_eq_true. tauto. }
  intros first.
  destruct (createPrivateChat_stored st now newId a b) as [Hstored (Ht & Ha & Hb)].
  fold first in Hstored, Ht, Ha, Hb.
  split; [destruct first.1; by apply Hchar|].
  split; [destruct first.1; by apply Hchar|].
  intros st0 u. split; [|apply Hchar].
  unfold getDirectChats.
  assert (Hnd : NoDup (map_to_list (rooms st0)).*1) by apply NoDup_fst_map_to_list.
  induction (map_to_list (rooms st0)) as [|d l IH]; cbn; [constructor|].
  apply NoDup_cons in Hnd as [Hd Hl].
  destruct (_ && _); cbn; [|by apply IH]. constructor; [|by apply IH].
  intros Hin. apply Hd. apply list_elem_of_fmap in Hin as (y & -> & Hy).
  apply list_elem_of_fmap. exists y. split; [done|].
  apply list_elem_of_In. apply list_elem_of_In in Hy. by apply filter_In in Hy as [? _].
Qed.

(** ** Sending, presence and reading, call after call *)

Lemma getUnreadCount_lookup (st : Store) (R P : string) (room : ChatRoom) :
  rooms st !! R = Some room →
  getUnreadCount st R P = default 0 (unreadCount room !! P).
Proof. intros H. unfold getUnreadCount. by rewrite H. Qed.

(** What a presence-aware send returns and leaves, in terms of the
    queries of the service. *)
Lemma presence_send_outcome (now : Z) (newId : string) (st : Store)
  (R S txt : string) (room : ChatRoom) :
  rooms st !! R = Some room → R ≠ "" → S ≠ "" → Js.trim txt ≠ "" →
  ∃ m st' room',
    Presence.sendMessage now newId st R S txt = Ok ((newId, m), st') ∧
    roomMessages st' R !! newId = Some m ∧
    rooms st' !! R = Some room' ∧
    activeUsers room' = activeUsers room ∧
    participants room' = participants room ∧
    (∀ P, readBy m !! P =
          if bool_decide (P ∈ participants room)
          then Some (presentOrSender (activeUsers room) S P) else None) ∧
    (∀ P, getUnreadCount st' R P =
          if bool_decide (P ∈ participants room)
          then (if presentOrSender (activeUsers room) S P then 0
                else getUnreadCount st R P + 1)
          else getUnreadCount st R P).
Proof.
  intros Hroom HR HS HT. unfold Presence.sendMessage.
  rewrite !truthy_Str, !negb_involutive, !bool_decide_eq_false_2 by done. cbn.
  rewrite Hroom. unfold Presence.computeReadBy.
  pose proof (fun P => presence_fold (activeUsers room) S P (participants room) (∅, ∅))
    as Hfold.
  destruct (foldl _ _ _) as [rb ws]. cbn in Hfold.
  eexists _, _, _. split; [done|].
  split. { rewrite roomMessages_updateRoom, roomMessages_setMessage.
           by rewrite lookup_insert_eq. }
  split. { by apply updateRoom_lookup. }
  split; [done|]. split; [done|]. split.
  - intros P. cbn. destruct (Hfold P) as [-> _]. by rewrite lookup_empty.
  - intros P. rewrite (getUnreadCount_lookup st R P room Hroom).
    erewrite getUnreadCount_lookup by (by apply updateRoom_lookup). cbn.
    rewrite applyNumWrites_lookup. destruct (Hfold P) as [_ ->].
    rewrite lookup_empty. case_bool_decide; [|done].
    by destruct (presentOrSender _ _ _).
Qed.

(** The same for the first variant. *)
Lemma simple_send_outcome (now : Z) (newId : string) (st : Store)
  (R S txt : string) (room : ChatRoom) :
  rooms st !! R = Some room →
  ∃ m st' room',
    Simple.sendMessage now newId st R S txt = Ok (newId, st') ∧
    roomMessages st' R !! newId = Some m ∧ text m = txt ∧
    rooms st' !! R = Some room' ∧
    participants room' = participants room ∧
    (∀ P, readBy m !! P =
          if bool_decide (P ∈ participants room)
          then Some (bool_decide (P = S)) else None) ∧
    (∀ P, getUnreadCount st' R P =
          if bool_decide (P ∈ participants room) && negb (bool_decide (P = S))
          then getUnreadCount st R P + 1
          else getUnreadCount st R P).
Proof.
  intros Hroom. unfold Simple.sendMessage. rewrite Hroom.
  eexists _, _, _. split; [done|].
  split. { rewrite roomMessages_updateRoom, roomMessages_setMessage.
           by rewrite lookup_insert_eq. }
  split; [done|].
  split. { by apply updateRoom_lookup. }
  split; [done|]. split.
  - intros P. cbn. apply simple_readBy_lookup.
  - intros P. rewrite (getUnreadCount_lookup st R P room Hroom).
    erewrite getUnreadCount_lookup by (by apply updateRoom_lookup). cbn.
    rewrite applyNumWrites_lookup, simple_writes_lookup.
    by destruct (_ && _).
Qed.

(** X9. Presence decides delivery: after [updateUserPresence] for a
    participant with flag [b], a presence-aware message from somebody else
    is stored as read by that participant exactly when [b] is [true]; the
    participant's unread count is then 0 if [b] is [true] and one more
    than before otherwise. *)
Theorem presence_decides_delivery (now : Z) (newId : string) (st : Store)
  (R S P txt : string) (b : bool) (room : ChatRoom) :
  rooms st !! R = Some room → P ∈ participants room → P ≠ S →
  R ≠ "" → S ≠ "" → Js.trim txt ≠ "" →
  ∃ st1 m st2,
    updateUserPresence st R P b = Ok st1 ∧
    Presence.sendMessage now newId st1 R S txt = Ok ((newId, m), st2) ∧
    readBy m !! P = Some b ∧
    getUnreadCount st2 R P = if b then 0 else getUnreadCount st R P + 1.
Proof.
  intros Hroom HP HPS HR HS HT.
  assert (H1 : rooms (updateRoom R (set_activeUsers (insert P b)) st) !! R
               = Some (set_activeUsers (insert P b) room)).
  { by apply updateRoom_lookup. }
  destruct (presence_send_outcome now newId _ R S txt _ H1 HR HS HT)
    as (m & st2 & room2 & Hsend & _ & _ & _ & _ & Hrb & Hcount).
  exists (updateRoom R (set_activeUsers (insert P b)) st), m, st2.
  split. { unfold updateUserPresence. by rewrite Hroom. }
  split; [done|].
  assert (Hflag : presentOrSender (<[P := b]> (activeUsers room)) S P = b).
  { unfold presentOrSender. rewrite lookup_insert_eq.
    rewrite (bool_decide_eq_false_2 (P = S)) by done. rewrite orb_false_r.
    by destruct b. }
  split.
  - rewrite Hrb. cbn. rewrite bool_decide_eq_true_2 by done. by rewrite Hflag.
  - rewrite Hcount. cbn. rewrite bool_decide_eq_true_2 by done. rewrite Hflag.
    destruct b; [done|].
    by rewrite (getUnreadCount_lookup _ R P _ H1), (getUnreadCount_lookup st R P room Hroom).
Qed.

Lemma presence_decides_delivery_witness :
  ∃ st1 m st2,
    updateUserPresence onePrivate "r1" "bob" true = Ok st1 ∧
    Presence.sendMessage 200 "m1" st1 "r1" "alice" "hi" = Ok (("m1", m), st2) ∧
    readBy m !! "bob" = Some true ∧
    getUnreadCount st2 "r1" "bob" = if true then 0 else getUnreadCount onePrivate "r1" "bob" + 1.
Proof.
  apply (presence_decides_delivery 200 "m1" onePrivate "r1" "alice" "bob" "hi" true
           privateRoom); try discriminate.
  - reflexivity.
  - apply list_elem_of_In. cbn. tauto.
Defined.

(** X10. Reading marks the reader as present: after the presence-aware
    [markMessagesAsRead] for a participant, the next presence-aware
    message from somebody else is stored as already read by that
    participant and the participant's unread count stays 0, although
    [updateUserPresence] was never called. *)
Theorem reading_implies_present (now : Z) (newId : string) (st : Store)
  (R S X txt : string) (room : ChatRoom) :
  rooms st !! R = Some room → X ∈ participants room → X ≠ S →
  R ≠ "" → S ≠ "" → Js.trim txt ≠ "" →
  ∃ st1 m st2,
    Presence.markMessagesAsRead st R X = Ok st1 ∧
    Presence.sendMessage now newId st1 R S txt = Ok ((newId, m), st2) ∧
    readBy m !! X = Some true ∧
    getUnreadCount st1 R X = 0 ∧ getUnreadCount st2 R X = 0.
Proof.
  intros Hroom HX HXS HR HS HT.
  set (st1 := mkStore
         (alter (fun r => set_activeUsers (insert X true) (resetUnread X r)) R (rooms st))
         (alter (fmap (markRead (Presence.unreadQuery X) X)) R (messages st))).
  assert (H1 : rooms st1 !! R
               = Some (set_activeUsers (insert X true) (resetUnread X room))).
  { unfold st1. cbn. by rewrite lookup_alter_eq, Hroom. }
  destruct (presence_send_outcome now newId st1 R S txt _ H1 HR HS HT)
    as (m & st2 & room2 & Hsend & _ & _ & _ & _ & Hrb & Hcount).
  exists st1, m, st2.
  split. { unfold Presence.markMessagesAsRead. by rewrite Hroom. }
  split; [done|].
  assert (Hflag : presentOrSender (<[X := true]> (activeUsers room)) S X = true).
  { unfold presentOrSender. by rewrite lookup_insert_eq, bool_decide_eq_true_2. }
  split; [|split].
  - rewrite Hrb. cbn. rewrite bool_decide_eq_true_2 by done. cbn in Hflag.
    by rewrite Hflag.
  - rewrite (getUnreadCount_lookup st1 R X _ H1). cbn. by rewrite lookup_insert_eq.
  - rewrite Hcount. cbn. rewrite bool_decide_eq_true_2 by done. cbn in Hflag.
    by rewrite Hflag.
Qed.

Lemma reading_implies_present_witness :
  ∃ st1 m st2,
    Presence.markMessagesAsRead onePrivate "r1" "bob" = Ok st1 ∧
    Presence.sendMessage 200 "m1" st1 "r1" "alice" "hi" = Ok (("m1", m), st2) ∧
    readBy m !! "bob" = Some true ∧
    getUnreadCount st1 "r1" "bob" = 0 ∧ getUnreadCount st2 "r1" "bob" = 0.
Proof.
  apply (reading_implies_present 200 "m1" onePrivate "r1" "alice" "bob" "hi"
           privateRoom); try discriminate.
  - reflexivity.
  - apply list_elem_of_In. cbn. tauto.
Defined.

Lemma roomMessages_alter_lookup (rs : gmap string ChatRoom) (st : Store)
  (R i : string) (f : Message → Message) :
  roomMessages (mkStore rs (alter (fmap f) R (messages st))) R !! i
  = f <$> roomMessages st R !! i.
Proof. rewrite roomMessages_alter, lookup_fmap. by destruct st. Qed.

(** X11. A message of the first variant and then [markMessagesAsRead] by
    a recipient: the message is stored unread for the recipient with one
    more unread message counted; after the recipient's call the message
    is read by the recipient and the count is 0. *)
Theorem send_then_read (now : Z) (newId : string) (st : Store)
  (R S P txt : string) (room : ChatRoom) :
  rooms st !! R = Some room → P ∈ participants room → P ≠ S →
  ∃ m st1 st2 m',
    Simple.sendMessage now newId st R S txt = Ok (newId, st1) ∧
    roomMessages st1 R !! newId = Some m ∧
    readBy m !! P = Some false ∧
    getUnreadCount st1 R P = getUnreadCount st R P + 1 ∧
    Simple.markMessagesAsRead st1 R P = Ok st2 ∧
    roomMessages st2 R !! newId = Some m' ∧
    readBy m' !! P = Some true ∧ text m' = txt ∧
    getUnreadCount st2 R P = 0.
Proof.
  intros Hroom HP HPS.
  destruct (simple_send_outcome now newId st R S txt room Hroom)
    as (m & st1 & room1 & Hsend & Hm & Htxt & Hroom1 & _ & Hrb & Hcount).
  assert (HmP : readBy m !! P = Some false).
  { by rewrite Hrb, bool_decide_eq_true_2, bool_decide_eq_false_2. }
  eexists m, st1, _, (markedRead P m).
  split; [done|]. split; [done|]. split; [done|].
  split.
  { rewrite Hcount, bool_decide_eq_true_2, bool_decide_eq_false_2 by done. done. }
  split. { unfold Simple.markMessagesAsRead. by rewrite Hroom1. }
  split.
  { by rewrite roomMessages_alter_lookup, Hm. }
  split. { by apply markedRead_cases. }
  split.
  { unfold markedRead, markRead. by destruct (Simple.unreadQuery P m). }
  erewrite getUnreadCount_lookup.
  2: { cbn. by rewrite lookup_alter_eq, Hroom1. }
  cbn. by rewrite lookup_insert_eq.
Qed.

Lemma send_then_read_witness :
  ∃ m st1 st2 m',
    Simple.sendMessage 200 "m1" onePrivate "r1" "alice" "hello" = Ok ("m1", st1) ∧
    roomMessages st1 "r1" !! "m1" = Some m ∧
    readBy m !! "bob" = Some false ∧
    getUnreadCount st1 "r1" "bob" = getUnreadCount onePrivate "r1" "bob" + 1 ∧
    Simple.markMessagesAsRead st1 "r1" "bob" = Ok st2 ∧
    roomMessages st2 "r1" !! "m1" = Some m' ∧
    readBy m' !! "bob" = Some true ∧ text m' = "hello" ∧
    getUnreadCount st2 "r1" "bob" = 0.
Proof.
  apply (send_then_read 200 "m1" onePrivate "r1" "alice" "bob" "hello" privateRoom).
  - reflexivity.
  - apply list_elem_of_In. cbn. tauto.
  - discriminate.
Defined.

(** X12. Neither variant checks that the sender belongs to the room.  A
    message from a user who is not a participant is accepted by the first
    variant: it is stored without a [readBy] entry for its sender, unread
    for every participant, and every participant's unread count goes up
    by one. *)
Theorem outsider_can_send (now : Z) (newId : string) (st : Store)
  (R S txt : string) (room : ChatRoom) :
  rooms st !! R = Some room → S ∉ participants room →
  ∃ m st',
    Simple.sendMessage now newId st R S txt = Ok (newId, st') ∧
    roomMessages st' R !! newId = Some m ∧
    readBy m !! S = None ∧
    (∀ P, P ∈ participants room →
          readBy m !! P = Some false ∧
          getUnreadCount st' R P = getUnreadCount st R P + 1).
Proof.
  intros Hroom HS.
  destruct (simple_send_outcome now newId st R S txt room Hroom)
    as (m & st1 & room1 & Hsend & Hm & _ & _ & _ & Hrb & Hcount).
  exists m, st1. split; [done|]. split; [done|].
  split. { by rewrite Hrb, bool_decide_eq_false_2. }
  intros P HP. assert (P ≠ S) by congruence.
  rewrite Hrb, Hcount, bool_decide_eq_true_2, bool_decide_eq_false_2 by done.
  done.
Qed.

Lemma outsider_can_send_witness :
  ∃ m st',
    Simple.sendMessage 200 "m1" onePrivate "r1" "mallory" "hi" = Ok ("m1", st') ∧
    roomMessages st' "r1" !! "m1" = Some m ∧
    readBy m !! "mallory" = None ∧
    (∀ P, P ∈ participants privateRoom →
          readBy m !! P = Some false ∧
          getUnreadCount st' "r1" P = getUnreadCount onePrivate "r1" P + 1).
Proof.
  apply (outsider_can_send 200 "m1" onePrivate "r1" "mallory" "hi" privateRoom).
  - reflexivity.
  - intros Hin. apply list_elem_of_In in Hin. cbn in Hin. intuition discriminate.
Defined.

(** ** What reading changes and what it leaves *)

Lemma markRead_frame (q : Message → bool) (X : string) (m : Message) :
  text (markRead q X m) = text m ∧ senderId (markRead q X m) = senderId m ∧
  timestamp (markRead q X m) = timestamp m ∧
  (∀ Y, Y ≠ X → readBy (markRead q X m) !! Y = readBy m !! Y) ∧
  (∀ Y, readBy m !! Y = Some true → readBy (markRead q X m) !! Y = Some true).
Proof.
  unfold markRead. destruct (q m); cbn; [|done].
  do 3 (split; [done|]). split.
  - intros Y HY. by rewrite lookup_insert_ne.
  - intros Y HY. destruct (decide (X = Y)) as [->|Hne].
    + by rewrite lookup_insert_eq.
    + by rewrite lookup_insert_ne.
Qed.

(** X13. [markMessagesAsRead] for a user, in either variant, only flips
    that user's receipts: it adds and removes no message, keeps the text,
    sender and time of every message and the receipts of every other
    user, never turns a receipt that is [true] into something else, keeps
    the unread count of every other user, the participants, the type and
    the admin of the room, and touches no other room. *)
Theorem markMessagesAsRead_frame (st st' : Store) (R X : string) :
  Simple.markMessagesAsRead st R X = Ok st'
  ∨ Presence.markMessagesAsRead st R X = Ok st' →
  (∀ R', R' ≠ R →
         roomMessages st' R' = roomMessages st R' ∧ rooms st' !! R' = rooms st !! R') ∧
  (∀ i, is_Some (roomMessages st' R !! i) ↔ is_Some (roomMessages st R !! i)) ∧
  (∀ i m m', roomMessages st R !! i = Some m → roomMessages st' R !! i = Some m' →
     text m' = text m ∧ senderId m' = senderId m ∧ timestamp m' = timestamp m ∧
     (∀ Y, Y ≠ X → readBy m' !! Y = readBy m !! Y) ∧
     (∀ Y, readBy m !! Y = Some true → readBy m' !! Y = Some true)) ∧
  (∀ Y, Y ≠ X → getUnreadCount st' R Y = getUnreadCount st R Y) ∧
  (∀ room room', rooms st !! R = Some room → rooms st' !! R = Some room' →
     participants room' = participants room ∧ type room' = type room ∧
     groupAdmin room' = groupAdmin room).
Proof.
  intros Hmark.
  assert (Hshape : ∃ (f : ChatRoom → ChatRoom) (g : Message → Message) room,
            rooms st !! R = Some room ∧
            st' = mkStore (alter f R (rooms st)) (alter (fmap g) R (messages st)) ∧
            (∀ r, participants (f r) = participants r ∧ type (f r) = type r ∧
                  groupAdmin (f r) = groupAdmin r ∧
                  ∀ Y, Y ≠ X → unreadCount (f r) !! Y = unreadCount r !! Y) ∧
            (∃ q, g = markRead q X)).
  { destruct Hmark as [H|H].
    - unfold Simple.markMessagesAsRead in H.
      destruct (rooms st !! R) as [room|] eqn:Hroom; [|done]. injection H as <-.
      eexists _, _, room. split; [done|]. split; [done|]. split; [|by eexists].
      intros r. cbn. do 3 (split; [done|]). intros Y HY. by rewrite lookup_insert_ne.
    - unfold Presence.markMessagesAsRead in H.
      destruct (rooms st !! R) as [room|] eqn:Hroom; [|done]. injection H as <-.
      eexists _, _, room. split; [done|]. split; [done|]. split; [|by eexists].
      intros r. cbn. do 3 (split; [done|]). intros Y HY. by rewrite lookup_insert_ne. }
  destruct Hshape as (f & g & room & Hroom & -> & Hf & q & ->).
  split.
  { intros R' HR'. split.
    - unfold roomMessages. cbn. by rewrite lookup_alter_ne.
    - cbn. by rewrite lookup_alter_ne. }
  split.
  { intros i. rewrite roomMessages_alter_lookup. by rewrite fmap_is_Some. }
  split.
  { intros i m m' Hm. rewrite roomMessages_alter_lookup, Hm. cbn. intros [= <-].
    apply markRead_frame. }
  split.
  { intros Y HY. rewrite (getUnreadCount_lookup st R Y room Hroom).
    erewrite getUnreadCount_lookup by (cbn; by rewrite lookup_alter_eq, Hroom).
    destruct (Hf room) as (_ & _ & _ & Hu). by rewrite Hu. }
  intros r r' Hr. cbn. rewrite lookup_alter_eq, Hr. cbn. intros [= <-].
  destruct (Hf r) as (? & ? & ? & _). done.
Qed.

Lemma markMessagesAsRead_frame_witness :
  ∃ st', Simple.markMessagesAsRead twoFromBob "r1" "alice" = Ok st' ∧
         getUnreadCount st' "r1" "bob" = getUnreadCount twoFromBob "r1" "bob".
Proof.
  eexists. split; [reflexivity|].
  eapply (markMessagesAsRead_frame twoFromBob _ "r1" "alice").
  - left. reflexivity.
  - discriminate.
Defined.

Lemma markRead_eq (q : Message → bool) (X : string) (m : Message) :
  markRead q X m =
  if q m
  then mkMessage (text m) (senderId m) (timestamp m) (<[X := true]> (readBy m))
  else m.
Proof. reflexivity. Qed.

Lemma unreadQuery_markedRead (X Y : string) (m : Message) :
  X ≠ Y → Simple.unreadQuery Y (markedRead X m) = Simple.unreadQuery Y m.
Proof.
  intros Hne. unfold Simple.unreadQuery, markedRead.
  destruct (markRead_frame (Simple.unreadQuery X) X m) as (_ & _ & _ & H & _).
  by rewrite (H Y).
Qed.

Lemma markedRead_commute (X Y : string) (m : Message) :
  markedRead Y (markedRead X m) = markedRead X (markedRead Y m).
Proof.
  destruct (decide (X = Y)) as [->|Hne]; [done|].
  pose proof (unreadQuery_markedRead X Y m Hne) as HqY.
  pose proof (unreadQuery_markedRead Y X m (not_eq_sym Hne)) as HqX.
  unfold markedRead in *.
  rewrite (markRead_eq _ Y (markRead _ X m)), (markRead_eq _ X (markRead _ Y m)).
  rewrite HqY, HqX. unfold markRead.
  destruct (Simple.unreadQuery X m), (Simple.unreadQuery Y m); cbn; try done.
  f_equal. by apply insert_insert_ne.
Qed.

Lemma markLastRead_commute (X Y : string) (lm : option LastMessage) :
  markLastRead Y (markLastRead X lm) = markLastRead X (markLastRead Y lm).
Proof.
  destruct (decide (X = Y)) as [->|Hne]; [done|].
  destruct lm as [l|]; cbn; do 2 f_equal.
  - by apply insert_insert_ne.
  - rewrite <- !insert_empty. by apply insert_insert_ne.
Qed.

Lemma resetUnread_commute (X Y : string) (r : ChatRoom) :
  resetUnread Y (resetUnread X r) = resetUnread X (resetUnread Y r).
Proof.
  destruct (decide (X = Y)) as [->|Hne]; [done|].
  unfold resetUnread, set_lastMessage, set_unreadCount. cbn.
  by rewrite markLastRead_commute, (insert_insert_ne _ X Y).
Qed.

Lemma alter_commute_same {A} (f g : A → A) (k : string) (m : gmap string A) :
  (∀ x, g (f x) = f (g x)) → alter g k (alter f k m) = alter f k (alter g k m).
Proof.
  intros H. rewrite !alter_alter_eq. apply alter_ext. intros x _. apply H.
Qed.

(** X14. Reading by two users commutes: in an existing room, the calls of
    [markMessagesAsRead] for [X] and then for [Y] leave exactly the store
    that the calls for [Y] and then for [X] leave, for each variant. *)
Theorem markMessagesAsRead_commute (st : Store) (R X Y : string) (room : ChatRoom) :
  rooms st !! R = Some room →
  (∃ sx sy sxy,
     Simple.markMessagesAsRead st R X = Ok sx ∧
     Simple.markMessagesAsRead st R Y = Ok sy ∧
     Simple.markMessagesAsRead sx R Y = Ok sxy ∧
     Simple.markMessagesAsRead sy R X = Ok sxy) ∧
  (∃ sx sy sxy,
     Presence.markMessagesAsRead st R X = Ok sx ∧
     Presence.markMessagesAsRead st R Y = Ok sy ∧
     Presence.markMessagesAsRead sx R Y = Ok sxy ∧
     Presence.markMessagesAsRead sy R X = Ok sxy).
Proof.
  intros Hroom.
  assert (Hmsgs : ∀ ms : gmap string (gmap string Message),
            alter (fmap (markedRead Y)) R (alter (fmap (markedRead X)) R ms)
            = alter (fmap (markedRead X)) R (alter (fmap (markedRead Y)) R ms)).
  { intros ms. apply alter_commute_same. intros msgs.
    rewrite <- !map_fmap_compose. apply map_fmap_ext. intros i m _. cbn.
    apply markedRead_commute. }
  assert (Hq : ∀ U (ms : gmap string (gmap string Message)),
            alter (fmap (markRead (Presence.unreadQuery U) U)) R ms
            = alter (fmap (markedRead U)) R ms).
  { intros U ms. apply alter_ext. intros msgs _. apply map_fmap_ext.
    intros i m _. unfold markedRead, markRead. by rewrite unreadQuery_agree. }
  split.
  - eexists _, _, _. unfold Simple.markMessagesAsRead. rewrite Hroom.
    split; [done|]. split; [done|]. cbn. rewrite !lookup_alter_eq, Hroom. cbn.
    split; [done|]. f_equal. f_equal.
    + apply alter_commute_same. intros r. apply resetUnread_commute.
    + symmetry. apply Hmsgs.
  - eexists _, _, _. unfold Presence.markMessagesAsRead. rewrite Hroom.
    split; [done|]. split; [done|]. cbn. rewrite !lookup_alter_eq, Hroom. cbn.
    split; [done|]. f_equal. f_equal.
    + apply alter_commute_same. intros r.
      destruct (decide (X = Y)) as [->|Hne]; [done|].
      unfold set_activeUsers, resetUnread, set_lastMessage, set_unreadCount. cbn.
      rewrite (markLastRead_commute X Y).
      by rewrite (insert_insert_ne (unreadCount r) X Y),
                 (insert_insert_ne (activeUsers r) X Y).
    + rewrite !Hq. symmetry. apply Hmsgs.
Qed.

Lemma markMessagesAsRead_commute_witness :
  ∃ sx sy sxy,
    Simple.markMessagesAsRead twoFromBob "r1" "alice" = Ok sx ∧
    Simple.markMessagesAsRead twoFromBob "r1" "bob" = Ok sy ∧
    Simple.markMessagesAsRead sx "r1" "bob" = Ok sxy ∧
    Simple.markMessagesAsRead sy "r1" "alice" = Ok sxy.
Proof.
  eapply (markMessagesAsRead_commute twoFromBob "r1" "alice" "bob").
  vm_compute. reflexivity.
Defined.

(** ** Withdrawing requests and ending friendships *)

Lemma set_relations_restore (p : UserProfile) f :
  set_relations (friendRequests p) (friends p) (set_sent f p) = p
  ∧ set_relations (friendRequests p) (friends p) (set_received f p) = p.
Proof. by destruct p as [? ? ? ? ? ? ? ? ? []]. Qed.

Lemma set_friendRequests_restore (p : UserProfile) f :
  set_friendRequests (friendRequests p) (set_sent f p) = p
  ∧ set_friendRequests (friendRequests p) (set_received f p) = p.
Proof. by destruct p as [? ? ? ? ? ? ? ? ? []]. Qed.

Lemma set_friendRequests_same (p : UserProfile) :
  set_friendRequests (friendRequests p) p = p.
Proof. by destruct p. Qed.

Lemma FriendRequests_eta (fr : FriendRequests) :
  mkFriendRequests (sent fr) (received fr) = fr.
Proof. by destruct fr. Qed.

(** Two updates of existing documents, one after the other. *)
Lemma updateDoc_twice (users : gmap string UserProfile) (i j : string) f g p q :
  users !! i = Some p → users !! j = Some q →
  (users1 ← updateDoc i f users; updateDoc j g users1)
  = Ok (alter g j (alter f i users)).
Proof.
  intros Hi Hj. rewrite (updateDoc_Some _ _ _ _ Hi). cbn.
  unfold updateDoc. destruct (decide (i = j)) as [->|Hne].
  - by rewrite lookup_alter_eq, Hi.
  - by rewrite lookup_alter_ne, Hj.
Qed.

(** What [acceptFriendRequest] writes when the request is there. *)
Lemma acceptFriendRequest_pending (users : gmap string UserProfile)
  (userId friendId : string) (pu pf : UserProfile) :
  users !! userId = Some pu → users !! friendId = Some pf →
  friendId ∈ received (friendRequests pu) →
  acceptFriendRequest users userId friendId =
    Ok (alter (set_relations
                 (mkFriendRequests (without userId (sent (friendRequests pf)))
                    (received (friendRequests pf)))
                 (friends pf ++ [userId])) friendId
          (alter (set_relations
                    (mkFriendRequests (sent (friendRequests pu))
                       (without friendId (received (friendRequests pu))))
                    (friends pu ++ [friendId])) userId users)).
Proof.
  intros Hu Hf Hin. unfold acceptFriendRequest, Js.includes. rewrite Hu, Hf.
  rewrite bool_decide_eq_true_2 by done. cbn.
  by apply (updateDoc_twice users userId friendId _ _ pu pf).
Qed.

(** The directory after a request from [A] to [B], profile by profile. *)
Lemma sendFriendRequest_lookup (users : gmap string UserProfile) (A B : string)
  (pa pb : UserProfile) :
  A ≠ B → users !! A = Some pa → users !! B = Some pb →
  let users1 := alter (set_received (fun l => l ++ [A])) B
                  (alter (set_sent (fun l => l ++ [B])) A users) in
  users1 !! A = Some (set_sent (fun l => l ++ [B]) pa) ∧
  users1 !! B = Some (set_received (fun l => l ++ [A]) pb) ∧
  ∀ j, j ≠ A → j ≠ B → users1 !! j = users !! j.
Proof.
  intros Hne Ha Hb users1. unfold users1. split; [|split].
  - by rewrite lookup_alter_ne, lookup_alter_eq, Ha.
  - by rewrite lookup_alter_eq, lookup_alter_ne, Hb.
  - intros j HA HB. by rewrite !lookup_alter_ne.
Qed.

(** X15. Either end can withdraw a pending request.  After a request from
    [A] to [B] between two distinct profiles that had no edge in this
    direction and were not friends, [removeFriendRequest A B "sent"] (the
    sender cancels) and [removeFriendRequest B A "received"] (the receiver
    rejects) both succeed and both give back exactly the directory from
    before the request; nobody became a friend. *)
Theorem request_withdrawn (users : gmap string UserProfile) (A B : string)
  (pa pb : UserProfile) :
  A ≠ B → users !! A = Some pa → users !! B = Some pb →
  ¬ befriended pa pb A B → ¬ requested pa pb A B →
  ∃ users1,
    sendFriendRequest users A B = Ok users1 ∧
    removeFriendRequest users1 A B DirSent = Ok users ∧
    removeFriendRequest users1 B A DirReceived = Ok users.
Proof.
  intros Hne Ha Hb Hf Hq.
  pose proof (sendFriendRequest_fresh users A B pa pb Ha Hb Hf Hq) as Hsend.
  destruct (sendFriendRequest_lookup users A B pa pb Hne Ha Hb) as (H1A & H1B & Hother).
  eexists. split; [exact Hsend|].
  unfold requested in Hq.
  assert (HsA : B ∉ sent (friendRequests pa)) by tauto.
  assert (HrB : A ∉ received (friendRequests pb)) by tauto.
  assert (Hback : ∀ users2 : gmap string UserProfile,
            users2 !! A = Some pa → users2 !! B = Some pb →
            (∀ j, j ≠ A → j ≠ B → users2 !! j = users !! j) → users2 = users).
  { intros users2 H2A H2B H2o. apply map_eq. intros j.
    destruct (decide (j = A)) as [->|HjA]; [congruence|].
    destruct (decide (j = B)) as [->|HjB]; [congruence|]. by apply H2o. }
  split.
  - unfold removeFriendRequest. rewrite H1A, H1B.
    rewrite (updateDoc_twice _ A B _ _ _ _ H1A H1B). f_equal.
    apply Hback.
    + rewrite lookup_alter_ne, lookup_alter_eq, H1A by done. cbn.
      rewrite without_snoc by done. f_equal.
      by destruct pa as [? ? ? ? ? ? ? ? ? []].
    + rewrite lookup_alter_eq, lookup_alter_ne, H1B by done. cbn.
      rewrite without_snoc by done. f_equal.
      by destruct pb as [? ? ? ? ? ? ? ? ? []].
    + intros j HjA HjB. by rewrite !lookup_alter_ne.
  - unfold removeFriendRequest. rewrite H1A, H1B.
    rewrite (updateDoc_twice _ B A _ _ _ _ H1B H1A). f_equal.
    apply Hback.
    + rewrite lookup_alter_eq, lookup_alter_ne, H1A by done. cbn.
      rewrite without_snoc by done. f_equal.
      by destruct pa as [? ? ? ? ? ? ? ? ? []].
    + rewrite lookup_alter_ne, lookup_alter_eq, H1B by done. cbn.
      rewrite without_snoc by done. f_equal.
      by destruct pb as [? ? ? ? ? ? ? ? ? []].
    + intros j HjA HjB. by rewrite !lookup_alter_ne.
Qed.

Lemma request_withdrawn_witness :
  ∃ users1,
    sendFriendRequest strangers "alice" "bob" = Ok users1 ∧
    removeFriendRequest users1 "alice" "bob" DirSent = Ok strangers ∧
    removeFriendRequest users1 "bob" "alice" DirReceived = Ok strangers.
Proof.
  apply (request_withdrawn strangers "alice" "bob" (blank "alice") (blank "bob")).
  - discriminate.
  - reflexivity.
  - reflexivity.
  - intros [H|H]; apply list_elem_of_In in H; destruct H.
  - intros [H|H]; apply list_elem_of_In in H; destruct H.
Defined.

(** X16. The direction given to [removeFriendRequest] matters.  After a
    request from [A] to [B], with no request pending from [B] to [A], the
    call [removeFriendRequest A B "received"] by the sender succeeds but
    removes nothing: the request is still pending at both ends. *)
Theorem wrong_direction_keeps_request (users : gmap string UserProfile)
  (A B : string) (pa pb : UserProfile) :
  A ≠ B → users !! A = Some pa → users !! B = Some pb →
  ¬ befriended pa pb A B → ¬ requested pa pb A B →
  B ∉ received (friendRequests pa) → A ∉ sent (friendRequests pb) →
  ∃ users1 pa1 pb1,
    sendFriendRequest users A B = Ok users1 ∧
    removeFriendRequest users1 A B DirReceived = Ok users1 ∧
    users1 !! A = Some pa1 ∧ users1 !! B = Some pb1 ∧
    B ∈ sent (friendRequests pa1) ∧ A ∈ received (friendRequests pb1).
Proof.
  intros Hne Ha Hb Hf Hq HrA HsB.
  pose proof (sendFriendRequest_fresh users A B pa pb Ha Hb Hf Hq) as Hsend.
  destruct (sendFriendRequest_lookup users A B pa pb Hne Ha Hb) as (H1A & H1B & Hother).
  eexists _, _, _. split; [exact Hsend|]. split; [|split; [exact H1A|split; [exact H1B|]]].
  - unfold removeFriendRequest. rewrite H1A, H1B.
    rewrite (updateDoc_twice _ A B _ _ _ _ H1A H1B). f_equal.
    rewrite (alter_id _ _ A); [rewrite (alter_id _ _ B); [done|] |].
    + intros p Hp. assert (p = set_received (fun l => l ++ [A]) pb) as -> by congruence.
      cbn. rewrite without_absent by done.
      by destruct pb as [? ? ? ? ? ? ? ? ? []].
    + intros p Hp. assert (p = set_sent (fun l => l ++ [B]) pa) as -> by congruence.
      cbn. rewrite without_absent by done.
      by destruct pa as [? ? ? ? ? ? ? ? ? []].
  - cbn. rewrite !elem_of_app, !list_elem_of_singleton. tauto.
Qed.

Lemma wrong_direction_keeps_request_witness :
  ∃ users1 pa1 pb1,
    sendFriendRequest strangers "alice" "bob" = Ok users1 ∧
    removeFriendRequest users1 "alice" "bob" DirReceived = Ok users1 ∧
    users1 !! "alice" = Some pa1 ∧ users1 !! "bob" = Some pb1 ∧
    "bob" ∈ sent (friendRequests pa1) ∧ "alice" ∈ received (friendRequests pb1).
Proof.
  apply (wrong_direction_keeps_request strangers "alice" "bob" (blank "alice") (blank "bob")).
  - discriminate.
  - reflexivity.
  - reflexivity.
  - intros [H|H]; apply list_elem_of_In in H; destruct H.
  - intros [H|H]; apply list_elem_of_In in H; destruct H.
  - apply not_elem_of_nil.
  - apply not_elem_of_nil.
Defined.

(** X17. A request is sent once: after a successful [sendFriendRequest],
    the same call again fails with the already-requested error, also when
    sender and receiver are the same profile. *)
Theorem sendFriendRequest_twice (users users1 : gmap string UserProfile)
  (senderId receiverId : string) :
  sendFriendRequest users senderId receiverId = Ok users1 →
  sendFriendRequest users1 senderId receiverId = Err RequestAlreadySent.
Proof.
  unfold sendFriendRequest at 1, Js.includes.
  destruct (users !! senderId) as [ps|] eqn:Hs; [|done].
  destruct (users !! receiverId) as [pr|] eqn:Hr; [|done].
  case_bool_decide as Hf1; [done|]. case_bool_decide as Hf2; [done|]. cbn.
  destruct (_ || _); [done|].
  rewrite (updateDoc_twice users senderId receiverId _ _ ps pr Hs Hr).
  intros [= <-]. unfold sendFriendRequest, Js.includes.
  destruct (decide (senderId = receiverId)) as [->|Hne].
  - rewrite !lookup_alter_eq, Hr. cbn.
    rewrite !bool_decide_eq_false_2 by done. cbn.
    rewrite bool_decide_eq_true_2; [done|].
    rewrite elem_of_arrayUnion. by right.
  - rewrite (lookup_alter_ne _ _ receiverId senderId), lookup_alter_eq, Hs by done.
    rewrite lookup_alter_eq, lookup_alter_ne, Hr by done. cbn.
    rewrite !bool_decide_eq_false_2 by done. cbn.
    rewrite bool_decide_eq_true_2; [done|].
    rewrite elem_of_arrayUnion. by right.
Qed.

Lemma sendFriendRequest_twice_witness :
  sendFriendRequest pendingFromBob "bob" "alice" = Err RequestAlreadySent.
Proof.
  apply (sendFriendRequest_twice strangers pendingFromBob "bob" "alice").
  reflexivity.
Defined.

(** X18. Friends cannot be asked again.  After a successful
    [acceptFriendRequest] between two distinct profiles, a new request in
    either direction fails with the already-friends error, and accepting
    a second time fails because the request is gone. *)
Theorem accepted_is_final (users users' : gmap string UserProfile)
  (userId friendId : string) :
  userId ≠ friendId →
  acceptFriendRequest users userId friendId = Ok users' →
  sendFriendRequest users' userId friendId = Err AlreadyFriends ∧
  sendFriendRequest users' friendId userId = Err AlreadyFriends ∧
  acceptFriendRequest users' userId friendId = Err RequestNotFound.
Proof.
  intros Hne. unfold acceptFriendRequest at 1, Js.includes.
  destruct (users !! userId) as [pu|] eqn:Hu; [|done].
  destruct (users !! friendId) as [pf|] eqn:Hf; [|done].
  case_bool_decide as Hin; [|done]. cbn.
  rewrite (updateDoc_twice users userId friendId _ _ pu pf Hu Hf).
  intros [= <-].
  set (users' := alter _ friendId (alter _ userId users)).
  assert (HU : ∃ p, users' !! userId = Some p ∧ friendId ∈ friends p
                    ∧ friendId ∉ received (friendRequests p)).
  { eexists. unfold users'.
    rewrite lookup_alter_ne, lookup_alter_eq, Hu by done. split; [done|]. cbn.
    split; [rewrite elem_of_app, list_elem_of_singleton; tauto|].
    rewrite without_spec. tauto. }
  assert (HF : ∃ p, users' !! friendId = Some p ∧ userId ∈ friends p).
  { eexists. unfold users'.
    rewrite lookup_alter_eq, lookup_alter_ne, Hf by done. split; [done|]. cbn.
    rewrite elem_of_app, list_elem_of_singleton; tauto. }
  destruct HU as (p1 & H1 & Hfr1 & Hrc1), HF as (p2 & H2 & Hfr2).
  split; [|split].
  - unfold sendFriendRequest, Js.includes. rewrite H1, H2.
    by rewrite (bool_decide_eq_true_2 _ Hfr1).
  - unfold sendFriendRequest, Js.includes. rewrite H1, H2.
    by rewrite (bool_decide_eq_true_2 _ Hfr2).
  - unfold acceptFriendRequest, Js.includes. rewrite H1, H2.
    by rewrite (bool_decide_eq_false_2 _ Hrc1).
Qed.

Lemma accepted_is_final_witness :
  sendFriendRequest friendsNow "bob" "alice" = Err AlreadyFriends ∧
  sendFriendRequest friendsNow "alice" "bob" = Err AlreadyFriends ∧
  acceptFriendRequest friendsNow "bob" "alice" = Err RequestNotFound.
Proof.
  apply (accepted_is_final pendingFromAlice friendsNow "bob" "alice").
  - discriminate.
  - reflexivity.
Defined.

Lemma arrayRemove_comm (x y : string) (l : list string) :
  Firestore.arrayRemove x (Firestore.arrayRemove y l)
  = Firestore.arrayRemove y (Firestore.arrayRemove x l).
Proof.
  unfold Firestore.arrayRemove. induction l as [|a l IH]; [done|]. cbn.
  destruct (bool_decide (a = y)) eqn:Hy, (bool_decide (a = x)) eqn:Hx; cbn;
    rewrite ?Hx, ?Hy; cbn; by rewrite IH.
Qed.

Lemma alter_swap {A} (f g : A → A) (i j : string) (m : gmap string A) :
  (∀ x, g (f x) = f (g x)) → alter g j (alter f i m) = alter f i (alter g j m).
Proof.
  intros H. destruct (decide (i = j)) as [->|Hne].
  - by apply alter_commute_same.
  - by apply alter_alter_ne.
Qed.

Lemma set_friends_twice (f g : list string → list string) (p : UserProfile) :
  set_friends g (set_friends f p) = set_friends (fun l => g (f l)) p.
Proof. reflexivity. Qed.

Lemma friends_set_friends (f : list string → list string) (p : UserProfile) :
  friends (set_friends f p) = f (friends p)
  ∧ friendRequests (set_friends f p) = friendRequests p.
Proof. done. Qed.

Lemma set_friends_id (f : list string → list string) (p : UserProfile) :
  f (friends p) = friends p → set_friends f p = p.
Proof. intros H. unfold set_friends. rewrite H. by destruct p. Qed.

(** X19. [removeFriend] between two existing profiles succeeds; the
    result does not depend on which of the two calls it; afterwards
    neither lists the other as a friend while every other friend, the
    pending requests and all other profiles are kept; and a second call
    changes nothing.  If one of the two profiles does not exist the batch
    is rejected. *)
Theorem removeFriend_symmetric (users : gmap string UserProfile)
  (userId friendId : string) :
  (users !! userId = None ∨ users !! friendId = None →
     removeFriend users userId friendId = Err NoDocument) ∧
  (∀ pu pf, users !! userId = Some pu → users !! friendId = Some pf →
     ∃ users' pu' pf',
       removeFriend users userId friendId = Ok users' ∧
       removeFriend users friendId userId = Ok users' ∧
       removeFriend users' userId friendId = Ok users' ∧
       users' !! userId = Some pu' ∧ users' !! friendId = Some pf' ∧
       (friendId ∉ friends pu') ∧ (userId ∉ friends pf') ∧
       (∀ x, x ≠ userId → x ≠ friendId →
             (x ∈ friends pu' ↔ x ∈ friends pu) ∧ (x ∈ friends pf' ↔ x ∈ friends pf)) ∧
       friendRequests pu' = friendRequests pu ∧
       friendRequests pf' = friendRequests pf ∧
       (∀ j, j ≠ userId → j ≠ friendId → users' !! j = users !! j)).
Proof.
  split.
  { unfold removeFriend. intros [->| ->]; [done|]. by destruct (users !! userId). }
  intros pu pf Hu Hf.
  set (fu := set_friends (Firestore.arrayRemove friendId)).
  set (ff := set_friends (Firestore.arrayRemove userId)).
  assert (Hswap : alter ff friendId (alter fu userId users)
                  = alter fu userId (alter ff friendId users)).
  { destruct (decide (userId = friendId)) as [->|Hne]; [done|].
    by apply alter_alter_ne. }
  assert (Hlook : ∃ pu' pf',
            alter ff friendId (alter fu userId users) !! userId = Some pu' ∧
            alter ff friendId (alter fu userId users) !! friendId = Some pf' ∧
            (friendId ∉ friends pu') ∧ (userId ∉ friends pf') ∧
            (∀ x, x ≠ userId → x ≠ friendId →
               (x ∈ friends pu' ↔ x ∈ friends pu) ∧ (x ∈ friends pf' ↔ x ∈ friends pf)) ∧
            friendRequests pu' = friendRequests pu ∧
            friendRequests pf' = friendRequests pf).
  { assert (Hfr : ∀ f p, friends (set_friends f p) = f (friends p))
      by (intros; apply friends_set_friends).
    destruct (decide (userId = friendId)) as [->|Hne].
    - assert (pf = pu) as -> by congruence.
      exists (ff (fu pu)), (ff (fu pu)). rewrite !lookup_alter_eq, Hu.
      split; [done|]. split; [done|]. unfold ff, fu. rewrite !Hfr.
      split; [rewrite !elem_of_arrayRemove; tauto|].
      split; [rewrite !elem_of_arrayRemove; tauto|].
      split; [|done]. intros x Hx _. rewrite !elem_of_arrayRemove. tauto.
    - exists (fu pu), (ff pf).
      rewrite lookup_alter_ne, !lookup_alter_eq, lookup_alter_ne, Hu, Hf by done.
      split; [done|]. split; [done|]. unfold ff, fu. rewrite !Hfr.
      split; [rewrite elem_of_arrayRemove; tauto|].
      split; [rewrite elem_of_arrayRemove; tauto|].
      split; [|done]. intros x Hx Hx'. rewrite !elem_of_arrayRemove. tauto. }
  destruct Hlook as (pu' & pf' & Hu' & Hf' & Hrest).
  exists (alter ff friendId (alter fu userId users)), pu', pf'.
  split. { unfold removeFriend. by rewrite Hu, Hf. }
  split. { unfold removeFriend. rewrite Hu, Hf. f_equal. symmetry. apply Hswap. }
  split.
  { unfold removeFriend. rewrite Hu', Hf'. f_equal. fold fu ff.
    assert (Hcomm : ∀ p, fu (ff p) = ff (fu p)).
    { intros p. unfold ff, fu. rewrite !set_friends_twice.
      unfold set_friends. by rewrite arrayRemove_comm. }
    assert (Hfu : ∀ p, fu (fu p) = fu p).
    { intros p. unfold fu. rewrite set_friends_twice. unfold set_friends.
      by rewrite arrayRemove_idemp. }
    assert (Hff : ∀ p, ff (ff p) = ff p).
    { intros p. unfold ff. rewrite set_friends_twice. unfold set_friends.
      by rewrite arrayRemove_idemp. }
    rewrite (alter_swap ff fu friendId userId (alter fu userId users)) by done.
    by rewrite (alter_idemp fu), (alter_idemp ff). }
  split; [done|]. split; [done|].
  destruct Hrest as (? & ? & ? & ? & ?). do 5 (split; [done|]).
  intros j Hj Hj'. by rewrite !lookup_alter_ne.
Qed.

Lemma removeFriend_symmetric_witness :
  ∃ users' pu' pf',
    removeFriend friendsNow "alice" "bob" = Ok users' ∧
    removeFriend friendsNow "bob" "alice" = Ok users' ∧
    removeFriend users' "alice" "bob" = Ok users' ∧
    users' !! "alice" = Some pu' ∧ users' !! "bob" = Some pf' ∧
    ("bob" ∉ friends pu') ∧ ("alice" ∉ friends pf').
Proof.
  destruct (removeFriend_symmetric friendsNow "alice" "bob") as [_ H].
  edestruct H as (users' & pu' & pf' & H1 & H2 & H3 & H4 & H5 & H6 & H7 & _);
    [vm_compute; reflexivity | vm_compute; reflexivity |].
  exists users', pu', pf'. tauto.
Defined.

Lemma arrayRemove_snoc (x : string) (l : list string) :
  x ∉ l → Firestore.arrayRemove x (l ++ [x]) = l.
Proof.
  intros Hx. rewrite <- (arrayUnion_fresh x l) by done.
  by apply arrayRemove_arrayUnion.
Qed.

(** The profile of the one who asked, after request, acceptance and
    removal, and the profile of the one who accepted. *)
Lemma asker_restored (p : UserProfile) (x : string) :
  x ∉ friends p → x ∉ sent (friendRequests p) →
  set_friends (Firestore.arrayRemove x)
    (set_relations
       (mkFriendRequests
          (without x (sent (friendRequests (set_sent (fun l => l ++ [x]) p))))
          (received (friendRequests (set_sent (fun l => l ++ [x]) p))))
       (friends (set_sent (fun l => l ++ [x]) p) ++ [x])
       (set_sent (fun l => l ++ [x]) p)) = p.
Proof.
  destruct p as [? ? ? ? ? ? ? ? fs [st rc]]. cbn -[without Firestore.arrayRemove].
  intros Hf Hs. unfold set_friends, set_relations.
  cbn -[without Firestore.arrayRemove].
  by rewrite without_snoc, arrayRemove_snoc.
Qed.

Lemma accepter_restored (p : UserProfile) (x : string) :
  x ∉ friends p → x ∉ received (friendRequests p) →
  set_friends (Firestore.arrayRemove x)
    (set_relations
       (mkFriendRequests
          (sent (friendRequests (set_received (fun l => l ++ [x]) p)))
          (without x (received (friendRequests (set_received (fun l => l ++ [x]) p)))))
       (friends (set_received (fun l => l ++ [x]) p) ++ [x])
       (set_received (fun l => l ++ [x]) p)) = p.
Proof.
  destruct p as [? ? ? ? ? ? ? ? fs [st rc]]. cbn -[without Firestore.arrayRemove].
  intros Hf Hs. unfold set_friends, set_relations.
  cbn -[without Firestore.arrayRemove].
  by rewrite without_snoc, arrayRemove_snoc.
Qed.

(** X20. A friendship that is made and then ended leaves no trace: for
    two distinct profiles that were neither friends nor linked by a
    request from [A] to [B], the calls [sendFriendRequest A B],
    [acceptFriendRequest B A] and [removeFriend A B] all succeed and the
    directory is then exactly what it was before the first call. *)
Theorem friendship_round_trip (users : gmap string UserProfile) (A B : string)
  (pa pb : UserProfile) :
  A ≠ B → users !! A = Some pa → users !! B = Some pb →
  ¬ befriended pa pb A B → ¬ requested pa pb A B →
  ∃ users1 users2,
    sendFriendRequest users A B = Ok users1 ∧
    acceptFriendRequest users1 B A = Ok users2 ∧
    removeFriend users2 A B = Ok users.
Proof.
  intros Hne Ha Hb Hf Hq.
  pose proof (sendFriendRequest_fresh users A B pa pb Ha Hb Hf Hq) as Hsend.
  destruct (sendFriendRequest_lookup users A B pa pb Hne Ha Hb) as (H1A & H1B & Hother).
  unfold befriended in Hf. unfold requested in Hq.
  eexists _, _. split; [exact Hsend|]. split.
  { apply (acceptFriendRequest_pending _ B A _ _ H1B H1A). cbn.
    rewrite elem_of_app, list_elem_of_singleton. tauto. }
  unfold removeFriend.
  rewrite (lookup_alter_eq _ _ A), (lookup_alter_ne _ _ B A), H1A by done.
  rewrite (lookup_alter_ne _ _ A B), (lookup_alter_eq _ _ B), H1B by done.
  cbn -[without Firestore.arrayRemove alter]. f_equal.
  apply map_eq. intros j.
  destruct (decide (j = A)) as [->|HjA].
  - rewrite (lookup_alter_ne _ _ B A), !(lookup_alter_eq _ _ A) by done.
    rewrite (lookup_alter_ne _ _ B A), H1A, Ha by done.
    cbn -[without Firestore.arrayRemove]. f_equal.
    apply asker_restored; tauto.
  - destruct (decide (j = B)) as [->|HjB].
    + rewrite (lookup_alter_eq _ _ B), !(lookup_alter_ne _ _ A B) by done.
      rewrite (lookup_alter_eq _ _ B), H1B, Hb.
      cbn -[without Firestore.arrayRemove]. f_equal.
      apply accepter_restored; tauto.
    + by rewrite !lookup_alter_ne.
Qed.

Lemma friendship_round_trip_witness :
  ∃ users1 users2,
    sendFriendRequest strangers "alice" "bob" = Ok users1 ∧
    acceptFriendRequest users1 "bob" "alice" = Ok users2 ∧
    removeFriend users2 "alice" "bob" = Ok strangers.
Proof.
  apply (friendship_round_trip strangers "alice" "bob" (blank "alice") (blank "bob")).
  - discriminate.
  - reflexivity.
  - reflexivity.
  - intros [H|H]; apply list_elem_of_In in H; destruct H.
  - intros [H|H]; apply list_elem_of_In in H; destruct H.
Defined.

(** ** Relationship lists as shown to the user *)

Lemma summary_alter (users : gmap string UserProfile) (i x : string) f :
  (∀ p, displayName (f p) = displayName p ∧ email (f p) = email p
        ∧ photoURL (f p) = photoURL p) →
  summary (alter f i users) x = summary users x.
Proof.
  intros Hf. unfold summary. destruct (decide (i = x)) as [->|Hne].
  - rewrite lookup_alter_eq. destruct (users !! x) as [p|]; cbn; [|done].
    destruct (Hf p) as (-> & -> & ->). done.
  - by rewrite lookup_alter_ne.
Qed.

Lemma omap_summary_ext (users users' : gmap string UserProfile) (l : list string) :
  (∀ x, summary users' x = summary users x) →
  omap (summary users') l = omap (summary users) l.
Proof. intros H. induction l as [|a l IH]; cbn; [done|]. by rewrite H, IH. Qed.

(** X21. [getFriends] shows exactly the friends whose profile exists, in
    the order of the [friends] list: an id without a profile is dropped
    without an error, and every entry shown carries the display name,
    email and photo of that friend's own profile. *)
Theorem getFriends_resolves (users : gmap string UserProfile) (userId : string)
  (p : UserProfile) :
  users !! userId = Some p →
  fr_id <$> getFriends users userId
    = List.filter (fun f => bool_decide (is_Some (users !! f))) (friends p) ∧
  (∀ s, s ∈ getFriends users userId →
        fr_id s ∈ friends p ∧
        ∃ d, users !! fr_id s = Some d ∧ fr_displayName s = displayName d ∧
             fr_email s = email d ∧ fr_photoURL s = photoURL d).
Proof.
  intros Hp. unfold getFriends. rewrite Hp. split.
  - induction (friends p) as [|f l IH]; cbn; [done|].
    unfold summary at 1. destruct (users !! f) as [d|]; cbn; [by f_equal | done].
  - intros s (f & Hf & Hs)%list_elem_of_omap. unfold summary in Hs.
    destruct (users !! f) as [d|] eqn:Hd; [|done]. injection Hs as <-. cbn.
    split; [done|]. by exists d.
Qed.

Lemma getFriends_resolves_witness :
  fr_id <$> getFriends danglingFriend "alice" = ["bob"].
Proof.
  destruct (getFriends_resolves danglingFriend "alice"
              (set_friends (fun _ => ["carol"; "bob"]) (blank "alice"))) as [H _].
  - reflexivity.
  - rewrite H. reflexivity.
Defined.

(** X22. What the two users see.  After a request from [A] to [B]
    between distinct profiles that were neither friends nor linked by
    this request, [getFriendRequests] shows [B] last among the requests
    [A] has sent and [A] last among those [B] has received; after [B]
    accepts, [getFriends] shows each of the two last in the other's list,
    with the entries that were shown before unchanged in front. *)
Theorem lists_follow_lifecycle (users : gmap string UserProfile) (A B : string)
  (pa pb : UserProfile) :
  A ≠ B → users !! A = Some pa → users !! B = Some pb →
  ¬ befriended pa pb A B → ¬ requested pa pb A B →
  ∃ users1 users2,
    sendFriendRequest users A B = Ok users1 ∧
    (getFriendRequests users1 A).2
      = (getFriendRequests users A).2
        ++ [mkFriendRequest B (displayName pb) (email pb) (photoURL pb)] ∧
    (getFriendRequests users1 B).1
      = (getFriendRequests users B).1
        ++ [mkFriendRequest A (displayName pa) (email pa) (photoURL pa)] ∧
    acceptFriendRequest users1 B A = Ok users2 ∧
    getFriends users2 A
      = getFriends users A
        ++ [mkFriendRequest B (displayName pb) (email pb) (photoURL pb)] ∧
    getFriends users2 B
      = getFriends users B
        ++ [mkFriendRequest A (displayName pa) (email pa) (photoURL pa)].
Proof.
  intros Hne Ha Hb Hf Hq.
  pose proof (sendFriendRequest_fresh users A B pa pb Ha Hb Hf Hq) as Hsend.
  destruct (sendFriendRequest_lookup users A B pa pb Hne Ha Hb) as (H1A & H1B & Hother).
  set (users1 := alter (set_received (fun l => l ++ [A])) B
                   (alter (set_sent (fun l => l ++ [B])) A users)) in *.
  assert (Hs1 : ∀ x, summary users1 x = summary users x).
  { intros x. unfold users1. by rewrite !summary_alter. }
  assert (HsA : summary users A
                = Some (mkFriendRequest A (displayName pa) (email pa) (photoURL pa))).
  { unfold summary. by rewrite Ha. }
  assert (HsB : summary users B
                = Some (mkFriendRequest B (displayName pb) (email pb) (photoURL pb))).
  { unfold summary. by rewrite Hb. }
  eexists users1, _. split; [exact Hsend|].
  split.
  { unfold getFriendRequests. rewrite H1A, Ha. cbn.
    rewrite omap_app. cbn. rewrite Hs1, HsB. cbn.
    by rewrite (omap_summary_ext users users1). }
  split.
  { unfold getFriendRequests. rewrite H1B, Hb. cbn.
    rewrite omap_app. cbn. rewrite Hs1, HsA. cbn.
    by rewrite (omap_summary_ext users users1). }
  split.
  { apply (acceptFriendRequest_pending _ B A _ _ H1B H1A). cbn.
    rewrite elem_of_app, list_elem_of_singleton. tauto. }
  assert (Hs2 : ∀ (fa fb : UserProfile → UserProfile) x,
            (∀ p, displayName (fa p) = displayName p ∧ email (fa p) = email p
                  ∧ photoURL (fa p) = photoURL p) →
            (∀ p, displayName (fb p) = displayName p ∧ email (fb p) = email p
                  ∧ photoURL (fb p) = photoURL p) →
            summary (alter fa A (alter fb B users1)) x = summary users x).
  { intros fa fb x Hfa Hfb. by rewrite !summary_alter, Hs1. }
  split.
  - unfold getFriends.
    rewrite lookup_alter_eq, lookup_alter_ne, H1A, Ha by done. cbn.
    rewrite omap_app. cbn. rewrite Hs2, HsB by done. cbn.
    by rewrite (omap_summary_ext users) by (intros x; by apply Hs2).
  - unfold getFriends.
    rewrite lookup_alter_ne, lookup_alter_eq, H1B, Hb by done. cbn.
    rewrite omap_app. cbn. rewrite Hs2, HsA by done. cbn.
    by rewrite (omap_summary_ext users) by (intros x; by apply Hs2).
Qed.

Lemma lists_follow_lifecycle_witness :
  ∃ users1 users2,
    sendFriendRequest strangers "alice" "bob" = Ok users1 ∧
    (getFriendRequests users1 "alice").2
      = (getFriendRequests strangers "alice").2
        ++ [mkFriendRequest "bob" (displayName (blank "bob")) (email (blank "bob"))
              (photoURL (blank "bob"))] ∧
    (getFriendRequests users1 "bob").1
      = (getFriendRequests strangers "bob").1
        ++ [mkFriendRequest "alice" (displayName (blank "alice"))
              (email (blank "alice")) (photoURL (blank "alice"))] ∧
    acceptFriendRequest users1 "bob" "alice" = Ok users2 ∧
    getFriends users2 "alice"
      = getFriends strangers "alice"
        ++ [mkFriendRequest "bob" (displayName (blank "bob")) (email (blank "bob"))
              (photoURL (blank "bob"))] ∧
    getFriends users2 "bob"
      = getFriends strangers "bob"
        ++ [mkFriendRequest "alice" (displayName (blank "alice"))
              (email (blank "alice")) (photoURL (blank "alice"))].
Proof.
  apply (lists_follow_lifecycle strangers "alice" "bob" (blank "alice") (blank "bob")).
  - discriminate.
  - reflexivity.
  - reflexivity.
  - intros [H|H]; apply list_elem_of_In in H; destruct H.
  - intros [H|H]; apply list_elem_of_In in H; destruct H.
Defined.

(** ** The profile directory *)

(** With enough tests allowed, the username is always settled. *)
Lemma deriveUsername_total (fuel : nat) (users : gmap string UserProfile)
  (data : ProfileData) :
  (size users + 2 ≤ fuel)%nat → is_Some (deriveUsername fuel users data).
Proof.
  intros Hfuel. unfold deriveUsername.
  destruct (data_email data) as [e|]; [|by eexists].
  destruct (_ && _); [|by eexists].
  destruct (least_candidate_free users (Js.split_head "@" e)) as (k & Hk & Hfree & Htaken).
  assert (Hp : probe users (Js.split_head "@" e) fuel 0 (Js.split_head "@" e)
               = Some (candidate (Js.split_head "@" e) k)).
  { apply (probe_finds users _ fuel 0 k); [lia | lia | done |].
    intros j Hj. apply Htaken. lia. }
  rewrite Hp. by eexists.
Qed.

(** X23. [upsertProfile] then [getUserProfile]: the call terminates and
    the profile is then found under its id, also by [getUserByQRCode],
    with that id, the QR code of that id and the time of the call; an
    email given in the call is stored, an email not given is kept; the
    friends and pending requests of an existing profile are kept, a new
    profile starts without any; no other profile changes. *)
Theorem upsertProfile_round_trip (toDataURL : string → string) (now : Z)
  (fuel : nat) (users : gmap string UserProfile) (userId : string)
  (data : ProfileData) :
  (size users + 2 ≤ fuel)%nat →
  ∃ w users' p,
    upsertProfile toDataURL now fuel users userId data = Some (w, users') ∧
    getUserProfile users' userId = Ok p ∧
    getUserByQRCode users' userId = Some (userId, p) ∧
    profileId p = userId ∧ qrCode p = toDataURL userId ∧ lastSeen p = now ∧
    (∀ e, data_email data = Some e → email p = Some e) ∧
    (∀ old, users !! userId = Some old →
       friends p = friends old ∧ friendRequests p = friendRequests old ∧
       (data_email data = None → email p = email old)) ∧
    (users !! userId = None →
       friends p = [] ∧ friendRequests p = mkFriendRequests [] []) ∧
    (∀ j, j ≠ userId → users' !! j = users !! j).
Proof.
  intros Hfuel. unfold upsertProfile.
  destruct (deriveUsername_total fuel users data Hfuel) as [u ->]. cbn.
  eexists _, _, _. split; [done|].
  unfold getUserProfile, getUserByQRCode. rewrite lookup_insert_eq.
  split; [done|]. split; [done|].
  unfold mergeDoc.
  destruct (users !! userId) as [old|]; cbn.
  - do 3 (split; [done|]). split; [by intros e ->|].
    split; [|split; [done|]].
    + intros ? [= <-]. do 2 (split; [done|]). by intros ->.
    + intros j Hj. by rewrite lookup_insert_ne.
  - do 3 (split; [done|]). split; [by intros e ->|].
    split; [done|]. split; [done|].
    intros j Hj. by rewrite lookup_insert_ne.
Qed.

Lemma upsertProfile_round_trip_witness :
  ∃ w users' p,
    upsertProfile qr 10 3 annTaken "u0" annData = Some (w, users') ∧
    getUserProfile users' "u0" = Ok p ∧
    profileId p = "u0" ∧ username p = Some "ann1".
Proof.
  destruct (upsertProfile_round_trip qr 10 3 annTaken "u0" annData)
    as (w & users' & p & Hup & Hget & _); [vm_compute; lia|].
  exists w, users', p. split; [exact Hup|]. split; [exact Hget|].
  vm_compute in Hup. injection Hup as <- <-.
  vm_compute in Hget. injection Hget as <-. split; reflexivity.
Defined.

(** X24. Usernames derived from the email keep usernames unique: if no
    two profiles share a username, then after an [upsertProfile] without a
    username and with an email still no two profiles share one. *)
Theorem derived_username_unique (toDataURL : string → string) (now : Z)
  (fuel : nat) (users : gmap string UserProfile) (userId : string)
  (data : ProfileData) (e : string) :
  usernamesUnique users →
  Js.truthy (Js.of_opt (data_username data)) = false →
  data_email data = Some e → e ≠ "" →
  (size users + 2 ≤ fuel)%nat →
  ∃ w users',
    upsertProfile toDataURL now fuel users userId data = Some (w, users') ∧
    usernamesUnique users'.
Proof.
  intros Huniq Hu He Hne Hfuel.
  destruct (upsertProfile_derives toDataURL now fuel users userId data e Hu He Hne Hfuel)
    as (k & users' & (w & p & Hup & _ & Hp & Hname & Hother) & Hfree & _).
  exists w, users'. split; [done|].
  assert (Hnew : ∀ j q, j ≠ userId → users' !! j = Some q →
            username q ≠ Some (candidate (Js.split_head "@" e) k)).
  { intros j q Hj Hq Hn. rewrite Hother in Hq by done.
    assert (isUsernameTaken users (candidate (Js.split_head "@" e) k) = true)
      by (apply isUsernameTaken_lookup; eauto).
    congruence. }
  intros i j pi pj x Hi Hj Hxi Hxj.
  destruct (decide (i = userId)) as [->|Hni], (decide (j = userId)) as [->|Hnj].
  - done.
  - exfalso. apply (Hnew j pj Hnj Hj). congruence.
  - exfalso. apply (Hnew i pi Hni Hi). congruence.
  - rewrite Hother in Hi, Hj by done. by apply (Huniq i j pi pj x).
Qed.

Lemma annTaken_unique : usernamesUnique annTaken.
Proof.
  intros i j p q u Hi Hj _ _. unfold annTaken in *.
  apply lookup_singleton_Some in Hi as [<- _].
  by apply lookup_singleton_Some in Hj as [<- _].
Qed.

Lemma derived_username_unique_witness :
  ∃ w users',
    upsertProfile qr 10 3 annTaken "u1" annData = Some (w, users') ∧
    usernamesUnique users'.
Proof.
  apply (derived_username_unique qr 10 3 annTaken "u1" annData "ann@x.com").
  - apply annTaken_unique.
  - reflexivity.
  - reflexivity.
  - discriminate.
  - vm_compute. lia.
Defined.

(** X25. A username given to [upsertProfile] is stored as it is, without
    the test made for derived usernames: if another profile already
    carries it, both profiles carry it afterwards, so usernames are no
    longer unique. *)
Theorem given_username_not_checked (toDataURL : string → string) (now : Z)
  (fuel : nat) (users : gmap string UserProfile) (userId other u : string)
  (data : ProfileData) (q : UserProfile) :
  data_username data = Some u → u ≠ "" →
  other ≠ userId → users !! other = Some q → username q = Some u →
  ∃ w users' p,
    upsertProfile toDataURL now fuel users userId data = Some (w, users') ∧
    users' !! userId = Some p ∧ username p = Some u ∧
    users' !! other = Some q ∧
    ¬ usernamesUnique users'.
Proof.
  intros Hu Hne Hother Hq Hqu. unfold upsertProfile, deriveUsername.
  assert (Hd : match data_email data with
               | Some e =>
                   if negb (Js.truthy (Js.of_opt (data_username data)))
                      && Js.truthy (Js.Str e)
                   then Some <$> probe users (Js.split_head "@" e) fuel 0
                                   (Js.split_head "@" e)
                   else Some (data_username data)
               | None => Some (data_username data)
               end = Some (Some u)).
  { rewrite Hu. cbn. rewrite bool_decide_eq_false_2 by done. cbn.
    by destruct (data_email data). }
  rewrite Hd. cbn. eexists _, _, _. split; [done|].
  rewrite lookup_insert_eq, lookup_insert_ne by done.
  split; [done|].
  assert (Hname : username (mergeDoc
                    (mkUserData userId (data_email data) (Some u) (toDataURL userId) now
                       (whenTruthy (data_displayName data))
                       (whenTruthy (data_photoURL data))
                       (whenTruthy (data_status data))) (users !! userId)) = Some u).
  { unfold mergeDoc. by destruct (users !! userId). }
  split; [exact Hname|]. split; [done|].
  intros Huniq.
  apply Hother. symmetry.
  eapply (Huniq userId other _ q u); [by rewrite lookup_insert_eq | | exact Hname | done].
  by rewrite lookup_insert_ne.
Qed.

Lemma given_username_not_checked_witness :
  ∃ w users' p,
    upsertProfile qr 10 0 annTaken "u1"
      (mkProfileData (Some "other@x.com") (Some "ann") None None None)
      = Some (w, users') ∧
    users' !! "u1" = Some p ∧ username p = Some "ann" ∧
    users' !! "u0" = Some (blank "ann") ∧
    ¬ usernamesUnique users'.
Proof.
  apply (given_username_not_checked qr 10 0 annTaken "u1" "u0" "ann").
  - reflexivity.
  - discriminate.
  - discriminate.
  - reflexivity.
  - reflexivity.
Defined.

(** ** Searching the directory *)

Lemma lowerUnit_idemp (a : ascii) : Js.lowerUnit (Js.lowerUnit a) = Js.lowerUnit a.
Proof. destruct a as [[] [] [] [] [] [] [] []]; vm_compute; reflexivity. Qed.

Lemma toLowerCase_idemp (s : string) :
  Js.toLowerCase (Js.toLowerCase s) = Js.toLowerCase s.
Proof. induction s as [|a s IH]; cbn; [done|]. by rewrite lowerUnit_idemp, IH. Qed.

Lemma whereEq_spec (field : UserProfile → option string) (q : string)
  (users : gmap string UserProfile) (i : string) (p : UserProfile) :
  (i, p) ∈ whereEq field q users ↔ users !! i = Some p ∧ field p = Some q.
Proof.
  unfold whereEq.
  rewrite list_elem_of_In, filter_In, <- list_elem_of_In, elem_of_map_to_list.
  cbn. by rewrite bool_decide_eq_true.
Qed.

Lemma found_spec (id : string) (results : list (string * UserProfile)) :
  found id results = true ↔ id ∈ results.*1.
Proof.
  unfold found. rewrite existsb_exists, list_elem_of_fmap. split.
  - intros (u & Hu & Hid). apply bool_decide_eq_true in Hid.
    exists u. split; [done|]. by apply list_elem_of_In.
  - intros (u & -> & Hu). exists u. split; [by apply list_elem_of_In|].
    by apply bool_decide_eq_true.
Qed.

Lemma mergeMatches_elem (acc l : list (string * UserProfile)) d :
  d ∈ mergeMatches acc l → d ∈ acc ∨ d ∈ l.
Proof.
  unfold mergeMatches. revert acc. induction l as [|a l IH]; intros acc; cbn; [auto|].
  intros [H|H]%IH; [|right; by right].
  destruct (negb _); [|by left].
  apply elem_of_app in H as [H| ->%list_elem_of_singleton]; [by left|].
  right; by left.
Qed.

Lemma mergeMatches_acc (acc l : list (string * UserProfile)) d :
  d ∈ acc → d ∈ mergeMatches acc l.
Proof.
  unfold mergeMatches. revert acc. induction l as [|a l IH]; intros acc; cbn; [auto|].
  intros H. apply IH. destruct (negb _); [|done]. apply elem_of_app. by left.
Qed.

Lemma mergeMatches_ids (acc l : list (string * UserProfile)) d :
  d ∈ l → d.1 ∈ (mergeMatches acc l).*1.
Proof.
  unfold mergeMatches. revert acc. induction l as [|a l IH]; intros acc; cbn.
  - by intros ?%elem_of_nil.
  - intros [->|H]%elem_of_cons; [|by apply IH].
    assert (Hin : a.1 ∈ (if negb (found a.1 acc) then acc ++ [a] else acc).*1).
    { destruct (found a.1 acc) eqn:Hf; cbn.
      - by apply found_spec.
      - rewrite fmap_app, elem_of_app. right. cbn. by apply list_elem_of_singleton. }
    apply list_elem_of_fmap in Hin as (u & Hu & Hin).
    apply list_elem_of_fmap. exists u. split; [done|].
    by apply (mergeMatches_acc _ l).
Qed.

Lemma mergeMatches_NoDup (acc l : list (string * UserProfile)) :
  NoDup acc.*1 → NoDup (mergeMatches acc l).*1.
Proof.
  unfold mergeMatches. revert acc. induction l as [|a l IH]; intros acc Hacc; cbn; [done|].
  apply IH. destruct (found a.1 acc) eqn:Hf; cbn; [done|].
  rewrite fmap_app. apply NoDup_app. split; [done|].
  split; [|apply NoDup_singleton].
  intros x Hx ->%list_elem_of_singleton.
  apply found_spec in Hx. congruence.
Qed.

Lemma whereEq_NoDup (field : UserProfile → option string) (q : string)
  (users : gmap string UserProfile) : NoDup (whereEq field q users).*1.
Proof.
  unfold whereEq.
  assert (Hnd : NoDup (map_to_list users).*1) by apply NoDup_fst_map_to_list.
  induction (map_to_list users) as [|d l IH]; cbn; [constructor|].
  apply NoDup_cons in Hnd as [Hd Hl].
  destruct (bool_decide _); cbn; [|by apply IH]. constructor; [|by apply IH].
  intros Hin. apply Hd. apply list_elem_of_fmap in Hin as (y & -> & Hy).
  apply list_elem_of_fmap. exists y. split; [done|].
  apply list_elem_of_In. apply list_elem_of_In in Hy. by apply filter_In in Hy as [? _].
Qed.

(** X26. [searchUsers] of the second service looks for the query with its
    outer white space removed and in lower case.  An empty query finds
    nothing; any other query finds exactly the profiles whose stored
    email or stored username equals it, every profile once even when
    both fields match. *)
Theorem searchUsers_spec (users : gmap string UserProfile) (searchQuery : string) :
  let q := Js.toLowerCase (Js.trim searchQuery) in
  (q = "" → searchUsers users searchQuery = []) ∧
  (q ≠ "" →
     NoDup (searchUsers users searchQuery).*1 ∧
     ∀ i p, (i, p) ∈ searchUsers users searchQuery ↔
            users !! i = Some p ∧ (email p = Some q ∨ username p = Some q)).
Proof.
  intros q. unfold searchUsers. fold q. rewrite truthy_Str, negb_involutive. split.
  - intros ->. done.
  - intros Hq. rewrite bool_decide_eq_false_2 by done.
    change (foldl _ ?a ?l) with (mergeMatches a l).
    split; [apply mergeMatches_NoDup, whereEq_NoDup|].
    intros i p. split.
    + intros [H|H]%mergeMatches_elem; apply whereEq_spec in H; tauto.
    + intros [Hi [He|Hu]].
      * apply mergeMatches_acc. by apply whereEq_spec.
      * assert (Hin : (i, p) ∈ whereEq username q users) by (by apply whereEq_spec).
        apply (mergeMatches_ids (whereEq email q users)) in Hin.
        apply list_elem_of_fmap in Hin as ([i' p'] & Hid & Hin). cbn in Hid. subst i'.
        assert (p' = p) as ->; [|done].
        apply mergeMatches_elem in Hin as [H|H]; apply whereEq_spec in H;
          destruct H; congruence.
Qed.

Lemma searchUsers_spec_witness :
  searchUsers strangers "   " = [] ∧
  ∀ i p, (i, p) ∈ searchUsers strangers "  BOB " ↔
         strangers !! i = Some p ∧ (email p = Some "bob" ∨ username p = Some "bob").
Proof.
  destruct (searchUsers_spec strangers "   ") as [H1 _].
  destruct (searchUsers_spec strangers "  BOB ") as [_ H2].
  split; [by apply H1|]. by apply H2.
Defined.

Lemma searchUsers_total_or_empty (users : gmap string UserProfile)
  (searchQuery : string) :
  searchUsers users searchQuery = []
  ∨ ∀ i p, (i, p) ∈ searchUsers users searchQuery →
           users !! i = Some p ∧
           (email p = Some (Js.toLowerCase (Js.trim searchQuery))
            ∨ username p = Some (Js.toLowerCase (Js.trim searchQuery))).
Proof.
  unfold searchUsers. destruct (negb _); [by left|]. right.
  change (foldl _ ?a ?l) with (mergeMatches a l).
  intros i p [H|H]%mergeMatches_elem; apply whereEq_spec in H; tauto.
Qed.

(** X27. The query is put in lower case but the stored fields are not: a
    profile is only ever found through an email or a username that is
    written entirely in lower case, so a profile whose email and username
    both contain a capital letter is found by no query at all. *)
Theorem searchUsers_lower_only (users : gmap string UserProfile)
  (searchQuery i : string) (p : UserProfile) :
  (i, p) ∈ searchUsers users searchQuery →
  ∃ x, (email p = Some x ∨ username p = Some x) ∧ isLower x.
Proof.
  intros Hin.
  destruct (searchUsers_total_or_empty users searchQuery) as [Hempty|Hq].
  - rewrite Hempty in Hin. by apply elem_of_nil in Hin.
  - exists (Js.toLowerCase (Js.trim searchQuery)). split.
    + by apply Hq in Hin as [_ ?].
    + apply toLowerCase_idemp.
Qed.

Lemma searchUsers_lower_only_witness :
  ("bob", blank "bob") ∈ searchUsers mixedCase "  BOB " ∧
  (∃ x, (email (blank "bob") = Some x ∨ username (blank "bob") = Some x)
        ∧ isLower x) ∧
  (∀ searchQuery p, ("u9", p) ∈ searchUsers mixedCase searchQuery →
                    mixedCase !! "u9" = Some p → False).
Proof.
  assert (Hbob : ("bob", blank "bob") ∈ searchUsers mixedCase "  BOB ").
  { vm_compute. constructor. }
  split; [exact Hbob|]. split.
  - exact (searchUsers_lower_only mixedCase "  BOB " "bob" (blank "bob") Hbob).
  - intros searchQuery p Hin Hp.
    destruct (searchUsers_lower_only mixedCase searchQuery "u9" p Hin)
      as (x & Hx & Hlow).
    vm_compute in Hp. injection Hp as <-. cbn in Hx.
    destruct Hx as [[= <-]|[= <-]]; vm_compute in Hlow; discriminate.
Defined.

(** X28. [searchUserByUsername] finds a profile exactly when
    [isUsernameTaken] says the username is taken, and the profile it
    returns is stored under the returned id and carries that username;
    [searchUserByEmail] returns a stored profile with exactly the email
    asked for, and nothing only when no profile has that email. *)
Theorem single_match_searches (users : gmap string UserProfile) (x : string) :
  (isUsernameTaken users x = true ↔ is_Some (searchUserByUsername users x)) ∧
  (∀ i p, searchUserByUsername users x = Some (i, p) →
          users !! i = Some p ∧ username p = Some x) ∧
  (∀ i p, searchUserByEmail users x = Some (i, p) →
          users !! i = Some p ∧ email p = Some x) ∧
  (searchUserByEmail users x = None ↔
     ∀ i p, users !! i = Some p → email p ≠ Some x).
Proof.
  assert (Hhead : ∀ field i p, head (whereEq field x users) = Some (i, p) →
            users !! i = Some p ∧ field p = Some x).
  { intros field i p H. apply whereEq_spec.
    destruct (whereEq field x users) as [|d l]; [done|].
    injection H as ->. by left. }
  split; [|split; [|split]].
  - unfold isUsernameTaken, searchUserByUsername, whereEq.
    destruct (List.filter _ _); cbn.
    + split; [done | by intros [? ?]].
    + split; [by eexists | done].
  - apply Hhead.
  - apply Hhead.
  - unfold searchUserByEmail. split.
    + intros Hnone i p Hi He.
      assert (Hin : (i, p) ∈ whereEq email x users) by (by apply whereEq_spec).
      destruct (whereEq email x users); [by apply elem_of_nil in Hin | done].
    + intros Hno. destruct (whereEq email x users) as [|[i p] l] eqn:Hw; [done|].
      exfalso. assert (Hin : (i, p) ∈ whereEq email x users) by (rewrite Hw; by left).
      apply whereEq_spec in Hin as [Hi He]. by apply (Hno i p).
Qed.
